(** * pattern_recognition.py: the wave-pattern pipeline

    A shallow embedding of the analytic core of [pattern_recognition.py]
    (smoothing, extrema detection, wave building, classification,
    structural triples, quality metric, phase model, fractality, and the
    orchestrating [PatternSystem.run]), with the properties of the
    written specification stated and settled against it.

    Numbers.  Python floats are modelled by exact rationals [Q]: rounding,
    infinities and NaN are outside the model.  Integers (bar indices,
    window lengths) are [Z].  The literal [1e-9] is the rational 1/10^9.

    Failure.  A Python exception is a [Raise] in the [result] monad.  The
    exceptions the modelled code can raise are [IndexError] (indexing
    outside an array), [ZeroDivisionError] (division of Python floats)
    and [ValueError] (the argument checks of the data-frame constructor
    and of the Savitzky-Golay filter).

    Mutation.  [classify], [score] and [assign] write fields of the
    objects held in the list they are given; each is modelled as a
    function returning that list with the fields replaced, and the
    pipeline hands the returned list to the next stage as the code
    does.

    The plot and the textual report of [run] are renderings of the
    analytic result and are not modelled. *)

From Stdlib Require Import String List ZArith QArith Qabs Bool Lia Lqa.
From Stdlib Require PrimFloat.
Import ListNotations.

Open Scope Q_scope.

(** ** Exceptions *)

Inductive exn : Set := IndexError | ZeroDivisionError | ValueError.

Inductive result (A : Type) : Type :=
| Ok (a : A)
| Raise (e : exn).
Arguments Ok {A} a.
Arguments Raise {A} e.

Definition bind {A B : Type} (m : result A) (k : A -> result B) : result B :=
  match m with
  | Ok a => k a
  | Raise e => Raise e
  end.

Notation "x <- m ;; k" := (bind m (fun x => k))
  (at level 61, m at next level, right associativity).

(** A [for] loop that appends one value per iteration and stops at the
    first exception. *)
Fixpoint mapM {A B : Type} (f : A -> result B) (l : list A) : result (list B) :=
  match l with
  | [] => Ok []
  | a :: l' => b <- f a ;; bs <- mapM f l' ;; Ok (b :: bs)
  end.

(** [l[i]] on a Python list. *)
Definition get {A : Type} (l : list A) (i : nat) : result A :=
  match nth_error l i with
  | Some a => Ok a
  | None => Raise IndexError
  end.

(** ** Float operations *)

Definition eps : Q := 1 # 1000000000.

Definition Qltb (x y : Q) : bool := negb (Qle_bool y x).
Definition Qgtb (x y : Q) : bool := Qltb y x.
Definition Qgeb (x y : Q) : bool := Qle_bool y x.

(** [x / y] on Python floats. *)
Definition pydiv (x y : Q) : result Q :=
  if Qeq_bool y 0 then Raise ZeroDivisionError else Ok (x / y).

(** [max(a, b)]: the first argument unless the second is larger. *)
Definition pymax (a b : Q) : Q := if Qgtb b a then b else a.

(** [x or d]: [x] unless it is zero. *)
Definition py_or (x d : Q) : Q := if Qeq_bool x 0 then d else x.

Definition Qsum (l : list Q) : Q := fold_left Qplus l 0.

(** [np.mean] *)
Definition np_mean (l : list Q) : Q := Qsum l / inject_Z (Z.of_nat (length l)).

(** ** External numeric routines

    The numeric library calls whose implementation is not part of the
    program are parameters of the model: [np.arctan], the square root
    inside [np.std], and the three smoothing kernels
    ([pandas ewm(span, adjust=False).mean()], [gaussian_filter1d] and the
    Savitzky-Golay fit). *)

Record Externals : Type := mkExternals {
  np_arctan : Q -> Q;
  np_sqrt : Q -> Q;
  ewm_mean : Z -> list Q -> list Q;
  gaussian_filter1d : Q -> list Q -> list Q;
  savgol_fit : Z -> Z -> list Q -> list Q
}.

(** ** Data structures *)

(** [Extremum.kind]: ['max'] or ['min']. *)
Inductive ekind : Set := Kmax | Kmin.

Definition ekind_eqb (a b : ekind) : bool :=
  match a, b with
  | Kmax, Kmax | Kmin, Kmin => true
  | _, _ => false
  end.

Record Extremum : Type := mkExtremum {
  index : Z;
  time : Q;
  price : Q;
  kind : ekind
}.

(** [Wave.direction]: ['up'] or ['down']. *)
Inductive dir : Set := Up | Down.

Definition dir_eqb (a b : dir) : bool :=
  match a, b with
  | Up, Up | Down, Down => true
  | _, _ => false
  end.

(** [Wave.wave_type]: ['unknown'], ['impulse'] or ['correction']. *)
Inductive wtype : Set := Unknown | Impulse | Correction.

Definition wtype_eqb (a b : wtype) : bool :=
  match a, b with
  | Unknown, Unknown | Impulse, Impulse | Correction, Correction => true
  | _, _ => false
  end.

Record Wave : Type := mkWave {
  idx : Z;
  start : Extremum;
  end_ : Extremum;
  amplitude : Q;
  duration : Q;
  angle : Q;
  velocity : Q;
  direction : dir;
  wave_type : wtype
}.

Record StructuralTriple : Type := mkTriple {
  w1 : Wave;
  w2 : Wave;
  w3 : Wave;
  correction_ratio : Q;
  quality_score : Q;
  phase : Z;
  is_valid : bool
}.

(** [w.wave_type = t] *)
Definition set_wave_type (w : Wave) (t : wtype) : Wave :=
  mkWave (idx w) (start w) (end_ w) (amplitude w) (duration w)
         (angle w) (velocity w) (direction w) t.

(** [t.phase = ph] *)
Definition set_phase (t : StructuralTriple) (ph : Z) : StructuralTriple :=
  mkTriple (w1 t) (w2 t) (w3 t) (correction_ratio t) (quality_score t)
           ph (is_valid t).

(** [t.quality_score = s] and [t.is_valid = v] *)
Definition set_quality (t : StructuralTriple) (s : Q) (v : bool)
  : StructuralTriple :=
  mkTriple (w1 t) (w2 t) (w3 t) (correction_ratio t) s (phase t) v.

(** ** Modules 1 and 2: data and smoothing *)

Module DataProcessor.

Open Scope string_scope.

Record conf : Type := mkConf { method : string; window : Z; poly : Z }.

Definition default : conf := mkConf "savgol" 11%Z 3%Z.

(** The data frame: the [time] and [close] columns and, once smoothed,
    the [smooth] column. *)
Record DataFrame : Type := mkDF {
  df_time : list Q;
  df_close : list Q;
  df_smooth : option (list Q)
}.

(** [np.arange(n, dtype=float)] *)
Definition arange (n : nat) : list Q :=
  map (fun i => inject_Z (Z.of_nat i)) (seq 0 n).

(** [load_series]: the data-frame constructor refuses columns of
    different lengths. *)
Definition load_series (prices : list Q) (times : option (list Q))
  : result DataFrame :=
  let times := match times with
               | None => arange (length prices)
               | Some ts => ts
               end in
  if Nat.eqb (length times) (length prices)
  then Ok (mkDF times prices None)
  else Raise ValueError.

(** [savgol_filter(p, window_length, polyorder)] in its default mode
    [interp]: the polynomial order must be below the window length, and
    the window must not be longer than the data. *)
Definition savgol_filter (X : Externals) (p : list Q)
           (window_length polyorder : Z) : result (list Q) :=
  if (window_length <=? polyorder)%Z then Raise ValueError
  else if (Z.of_nat (length p) <? window_length)%Z then Raise ValueError
  else Ok (savgol_fit X window_length polyorder p).

(** The window length handed to the Savitzky-Golay filter. *)
Definition savgol_window (self : conf) : Z :=
  let w := Z.max (window self) 5 in
  let wl := if (w mod 2 =? 1)%Z then w else (w + 1)%Z in
  Z.max wl (poly self + 2).

(** [smooth]; assigning the new column refuses a column whose length
    differs from the frame's. *)
Definition smooth (X : Externals) (self : conf) (df : DataFrame)
  : result DataFrame :=
  let p := df_close df in
  let w := Z.max (window self) 5 in
  s <- (if String.eqb (method self) "ema" then
          Ok (ewm_mean X w p)
        else if String.eqb (method self) "gaussian" then
          let sigma := inject_Z w / 4 in
          Ok (gaussian_filter1d X sigma p)
        else
          let wl := if (w mod 2 =? 1)%Z then w else (w + 1)%Z in
          let wl := Z.max wl (poly self + 2) in
          savgol_filter X p wl (poly self)) ;;
  if Nat.eqb (length s) (length p)
  then Ok (mkDF (df_time df) (df_close df) (Some s))
  else Raise ValueError.

End DataProcessor.

(** ** Module 3: extrema detection *)

Module ExtremaDetector.

(** [np.diff(p, prepend=p[0])[i]]: the array is indexed only at
    positions inside it. *)
Definition delta (p : list Q) (i : nat) : Q :=
  match i with
  | O => nth 0 p 0 - nth 0 p 0
  | S j => nth i p 0 - nth j p 0
  end.

(** One iteration of the scan loop; the state is the list built so far
    and [last_idx]. *)
Definition scan_step (min_distance : Z) (p : list Q)
           (st : list Extremum * Z) (i : nat) : list Extremum * Z :=
  let '(extrema, last_idx) := st in
  let iz := Z.of_nat i in
  if (iz - last_idx <? min_distance)%Z then st
  else if Qgtb (delta p i) 0 && Qltb (delta p (S i)) 0 then
    (extrema ++ [mkExtremum iz (inject_Z iz) (nth i p 0) Kmax], iz)
  else if Qltb (delta p i) 0 && Qgtb (delta p (S i)) 0 then
    (extrema ++ [mkExtremum iz (inject_Z iz) (nth i p 0) Kmin], iz)
  else st.

(** [for i in range(1, len(p) - 1)] *)
Definition scan (min_distance : Z) (p : list Q) : list Extremum :=
  fst (fold_left (scan_step min_distance p)
                 (seq 1 (length p - 2))
                 ([], (- min_distance)%Z)).

(** One iteration of the alternation pass; [filtered] is never empty
    here, [last filtered e] is [filtered[-1]] and replacing the last
    entry is [filtered[-1] = e]. *)
Definition filter_step (filtered : list Extremum) (e : Extremum)
  : list Extremum :=
  let lst := last filtered e in
  if ekind_eqb (kind e) (kind lst) then
    if ekind_eqb (kind e) Kmax && Qgtb (price e) (price lst) then
      removelast filtered ++ [e]
    else if ekind_eqb (kind e) Kmin && Qltb (price e) (price lst) then
      removelast filtered ++ [e]
    else filtered
  else filtered ++ [e].

Definition _filter_alternating (extrema : list Extremum) (p : list Q)
  : list Extremum :=
  match extrema with
  | [] => extrema
  | e0 :: rest => fold_left filter_step rest [e0]
  end.

(** The column read by [detect]: [smooth] when present, else [close]. *)
Definition column (df : DataProcessor.DataFrame) : list Q :=
  match DataProcessor.df_smooth df with
  | Some s => s
  | None => DataProcessor.df_close df
  end.

(** [detect]: the [time] column is read but not used, and [p[0]] raises
    on an empty array. *)
Definition detect (min_distance : Z) (df : DataProcessor.DataFrame)
  : result (list Extremum) :=
  let p := column df in
  let times := DataProcessor.df_time df in
  match p with
  | [] => Raise IndexError
  | _ :: _ => Ok (_filter_alternating (scan min_distance p) p)
  end.

End ExtremaDetector.

(** ** Module 4: wave builder *)

Module WaveBuilder.

Definition wave_at (X : Externals) (extrema : list Extremum) (j : nat)
  : result Wave :=
  s <- get extrema j ;;
  e <- get extrema (S j) ;;
  let A := Qabs (price e - price s) in
  let T := py_or (Qabs (time e - time s)) eps in
  q <- pydiv A T ;;
  let theta := np_arctan X q in
  V <- pydiv A T ;;
  let direction := if Qgtb (price e) (price s) then Up else Down in
  Ok (mkWave (Z.of_nat j) s e A T theta V direction Unknown).

(** [for j in range(len(extrema) - 1)] *)
Definition build (X : Externals) (extrema : list Extremum)
  : result (list Wave) :=
  mapM (wave_at X extrema) (seq 0 (length extrema - 1)).

End WaveBuilder.

(** ** Module 5: impulse / correction classifier *)

Module WaveClassifier.

Record conf : Type := mkConf { lambda1 : Q; lambda2 : Q }.

Definition default : conf := mkConf (85 # 100) (70 # 100).

Definition classify_one (self : conf) (A_mean V_mean : Q) (w : Wave) : Wave :=
  if Qgtb (amplitude w) (lambda1 self * A_mean)
     && Qgtb (velocity w) (lambda2 self * V_mean)
  then set_wave_type w Impulse
  else set_wave_type w Correction.

Definition classify (self : conf) (waves : list Wave) : list Wave :=
  match waves with
  | [] => waves
  | _ :: _ =>
      let A_mean := np_mean (map amplitude waves) in
      let V_mean := np_mean (map velocity waves) in
      map (classify_one self A_mean V_mean) waves
  end.

End WaveClassifier.

(** ** Modules 6 and 7: structural triples and correction ratio *)

Module StructuralTripleDetector.

Record conf : Type := mkConf { alpha : Q; r_min : Q; r_max : Q }.

Definition default : conf := mkConf (618 # 1000) (3 # 10) (8 # 10).

Definition triple_at (self : conf) (waves : list Wave) (i : nat)
  : result StructuralTriple :=
  w1 <- get waves i ;;
  w2 <- get waves (i + 1) ;;
  w3 <- get waves (i + 2) ;;
  R <- pydiv (amplitude w2) (amplitude w1 + eps) ;;
  let valid :=
    wtype_eqb (wave_type w1) Impulse &&
    wtype_eqb (wave_type w2) Correction &&
    wtype_eqb (wave_type w3) Impulse &&
    Qgeb (amplitude w3) (alpha self * amplitude w1) &&
    (Qle_bool (r_min self) R && Qle_bool R (r_max self)) in
  let valid := if dir_eqb (direction w1) (direction w2) then false
               else valid in
  Ok (mkTriple w1 w2 w3 R 0 0 valid).

(** [for i in range(len(waves) - 2)] *)
Definition find_triples (self : conf) (waves : list Wave)
  : result (list StructuralTriple) :=
  mapM (triple_at self waves) (seq 0 (length waves - 2)).

End StructuralTripleDetector.

(** ** Module 8: phase model *)

Module PhaseModel.

Open Scope string_scope.
Open Scope Z_scope.

Definition desc0 : string := "No valid structure found".
Definition desc1 : string := "Phase 1 — First Impulse 🚀".
Definition desc2 : string := "Phase 2 — Correction 🔄".
Definition desc3 : string := "Phase 3 — Continuation Impulse 📈".
Definition desc3plus : string := "Phase 3+ — Post-structure zone 🔍".

(** The branch on [current_idx] relative to the triple [lst]. *)
Definition phase_of (lst : StructuralTriple) (current_idx : Z) : Z * string :=
  let w1_end := index (end_ (w1 lst)) in
  let w2_end := index (end_ (w2 lst)) in
  let w3_end := index (end_ (w3 lst)) in
  if current_idx <=? w1_end then (1, desc1)
  else if current_idx <=? w2_end then (2, desc2)
  else if current_idx <=? w3_end then (3, desc3)
  else (3, desc3plus).

(** [assign] returns the pair [(phase, desc)] and writes [phase] on the
    objects collected in [valid]; these are the entries of [triples]
    with [is_valid] set, so the store after the call is [triples] with
    the phase of every such entry replaced. *)
Definition assign (triples : list StructuralTriple) (current_idx : Z)
  : (Z * string) * list StructuralTriple :=
  let valid := filter is_valid triples in
  match valid with
  | [] => ((0, desc0), triples)
  | t0 :: _ =>
      let lst := last valid t0 in
      let '(phase, desc) := phase_of lst current_idx in
      ((phase, desc),
       map (fun t => if is_valid t then set_phase t phase else t) triples)
  end.

End PhaseModel.

(** ** Module 9: fractality *)

Module FractalityAnalyzer.

(** The returned dict; a key that the dict does not hold is [None]. *)
Record FractalResult : Type := mkFractal {
  coefficient : option Q;
  cv : option Q;
  stable : bool;
  n_pairs : option nat
}.

Fixpoint insert_sorted (x : Q) (l : list Q) : list Q :=
  match l with
  | [] => [x]
  | y :: l' => if Qle_bool x y then x :: l else y :: insert_sorted x l'
  end.

Definition sort (l : list Q) : list Q := fold_right insert_sorted [] l.

(** [np.median]: the middle of the sorted values, the mean of the two
    middle ones when their number is even. *)
Definition np_median (l : list Q) : Q :=
  let s := sort l in
  let n := length s in
  if Nat.even n
  then (nth (n / 2 - 1) s 0 + nth (n / 2) s 0) / 2
  else nth (n / 2) s 0.

(** [np.std]: the square root of the mean squared deviation. *)
Definition np_std (X : Externals) (l : list Q) : Q :=
  let m := np_mean l in
  np_sqrt X (np_mean (map (fun x => Qabs (x - m) * Qabs (x - m)) l)).

(** The two nested loops collecting the ratios; the guard keeps the
    divisor above [1e-9]. *)
Definition ratios (waves_tf1 waves_tf2 : list Wave) : list Q :=
  flat_map (fun w1 =>
    flat_map (fun w2 =>
      if Qgtb (amplitude w2) eps then [amplitude w1 / amplitude w2]
      else []) waves_tf2) waves_tf1.

(** [{"coefficient": None, "stable": False}] *)
Definition none_result : FractalResult := mkFractal None None false None.

(** [self_similarity]; the coefficient of variation is a quotient of
    numpy floats, which does not raise. *)
Definition self_similarity (X : Externals) (waves_tf1 waves_tf2 : list Wave)
  : FractalResult :=
  match waves_tf1, waves_tf2 with
  | [], _ | _, [] => none_result
  | _ :: _, _ :: _ =>
      let rs := ratios waves_tf1 waves_tf2 in
      match rs with
      | [] => none_result
      | _ :: _ =>
          let coeff := np_median rs in
          let c := np_std X rs / (np_mean rs + eps) in
          mkFractal (Some coeff) (Some c) (Qltb c (3 # 10))
                    (Some (length rs))
      end
  end.

End FractalityAnalyzer.

(** ** Module 10: quality metric *)

Module QualityMetric.

Record conf : Type := mkConf {
  qw1 : Q;
  qw2 : Q;
  qw3 : Q;
  threshold : Q
}.

Definition default : conf := mkConf (4 # 10) (3 # 10) (3 # 10) (55 # 100).

Definition _f_ratio (triple : StructuralTriple) : Q :=
  let R := correction_ratio triple in
  if Qle_bool (3 # 10) R && Qle_bool R (8 # 10) then
    1 - Qabs (R - (618 # 1000)) / (318 # 1000)
  else pymax 0 (1 - Qabs (R - (55 # 100)) / (55 # 100)).

Definition _f_symmetry (triple : StructuralTriple) : result Q :=
  let t1 := duration (w1 triple) in
  let t3 := duration (w3 triple) in
  let denom := pymax t1 t3 + eps in
  q <- pydiv (Qabs (t1 - t3)) denom ;;
  Ok (1 - q).

Definition _f_slope (triple : StructuralTriple) : Q :=
  let d1 := direction (w1 triple) in
  let d3 := direction (w3 triple) in
  let d2 := direction (w2 triple) in
  let same_impulse := if dir_eqb d1 d3 then 1 else 0 in
  let diff_correct := if negb (dir_eqb d2 d1) then 1 else 0 in
  (same_impulse + diff_correct) / 2.

(** The body of the loop of [score]; [t.quality_score] and [t.is_valid]
    are written on the triple. *)
Definition score_one (self : conf) (t : StructuralTriple)
  : result StructuralTriple :=
  let fr := _f_ratio t in
  fs <- _f_symmetry t ;;
  let fsl := _f_slope t in
  let s := qw1 self * fr + qw2 self * fs + qw3 self * fsl in
  Ok (set_quality t s (if Qltb s (threshold self) then false
                       else is_valid t)).

Definition score (self : conf) (triples : list StructuralTriple)
  : result (list StructuralTriple) :=
  mapM (score_one self) triples.

End QualityMetric.

(** ** The ratio-fit in binary64

    The correction ratio of [find_triples] and [_f_ratio], written over
    IEEE binary64 floats as Python evaluates them; the golden-ratio
    scenario is stated in both arithmetics, so that its verdict does not
    depend on the exact arithmetic of the model. *)

Module Binary64.

Import PrimFloat.
#[local] Set Warnings "-inexact-float".

Definition correction_ratio (a1 a2 : float) : float :=
  div a2 (add a1 1e-9%float).

Definition f_ratio (R : float) : float :=
  if leb 0.3%float R && leb R 0.8%float then
    sub 1%float (div (abs (sub R 0.618%float)) 0.318%float)
  else
    let x := sub 1%float (div (abs (sub R 0.55%float)) 0.55%float) in
    if ltb 0%float x then x else 0%float.

(** The ratio stored for amplitudes 100 and 61.8, the ratio 0.618, and
    the value 1.0. *)
Definition golden_ratio : float := correction_ratio 100%float 61.8%float.
Definition golden_point : float := 0.618%float.
Definition one : float := 1%float.

(** The bounds [0.618 - 1e-10] and [1 - 1e-10]. *)
Definition below_golden_point : float := 0.6179999999%float.
Definition below_one : float := 0.9999999999%float.

End Binary64.

(** ** Python dicts

    A dict keeps its keys in insertion order.  [d[k] = v] replaces, in
    place, the value of a key already present and appends a new key at
    the end; [d[k]] raises KeyError when the key is missing. *)

Module Dict.

Definition dict (V : Type) : Type := list (string * V).

Fixpoint setitem {V : Type} (d : dict V) (k : string) (v : V) : dict V :=
  match d with
  | [] => [(k, v)]
  | (k', v') :: d' =>
      if String.eqb k' k then (k', v) :: d'
      else (k', v') :: setitem d' k v
  end.

Fixpoint getitem {V : Type} (d : dict V) (k : string) : option V :=
  match d with
  | [] => None
  | (k', v') :: d' => if String.eqb k' k then Some v' else getitem d' k
  end.

Definition keys {V : Type} (d : dict V) : list string := map fst d.

End Dict.

(** What the code around the pipeline can raise: an exception of the
    pipeline, or the KeyError of a dict lookup. *)
Inductive error : Type :=
| Exn (e : exn)
| KeyError.

(** ** The orchestrator *)

Module PatternSystem.

Record conf : Type := mkConf {
  processor : DataProcessor.conf;
  min_ext_dist : Z;
  classifier : WaveClassifier.conf;
  tripler : StructuralTripleDetector.conf;
  metric : QualityMetric.conf
}.

(** The constructor with every argument at its default. *)
Definition default : conf :=
  mkConf DataProcessor.default 3%Z WaveClassifier.default
         StructuralTripleDetector.default QualityMetric.default.

(** The analytic entries of the dict returned by [run]; the textual
    report and the figure are renderings of them. *)
Record Output : Type := mkOutput {
  dataframe : DataProcessor.DataFrame;
  extrema : list Extremum;
  waves : list Wave;
  triples : list StructuralTriple;
  valid_triples : list StructuralTriple;
  current_phase : Z;
  phase_desc : string
}.

Definition run (X : Externals) (self : conf)
           (prices : list Q) (times : option (list Q)) : result Output :=
  df <- DataProcessor.load_series prices times ;;
  df <- DataProcessor.smooth X (processor self) df ;;
  extrema <- ExtremaDetector.detect (min_ext_dist self) df ;;
  waves <- WaveBuilder.build X extrema ;;
  let waves := WaveClassifier.classify (classifier self) waves in
  triples <- StructuralTripleDetector.find_triples (tripler self) waves ;;
  triples <- QualityMetric.score (metric self) triples ;;
  let '((current_phase, phase_desc), triples) :=
    PhaseModel.assign triples
      (Z.of_nat (length (DataProcessor.df_close df)) - 1)%Z in
  let valid_triples := filter is_valid triples in
  Ok (mkOutput df extrema waves triples valid_triples
               current_phase phase_desc).

(** The dict returned by [run_multiframe]. *)
Record MultiOutput : Type := mkMulti {
  timeframes : Dict.dict Output;
  fractality : Dict.dict FractalityAnalyzer.FractalResult
}.

Definition arrow : string := "→".

(** The first loop of [run_multiframe]: one run per item of [data],
    stored under the item's key. *)
Fixpoint run_each (X : Externals) (self : conf)
         (items : list (string * list Q)) (results : Dict.dict Output)
  : result (Dict.dict Output) :=
  match items with
  | [] => Ok results
  | (tf, prices) :: rest =>
      out <- run X self prices None ;;
      run_each X self rest (Dict.setitem results tf out)
  end.

(** The second loop: the similarity of the waves of consecutive
    timeframes, stored under the label of the pair. *)
Fixpoint frac_loop (X : Externals) (results : Dict.dict Output)
         (tfs : list string) (range : list nat)
         (frac : Dict.dict FractalityAnalyzer.FractalResult)
  : error + Dict.dict FractalityAnalyzer.FractalResult :=
  match range with
  | [] => inr frac
  | i :: rest =>
      match get tfs i with
      | Raise e => inl (Exn e)
      | Ok tf1 =>
      match get tfs (i + 1) with
      | Raise e => inl (Exn e)
      | Ok tf2 =>
      match Dict.getitem results tf1 with
      | None => inl KeyError
      | Some r1 =>
      match Dict.getitem results tf2 with
      | None => inl KeyError
      | Some r2 =>
          frac_loop X results tfs rest
            (Dict.setitem frac (tf1 ++ arrow ++ tf2)
               (FractalityAnalyzer.self_similarity X (waves r1) (waves r2)))
      end end end end
  end.

Definition run_multiframe (X : Externals) (self : conf)
           (data : Dict.dict (list Q)) : error + MultiOutput :=
  match run_each X self data [] with
  | Raise e => inl (Exn e)
  | Ok results =>
      let tfs := Dict.keys results in
      match frac_loop X results tfs (seq 0 (length tfs - 1)) [] with
      | inl e => inl e
      | inr frac => inr (mkMulti results frac)
      end
  end.

End PatternSystem.

(** ** The dashboard (app.py)

    The analytic part of the dashboard's callback: the per-timeframe
    parameters, the guard of the loader, the two runs and their
    similarity, and the naming of the zoom box. *)

Module App.

Record tf_params : Type := mkParams {
  smooth_window : Z;
  min_ext_dist : Z;
  lambda1 : Q;
  lambda2 : Q;
  quality_thresh : Q
}.

Definition TF_PARAMS : Dict.dict tf_params :=
  [("1d"%string,  mkParams 13 5 (80 # 100) (65 # 100) (50 # 100));
   ("4h"%string,  mkParams 12 4 (78 # 100) (62 # 100) (47 # 100));
   ("1h"%string,  mkParams 11 4 (75 # 100) (60 # 100) (45 # 100));
   ("15m"%string, mkParams 9 3 (70 # 100) (55 # 100) (42 # 100));
   ("5m"%string,  mkParams 7 3 (65 # 100) (50 # 100) (40 # 100));
   ("1m"%string,  mkParams 5 2 (60 # 100) (45 # 100) (38 # 100))].

Definition IMP_COLOR : string := "#06D6A0".
Definition CORR_COLOR : string := "#FFB703".
Definition ZOOM_COLOR : string := "#FF4444".

(** [dropna] on a column; [None] is a missing value. *)
Definition dropna (close : list (option Q)) : list Q :=
  flat_map (fun v => match v with Some q => [q] | None => [] end) close.

(** [_load], from the downloaded frame on; [close] is its Close column. *)
Definition _load (close : list (option Q)) : result (list Q) :=
  match close with
  | [] => Raise ValueError
  | _ :: _ =>
      let prices := dropna close in
      if (length prices <? 20)%nat then Raise ValueError else Ok prices
  end.

(** [TF_PARAMS.get(tf, TF_PARAMS[fallback])] *)
Definition params_for (tf fallback : string) : error + tf_params :=
  match Dict.getitem TF_PARAMS fallback with
  | None => inl KeyError
  | Some d =>
      inr (match Dict.getitem TF_PARAMS tf with
           | Some p => p
           | None => d
           end)
  end.

(** [PatternSystem(smooth_window=.., smooth_poly=3, min_ext_dist=..,
    lambda1=.., lambda2=.., alpha=.., r_min=.., r_max=..,
    quality_thresh=..)]; the method and the quality weights keep their
    defaults. *)
Definition system (p : tf_params) (alpha r_min r_max : Q)
  : PatternSystem.conf :=
  PatternSystem.mkConf
    (DataProcessor.mkConf "savgol" (smooth_window p) 3%Z)
    (min_ext_dist p)
    (WaveClassifier.mkConf (lambda1 p) (lambda2 p))
    (StructuralTripleDetector.mkConf alpha r_min r_max)
    (QualityMetric.mkConf (4 # 10) (3 # 10) (3 # 10) (quality_thresh p)).

(** What [run_analysis] has computed when it turns to the chart: either
    a loader failed, which the callback reports in the page, or both
    runs and their similarity are there. *)
Inductive Analysis : Type :=
| LoadFailed
| Analysed (pb ps : list Q) (rb rs : PatternSystem.Output)
           (frac : FractalityAnalyzer.FractalResult).

Definition run_analysis (X : Externals) (tf_big tf_small : string)
           (close_big close_small : list (option Q)) : error + Analysis :=
  match (pb <- _load close_big ;; ps <- _load close_small ;; Ok (pb, ps)) with
  | Raise _ => inr LoadFailed
  | Ok (pb, ps) =>
      match params_for tf_big "1d" with
      | inl e => inl e
      | inr p_big =>
      match params_for tf_small "1h" with
      | inl e => inl e
      | inr p_small =>
          let sb := system p_big (618 # 1000) (25 # 100) (85 # 100) in
          let ss := system p_small (50 # 100) (20 # 100) (90 # 100) in
          match PatternSystem.run X sb pb None with
          | Raise e => inl (Exn e)
          | Ok rb =>
          match PatternSystem.run X ss ps None with
          | Raise e => inl (Exn e)
          | Ok rs =>
              inr (Analysed pb ps rb rs
                     (FractalityAnalyzer.self_similarity X
                        (PatternSystem.waves rs) (PatternSystem.waves rb)))
          end end
      end end
  end.

(** The name, colour, wave type, method and entry signal that
    [_box_by_pattern] gives the zoom box. *)
Record BoxName : Type := mkBoxName {
  wave_name : string;
  box_color : string;
  wave_type_ : wtype;
  method : string;
  entry_signal : bool
}.

(** [max(l, key=key)] on a non-empty list [x :: l]: the first of the
    entries with the largest key. *)
Fixpoint max_by {A : Type} (key : A -> Z) (x : A) (l : list A) : A :=
  match l with
  | [] => x
  | y :: l' => max_by key (if (key x <? key y)%Z then y else x) l'
  end.

(** The loop over the three waves of the last structure; [trunc35 d] is
    [int(d * 0.35)] in floating point. *)
Fixpoint structure_loop (trunc35 : Z -> Z) (cur_bar : Z)
         (l : list (string * Wave * string)) (st : BoxName) : BoxName :=
  match l with
  | [] => st
  | (wn, wv, wc) :: rest =>
      let ws := index (start wv) in
      let we := index (end_ wv) in
      let ext := Z.max (trunc35 (we - ws)%Z) 3 in
      if ((ws - ext <=? cur_bar) && (cur_bar <=? we + ext))%Z then
        mkBoxName wn wc (wave_type wv)
                  ("in " ++ wn ++ " of last structure")
                  (String.eqb wn "W2")
      else structure_loop trunc35 cur_bar rest st
  end.

(** The loop over the waves, latest first. *)
Fixpoint wave_loop (cur_bar : Z) (l : list Wave) (st : BoxName) : BoxName :=
  match l with
  | [] => st
  | w :: rest =>
      if ((index (start w) <=? cur_bar) && (cur_bar <=? index (end_ w)))%Z
      then
        let wt := wave_type w in
        mkBoxName (if wtype_eqb wt Impulse then "Impulse" else "Correction")
                  (if wtype_eqb wt Impulse then IMP_COLOR else CORR_COLOR)
                  wt "current wave" (wtype_eqb wt Correction)
      else wave_loop cur_bar rest st
  end.

(** The naming part of [_box_by_pattern] for a big-timeframe series of
    [n_big] bars with the result [rb]. *)
Definition box_name (trunc35 : Z -> Z) (n_big : nat)
           (rb : PatternSystem.Output) : BoxName :=
  let cur_bar := (Z.of_nat n_big - 1)%Z in
  let valid_big := filter is_valid (PatternSystem.triples rb) in
  let all_waves := PatternSystem.waves rb in
  let st := mkBoxName "time zone" ZOOM_COLOR Unknown "by time" false in
  let st :=
    match valid_big with
    | [] => st
    | t :: ts =>
        let last := max_by (fun t => index (end_ (w3 t))) t ts in
        structure_loop trunc35 cur_bar
          [("W1"%string, w1 last, IMP_COLOR);
           ("W2"%string, w2 last, CORR_COLOR);
           ("W3"%string, w3 last, IMP_COLOR)] st
    end in
  let st :=
    if String.eqb (wave_name st) "time zone" then
      match all_waves with
      | [] => st
      | _ :: _ => wave_loop cur_bar (rev all_waves) st
      end
    else st in
  let st :=
    if String.eqb (wave_name st) "time zone" then
      match all_waves with
      | [] => st
      | w0 :: _ =>
          let w := List.last all_waves w0 in
          let wt := wave_type w in
          mkBoxName "post-structure"
                    (if wtype_eqb wt Impulse then IMP_COLOR else CORR_COLOR)
                    wt "after structure" (entry_signal st)
      end
    else st in
  st.

End App.

(** * Specification

    The predicates in which the properties are stated, and the concrete
    data on which they are exercised. *)

(** No two consecutive entries have the same kind. *)
Fixpoint alternating (l : list Extremum) : Prop :=
  match l with
  | a :: ((b :: _) as t) => kind a <> kind b /\ alternating t
  | _ => True
  end.

(** Every entry sits at a smaller bar index than all entries after it. *)
Fixpoint increasing (l : list Extremum) : Prop :=
  match l with
  | [] => True
  | a :: t => Forall (fun b => (index a < index b)%Z) t /\ increasing t
  end.

(** The [time] field holds the positional index. *)
Definition time_is_index (e : Extremum) : Prop :=
  time e = inject_Z (index e).

(** The state of the scan before iteration [i]: the entries found so far
    are in index order, below [i], and carry their index as time. *)
Definition scan_inv (st : list Extremum * Z) (i : nat) : Prop :=
  increasing (fst st) /\
  Forall (fun e => (index e < Z.of_nat i)%Z /\ time_is_index e) (fst st).

(** The wave built from the extrema [s] and [e] at position [j]. *)
Definition wave_of (X : Externals) (j : nat) (s e : Extremum) : Wave :=
  let A := Qabs (price e - price s) in
  let T := py_or (Qabs (time e - time s)) eps in
  mkWave (Z.of_nat j) s e A T (np_arctan X (A / T)) (A / T)
         (if Qgtb (price e) (price s) then Up else Down) Unknown.

(** The numeric guards: a built wave has a non-negative amplitude and a
    positive duration, which keeps the later divisions defined. *)
Definition wave_guarded (w : Wave) : Prop :=
  0 <= amplitude w /\ 0 < duration w.

(** The bar index at which the third wave of a triple ends. *)
Definition w3_end (t : StructuralTriple) : Z := index (end_ (w3 t)).

(** Every triple ends its third wave before all triples after it: the
    order in which [find_triples] emits the windows. *)
Fixpoint recent_last (l : list StructuralTriple) : Prop :=
  match l with
  | [] => True
  | a :: t => Forall (fun b => (w3_end a < w3_end b)%Z) t /\ recent_last t
  end.

(** The phase number the specification gives for bar [c] relative to the
    triple [lst]. *)
Definition phase_number (lst : StructuralTriple) (c : Z) : Z :=
  if (c <=? index (end_ (w1 lst)))%Z then 1%Z
  else if (c <=? index (end_ (w2 lst)))%Z then 2%Z
  else 3%Z.

(** The smoothing method falls through to the Savitzky-Golay branch. *)
Definition uses_savgol (self : DataProcessor.conf) : bool :=
  negb (String.eqb (DataProcessor.method self) "ema") &&
  negb (String.eqb (DataProcessor.method self) "gaussian").

(** The external smoothing kernels return one value per input value. *)
Definition length_preserving (X : Externals) : Prop :=
  (forall w l, length (ewm_mean X w l) = length l) /\
  (forall s l, length (gaussian_filter1d X s l) = length l) /\
  (forall wl po l, length (savgol_fit X wl po l) = length l).

(** The optional [times] argument fits the series. *)
Definition times_fit (prices : list Q) (times : option (list Q)) : Prop :=
  match times with
  | None => True
  | Some ts => length ts = length prices
  end.

(** ** Concrete data *)

(** Stand-ins for the external routines, used to run the model on
    concrete data: identity smoothing kernels, and the identity for
    [np.arctan] and the square root. *)
Definition X_id : Externals :=
  mkExternals (fun x => x) (fun x => x)
              (fun _ l => l) (fun _ l => l) (fun _ _ l => l).

(** The default configuration with the exponential smoother. *)
Definition ema_conf : PatternSystem.conf :=
  PatternSystem.mkConf (DataProcessor.mkConf "ema" 11 3) 3
    WaveClassifier.default StructuralTripleDetector.default
    QualityMetric.default.

(** A series with four turning points, with timestamps 1000, 1060, ...
    that differ from the positions, and the frame [load_series] builds
    from them. *)
Definition zigzag : list Q :=
  map inject_Z [0; 1; 2; 5; 4; 3; 1; 2; 3; 6; 5; 4; 2; 3]%Z.

Definition stamps : list Q :=
  map (fun i => inject_Z (1000 + 60 * Z.of_nat i)) (seq 0 (length zigzag)).

Definition zigzag_frame : DataProcessor.DataFrame :=
  DataProcessor.mkDF stamps zigzag None.

(** A rise followed by a fall: one maximum and nothing else. *)
Definition one_peak : list Q := map inject_Z [0; 1; 0]%Z.

Definition one_peak_frame : DataProcessor.DataFrame :=
  DataProcessor.mkDF (DataProcessor.arange 3) one_peak None.

(** A smoothed series in which the turning points at bars 8 and 9 fall
    inside the minimum distance from the minimum at bar 7 and are
    skipped, so that the maximum found at bar 10 lies below that
    minimum. *)
Definition skewed : list Q :=
  map inject_Z [1; 0; 30; 60; 100; 80; 60; 40; 41; -70; -60; -65]%Z.

Definition skewed_frame : DataProcessor.DataFrame :=
  DataProcessor.mkDF (DataProcessor.arange 12) skewed (Some skewed).

(** Three waves of amplitudes 100, 61.8, 100, up / down / up, classified
    impulse / correction / impulse; the correction ratio stored for
    them, and the triple built from them. *)
Definition ext0 : Extremum := mkExtremum 0 0 0 Kmin.
Definition gw1 : Wave := mkWave 0 ext0 ext0 100 3 0 0 Up Impulse.
Definition gw2 : Wave := mkWave 1 ext0 ext0 (618 # 10) 3 0 0 Down Correction.
Definition gw3 : Wave := mkWave 2 ext0 ext0 100 3 0 0 Up Impulse.
Definition golden_waves : list Wave := [gw1; gw2; gw3].

Definition golden_ratio : Q := (618 # 10) / (100 + eps).

Definition golden_triple : StructuralTriple :=
  mkTriple gw1 gw2 gw3 golden_ratio 0 0 true.

(** A valid triple whose three waves end at bars [a], [b] and [c], and
    two such triples listed with the more recent one first. *)
Definition wave_to (i : Z) : Wave :=
  mkWave 0 (mkExtremum 0 0 0 Kmin) (mkExtremum i (inject_Z i) 1 Kmax)
         1 1 1 1 Up Impulse.

Definition triple_to (a b c : Z) : StructuralTriple :=
  mkTriple (wave_to a) (wave_to b) (wave_to c) (1 # 2) 1 0 true.

Definition out_of_order : list StructuralTriple :=
  [triple_to 14 17 20; triple_to 4 7 10].

(** A five-point and an eleven-point series. *)
Definition five : list Q := map inject_Z [1; 2; 3; 2; 1]%Z.

Definition eleven : list Q :=
  map inject_Z [1; 2; 3; 2; 1; 2; 3; 2; 1; 2; 3]%Z.

(** Wave lists of amplitudes 10, 10, 10 and 5, 5, 5. *)
Definition wave_amp (a : Q) : Wave := mkWave 0 ext0 ext0 a 1 0 a Up Unknown.
Definition tens : list Wave := [wave_amp 10; wave_amp 10; wave_amp 10].
Definition fives : list Wave := [wave_amp 5; wave_amp 5; wave_amp 5].

(** ** Further predicates *)

(** The extremum [e] sits at an inner bar of the column [p], carries the
    price of that bar, and the bar is strictly above (for a maximum) or
    strictly below (for a minimum) both of its neighbours. *)
Definition turning_point (p : list Q) (e : Extremum) : Prop :=
  exists i : nat,
    index e = Z.of_nat i /\ (1 <= i)%nat /\ (S i < length p)%nat /\
    price e = nth i p 0 /\
    match kind e with
    | Kmax => nth (i - 1) p 0 < nth i p 0 /\ nth (S i) p 0 < nth i p 0
    | Kmin => nth i p 0 < nth (i - 1) p 0 /\ nth i p 0 < nth (S i) p 0
    end.

(** Neighbouring entries are at least [md] bars apart. *)
Fixpoint spaced (md : Z) (l : list Extremum) : Prop :=
  match l with
  | a :: ((b :: _) as t) => (md <= index b - index a)%Z /\ spaced md t
  | _ => True
  end.

(** The state of the scan: the list is spaced and [last_idx] is the
    index of its last entry. *)
Definition scan_spaced (md : Z) (st : list Extremum * Z) : Prop :=
  spaced md (fst st) /\
  forall l x, fst st = l ++ [x] -> snd st = index x.

(** ** Further concrete data *)

(** Two extrema at the same price and, against what [detect] produces,
    at the same time. *)
Definition flat_pair : list Extremum :=
  [mkExtremum 2 5 7 Kmax; mkExtremum 4 5 7 Kmin].

(** Four waves, impulse / correction / impulse / correction, of
    amplitudes 100, 61.8, 100, 61.8. *)
Definition gw4 : Wave := mkWave 3 ext0 ext0 (618 # 10) 3 0 0 Down Correction.
Definition four_waves : list Wave := [gw1; gw2; gw3; gw4].

(** The labels under which [run_multiframe] stores the similarity of
    consecutive timeframes. *)
Fixpoint labels (tfs : list string) : list string :=
  match tfs with
  | a :: ((b :: _) as t) => (a ++ PatternSystem.arrow ++ b)%string :: labels t
  | _ => []
  end.

(** The similarity entries of consecutive results. *)
Fixpoint consecutive (X : Externals)
         (results : Dict.dict PatternSystem.Output)
  : Dict.dict FractalityAnalyzer.FractalResult :=
  match results with
  | (tf1, r1) :: (((tf2, r2) :: _) as rest) =>
      ((tf1 ++ PatternSystem.arrow ++ tf2)%string,
       FractalityAnalyzer.self_similarity X
         (PatternSystem.waves r1) (PatternSystem.waves r2))
      :: consecutive X rest
  | _ => []
  end.

(** One entry per item of [data], under the item's key, holding the
    result of [run] on the item's series. *)
Definition runs_of (X : Externals) (self : PatternSystem.conf)
           (data : Dict.dict (list Q))
           (results : Dict.dict PatternSystem.Output) : Prop :=
  Forall2 (fun item entry =>
             fst entry = fst item /\
             PatternSystem.run X self (snd item) None = Ok (snd entry))
          data results.

(** Two timeframes of one instrument. *)
Definition two_frames : Dict.dict (list Q) :=
  [("1h"%string, skewed); ("15m"%string, zigzag)].

(** * Properties *)

(** ** The error monad *)

Lemma bind_ok {A B : Type} (m : result A) (k : A -> result B) (b : B) :
  bind m k = Ok b -> exists a, m = Ok a /\ k a = Ok b.
Proof.
  destruct m as [a|e]; simpl; intros H.
  - exists a; auto.
  - discriminate.
Qed.

Lemma mapM_Forall2 {A B : Type} (f : A -> result B) (l : list A) :
  forall bs, mapM f l = Ok bs -> Forall2 (fun a b => f a = Ok b) l bs.
Proof.
  induction l as [|a l IH]; simpl; intros bs H.
  - inversion H; constructor.
  - apply bind_ok in H. destruct H as [b [Hb H]].
    apply bind_ok in H. destruct H as [bs' [Hbs H]].
    inversion H; subst. constructor; auto.
Qed.

Lemma mapM_length {A B : Type} (f : A -> result B) (l : list A) (bs : list B) :
  mapM f l = Ok bs -> length bs = length l.
Proof.
  intros H. apply mapM_Forall2 in H.
  symmetry. eapply Forall2_length; eauto.
Qed.

Lemma mapM_total {A B : Type} (f : A -> result B) (l : list A) :
  Forall (fun a => exists b, f a = Ok b) l -> exists bs, mapM f l = Ok bs.
Proof.
  induction 1 as [|a l [b Hb] _ [bs Hbs]]; simpl.
  - eexists; reflexivity.
  - rewrite Hb; simpl. rewrite Hbs; simpl. eexists; reflexivity.
Qed.

Lemma mapM_In {A B : Type} (f : A -> result B) (l : list A) (bs : list B) :
  mapM f l = Ok bs -> forall b, In b bs -> exists a, In a l /\ f a = Ok b.
Proof.
  intros H. apply mapM_Forall2 in H.
  induction H as [|a b l bs Hab _ IH]; intros b0 Hin.
  - destruct Hin.
  - destruct Hin as [-> | Hin].
    + exists a; split; [left; reflexivity | assumption].
    + destruct (IH _ Hin) as [a0 [Ha0 Hf]]. exists a0; split; [right|]; auto.
Qed.

Lemma mapM_raise {A B : Type} (f : A -> result B) (l : list A) (a : A) (e : exn) :
  In a l -> f a = Raise e -> exists e', mapM f l = Raise e'.
Proof.
  induction l as [|x l IH]; simpl; intros Hin Hf.
  - destruct Hin.
  - destruct (f x) as [b|e0] eqn:Hx; simpl.
    + destruct Hin as [-> | Hin]; [congruence|].
      destruct (IH Hin Hf) as [e' ->]. simpl. eauto.
    + eauto.
Qed.

Lemma get_ok {A : Type} (l : list A) (i : nat) :
  (i < length l)%nat -> exists a, get l i = Ok a /\ nth_error l i = Some a.
Proof.
  intros H. unfold get.
  destruct (nth_error l i) as [a|] eqn:E.
  - eauto.
  - apply nth_error_None in E. lia.
Qed.

Lemma get_inv {A : Type} (l : list A) (i : nat) (a : A) :
  get l i = Ok a -> nth_error l i = Some a.
Proof.
  unfold get. destruct (nth_error l i); congruence.
Qed.

(** ** Float comparisons *)

Lemma Qltb_lt (x y : Q) : Qltb x y = true <-> x < y.
Proof.
  unfold Qltb. rewrite negb_true_iff.
  split; intros H.
  - apply Qnot_le_lt. intros Hle. apply Qle_bool_iff in Hle. congruence.
  - destruct (Qle_bool y x) eqn:E; [|reflexivity].
    apply Qle_bool_iff in E. exfalso. apply (Qlt_not_le _ _ H E).
Qed.

Lemma Qltb_ge (x y : Q) : Qltb x y = false <-> y <= x.
Proof.
  unfold Qltb. rewrite negb_false_iff. apply Qle_bool_iff.
Qed.

Lemma Qgeb_ge (x y : Q) : Qgeb x y = true <-> y <= x.
Proof. unfold Qgeb. apply Qle_bool_iff. Qed.

Lemma Qeq_bool_false (x y : Q) : ~ x == y -> Qeq_bool x y = false.
Proof.
  intros H. destruct (Qeq_bool x y) eqn:E; [|reflexivity].
  apply Qeq_bool_iff in E. contradiction.
Qed.

Lemma py_or_nonzero (x : Q) : Qeq_bool (py_or x eps) 0 = false.
Proof.
  unfold py_or. destruct (Qeq_bool x 0) eqn:E; [reflexivity | exact E].
Qed.

Lemma pydiv_ok (x y : Q) : Qeq_bool y 0 = false -> pydiv x y = Ok (x / y).
Proof. unfold pydiv. intros ->. reflexivity. Qed.

Lemma ekind_eqb_eq (a b : ekind) : ekind_eqb a b = true <-> a = b.
Proof. destruct a, b; simpl; split; congruence. Qed.

Lemma ekind_eqb_neq (a b : ekind) : ekind_eqb a b = false <-> a <> b.
Proof. destruct a, b; simpl; split; congruence. Qed.

Lemma dir_eqb_eq (a b : dir) : dir_eqb a b = true <-> a = b.
Proof. destruct a, b; simpl; split; congruence. Qed.

Lemma dir_eqb_neq (a b : dir) : dir_eqb a b = false <-> a <> b.
Proof. destruct a, b; simpl; split; congruence. Qed.

(** ** Extrema: the alternation pass *)

Section Alternation.
Import ExtremaDetector.

Lemma alternating_snoc (l : list Extremum) (x e : Extremum) :
  alternating (l ++ [x]) -> kind x <> kind e ->
  alternating ((l ++ [x]) ++ [e]).
Proof.
  induction l as [|a l IH]; simpl; intros Halt Hk.
  - split; [assumption | exact I].
  - destruct l as [|b l']; simpl in *.
    + destruct Halt as [Hax _]. repeat split; assumption.
    + destruct Halt as [Hab Halt]. split; [assumption|].
      apply IH; assumption.
Qed.

Lemma alternating_set_last (l : list Extremum) (x e : Extremum) :
  alternating (l ++ [x]) -> kind e = kind x -> alternating (l ++ [e]).
Proof.
  induction l as [|a l IH]; simpl; intros Halt Hk.
  - exact I.
  - destruct l as [|b l']; simpl in *.
    + destruct Halt as [Hax _]. rewrite Hk. split; [assumption | exact I].
    + destruct Halt as [Hab Halt]. split; [assumption|].
      apply IH; assumption.
Qed.

(** What one iteration of the pass does to [filtered = l ++ [x]]. *)
Lemma filter_step_cases (l : list Extremum) (x e : Extremum) :
  (kind e = kind x /\
     (filter_step (l ++ [x]) e = l ++ [e] \/
      filter_step (l ++ [x]) e = l ++ [x])) \/
  (kind e <> kind x /\ filter_step (l ++ [x]) e = (l ++ [x]) ++ [e]).
Proof.
  unfold filter_step. rewrite last_last, removelast_last.
  destruct (ekind_eqb (kind e) (kind x)) eqn:Hk.
  - left. apply ekind_eqb_eq in Hk. split; [assumption|].
    destruct (ekind_eqb (kind e) Kmax && Qgtb (price e) (price x));
      [left; reflexivity|].
    destruct (ekind_eqb (kind e) Kmin && Qltb (price e) (price x));
      [left | right]; reflexivity.
  - right. apply ekind_eqb_neq in Hk. split; [assumption | reflexivity].
Qed.

Lemma filter_step_alternating (filtered : list Extremum) (e : Extremum) :
  filtered <> [] -> alternating filtered ->
  filter_step filtered e <> [] /\ alternating (filter_step filtered e).
Proof.
  intros Hne Halt.
  destruct (exists_last Hne) as [l [x ->]].
  destruct (filter_step_cases l x e) as [[Hk [-> | ->]] | [Hk ->]].
  - split; [intros H; destruct l; discriminate|].
    eapply alternating_set_last; eauto.
  - split; assumption.
  - split; [intros H; destruct l; discriminate|].
    apply alternating_snoc; auto.
Qed.

Lemma filter_fold_alternating (rest filtered : list Extremum) :
  filtered <> [] -> alternating filtered ->
  alternating (fold_left filter_step rest filtered).
Proof.
  revert filtered.
  induction rest as [|e rest IH]; simpl; intros filtered Hne Halt.
  - assumption.
  - destruct (filter_step_alternating filtered e Hne Halt) as [Hne' Halt'].
    apply IH; assumption.
Qed.

Lemma filter_alternating_ok (l : list Extremum) (p : list Q) :
  alternating (_filter_alternating l p).
Proof.
  destruct l as [|e0 rest]; simpl.
  - exact I.
  - apply filter_fold_alternating; [discriminate | exact I].
Qed.

Lemma filter_fold_nonempty (rest filtered : list Extremum) :
  filtered <> [] -> fold_left filter_step rest filtered <> [].
Proof.
  revert filtered.
  induction rest as [|e rest IH]; simpl; intros filtered Hne.
  - assumption.
  - apply IH.
    destruct (exists_last Hne) as [l [x ->]].
    destruct (filter_step_cases l x e) as [[_ [-> | ->]] | [_ ->]];
      intros H; destruct l; discriminate.
Qed.

(** The pass returns the empty list only for the empty list. *)
Lemma filter_alternating_nil (l : list Extremum) (p : list Q) :
  _filter_alternating l p = [] <-> l = [].
Proof.
  destruct l as [|e0 rest]; simpl.
  - tauto.
  - split; [|discriminate].
    intros H. exfalso. revert H. apply filter_fold_nonempty. discriminate.
Qed.

(** The pass keeps entries of its input only. *)
Lemma filter_fold_incl (rest filtered : list Extremum) (e : Extremum) :
  filtered <> [] ->
  In e (fold_left filter_step rest filtered) -> In e filtered \/ In e rest.
Proof.
  revert filtered.
  induction rest as [|e' rest IH]; simpl; intros filtered Hne Hin.
  - auto.
  - destruct (exists_last Hne) as [l [x ->]].
    assert (Hne' : filter_step (l ++ [x]) e' <> []).
    { destruct (filter_step_cases l x e') as [[_ [-> | ->]] | [_ ->]];
        intros H; destruct l; discriminate. }
    destruct (IH _ Hne' Hin) as [H | H]; [|auto].
    destruct (filter_step_cases l x e') as [[_ [Hs | Hs]] | [_ Hs]];
      rewrite Hs in H; repeat rewrite in_app_iff in H; simpl in H;
      rewrite in_app_iff; simpl; intuition.
Qed.

Lemma filter_alternating_incl (l : list Extremum) (p : list Q)
      (e : Extremum) :
  In e (_filter_alternating l p) -> In e l.
Proof.
  destruct l as [|e0 rest]; simpl; [tauto|].
  intros H. apply filter_fold_incl in H; [|discriminate].
  simpl in H. intuition.
Qed.

End Alternation.

(** ** Extrema: bar indices *)

Section Indices.
Import ExtremaDetector.

Lemma increasing_app (l1 l2 : list Extremum) :
  increasing (l1 ++ l2) <->
  increasing l1 /\ increasing l2 /\
  Forall (fun a => Forall (fun b => (index a < index b)%Z) l2) l1.
Proof.
  induction l1 as [|a l1 IH]; simpl.
  - intuition.
  - rewrite Forall_app, IH. split.
    + intros [[H1 H2] [H3 [H4 H5]]]. repeat split; auto.
    + intros [[H1 H3] [H4 H5]]. inversion H5; subst. repeat split; auto.
Qed.

Lemma increasing_single (e : Extremum) : increasing [e].
Proof. simpl. split; [constructor | exact I]. Qed.

Lemma increasing_nth (l : list Extremum) :
  increasing l -> forall (j : nat) (a b : Extremum),
  nth_error l j = Some a -> nth_error l (S j) = Some b ->
  (index a < index b)%Z.
Proof.
  induction l as [|x l IH]; intros Hinc j a b Ha Hb.
  - destruct j; discriminate.
  - destruct Hinc as [Hx Hinc]. destruct j as [|j]; simpl in *.
    + inversion Ha; subst. rewrite Forall_forall in Hx.
      apply Hx. destruct l; [discriminate|]. simpl in Hb.
      inversion Hb; subst. left; reflexivity.
    + eapply IH; eauto.
Qed.

Lemma scan_inv_snoc (l : list Extremum) (z : Z) (i : nat) (q : Q) (k : ekind) :
  scan_inv (l, z) i ->
  scan_inv (l ++ [mkExtremum (Z.of_nat i) (inject_Z (Z.of_nat i)) q k],
            Z.of_nat i) (S i).
Proof.
  intros [Hinc Hall]. split; simpl in *.
  - apply increasing_app. split; [assumption|].
    split; [apply increasing_single|].
    eapply Forall_impl; [|exact Hall]. simpl.
    intros a [Ha _]. constructor; [assumption | constructor].
  - apply Forall_app. split.
    + eapply Forall_impl; [|exact Hall]. simpl. intros a [Ha Ht].
      split; [lia | assumption].
    + constructor; [|constructor]. simpl. split; [lia | reflexivity].
Qed.

Lemma scan_inv_weaken (st : list Extremum * Z) (i : nat) :
  scan_inv st i -> scan_inv st (S i).
Proof.
  intros [Hinc Hall]. split; [assumption|].
  eapply Forall_impl; [|exact Hall]. simpl. intros a [Ha Ht].
  split; [lia | assumption].
Qed.

Lemma scan_step_inv (md : Z) (p : list Q) (st : list Extremum * Z) (i : nat) :
  scan_inv st i -> scan_inv (scan_step md p st i) (S i).
Proof.
  intros Hinv. destruct st as [l z]. unfold scan_step.
  destruct (Z.of_nat i - z <? md)%Z; [apply scan_inv_weaken; assumption|].
  destruct (Qgtb (delta p i) 0 && Qltb (delta p (S i)) 0);
    [apply (scan_inv_snoc _ _ _ _ _ Hinv)|].
  destruct (Qltb (delta p i) 0 && Qgtb (delta p (S i)) 0);
    [apply (scan_inv_snoc _ _ _ _ _ Hinv)|].
  apply scan_inv_weaken; assumption.
Qed.

Lemma scan_fold_inv (md : Z) (p : list Q) (n : nat) :
  forall (a : nat) (st : list Extremum * Z),
  scan_inv st a ->
  scan_inv (fold_left (scan_step md p) (seq a n) st) (a + n).
Proof.
  induction n as [|n IH]; simpl; intros a st Hinv.
  - rewrite Nat.add_0_r. assumption.
  - replace (a + S n)%nat with (S a + n)%nat by lia.
    apply IH. apply scan_step_inv. assumption.
Qed.

Lemma scan_increasing (md : Z) (p : list Q) : increasing (scan md p).
Proof.
  unfold scan.
  apply (scan_fold_inv md p (length p - 2) 1 ([], (- md)%Z)).
  split; simpl; [exact I | constructor].
Qed.

Lemma scan_time (md : Z) (p : list Q) : Forall time_is_index (scan md p).
Proof.
  unfold scan.
  pose proof (scan_fold_inv md p (length p - 2) 1 ([], (- md)%Z)) as H.
  destruct H as [_ H]; [split; simpl; [exact I | constructor]|].
  eapply Forall_impl; [|exact H]. simpl. tauto.
Qed.

Lemma filter_fold_increasing (rest filtered : list Extremum) :
  filtered <> [] -> increasing (filtered ++ rest) ->
  increasing (fold_left filter_step rest filtered).
Proof.
  revert filtered.
  induction rest as [|e rest IH]; simpl; intros filtered Hne Hinc.
  - rewrite app_nil_r in Hinc. assumption.
  - destruct (exists_last Hne) as [l [x ->]].
    destruct (filter_step_cases l x e) as [[_ [-> | ->]] | [_ ->]].
    + apply IH; [intros H; destruct l; discriminate|].
      rewrite <- app_assoc in Hinc |- *. simpl in *.
      apply increasing_app in Hinc. destruct Hinc as [Hl [Hxr Hlr]].
      apply increasing_app. split; [assumption|]. split.
      * destruct Hxr as [_ Hxr]. exact Hxr.
      * eapply Forall_impl; [|exact Hlr]. simpl. intros a Ha.
        inversion Ha; assumption.
    + apply IH; [assumption|].
      apply increasing_app in Hinc. destruct Hinc as [Hl [Hxr Hlr]].
      apply increasing_app. split; [assumption|]. split.
      * destruct Hxr as [_ Hxr]. exact Hxr.
      * eapply Forall_impl; [|exact Hlr]. simpl. intros a Ha.
        inversion Ha; assumption.
    + apply IH; [intros H; destruct l; discriminate|].
      rewrite <- (app_assoc (l ++ [x]) [e] rest). exact Hinc.
Qed.

Lemma filter_alternating_increasing (l : list Extremum) (p : list Q) :
  increasing l -> increasing (_filter_alternating l p).
Proof.
  destruct l as [|e0 rest]; simpl; intros H.
  - exact I.
  - apply filter_fold_increasing; [discriminate | exact H].
Qed.

(** What [detect] returns on a non-empty column. *)
Lemma detect_ok (md : Z) (df : DataProcessor.DataFrame) :
  column df <> [] ->
  detect md df
  = Ok (_filter_alternating (scan md (column df)) (column df)).
Proof.
  unfold detect. cbv zeta. destruct (column df); [congruence | reflexivity].
Qed.

Lemma detect_inv (md : Z) (df : DataProcessor.DataFrame)
      (exs : list Extremum) :
  detect md df = Ok exs ->
  column df <> [] /\
  exs = _filter_alternating (scan md (column df)) (column df).
Proof.
  unfold detect. cbv zeta. destruct (column df); intros H; [discriminate|].
  inversion H. split; [discriminate | reflexivity].
Qed.

Lemma detect_increasing (md : Z) (df : DataProcessor.DataFrame)
      (exs : list Extremum) :
  detect md df = Ok exs -> increasing exs.
Proof.
  intros H. apply detect_inv in H. destruct H as [_ ->].
  apply filter_alternating_increasing, scan_increasing.
Qed.

Lemma detect_time (md : Z) (df : DataProcessor.DataFrame)
      (exs : list Extremum) :
  detect md df = Ok exs -> Forall time_is_index exs.
Proof.
  intros H. apply detect_inv in H. destruct H as [_ ->].
  apply Forall_forall. intros e He.
  apply filter_alternating_incl in He.
  pose proof (scan_time md (column df)) as Ht.
  rewrite Forall_forall in Ht. auto.
Qed.

End Indices.

(** ** Waves *)

Section Waves.
Import WaveBuilder.

Lemma wave_at_ok (X : Externals) (exs : list Extremum) (j : nat)
      (s e : Extremum) :
  nth_error exs j = Some s -> nth_error exs (S j) = Some e ->
  wave_at X exs j = Ok (wave_of X j s e).
Proof.
  intros Hs He. unfold wave_at, get. rewrite Hs, He. simpl.
  rewrite !pydiv_ok by apply py_or_nonzero. reflexivity.
Qed.

Lemma wave_at_inv (X : Externals) (exs : list Extremum) (j : nat) (w : Wave) :
  wave_at X exs j = Ok w ->
  exists s e, nth_error exs j = Some s /\ nth_error exs (S j) = Some e /\
              w = wave_of X j s e.
Proof.
  intros H. unfold wave_at in H.
  apply bind_ok in H. destruct H as [s [Hs H]].
  apply bind_ok in H. destruct H as [e [He H]].
  apply get_inv in Hs. apply get_inv in He.
  exists s, e. repeat split; try assumption.
  rewrite !pydiv_ok in H by apply py_or_nonzero. simpl in H.
  inversion H. reflexivity.
Qed.

(** [build] never raises and returns one wave per pair of neighbours. *)
Lemma build_total (X : Externals) (exs : list Extremum) :
  exists ws, build X exs = Ok ws /\ length ws = (length exs - 1)%nat.
Proof.
  destruct (mapM_total (wave_at X exs) (seq 0 (length exs - 1))) as [ws Hws].
  - apply Forall_forall. intros j Hj. apply in_seq in Hj.
    destruct (get_ok exs j) as [s [_ Hs]]; [lia|].
    destruct (get_ok exs (S j)) as [e [_ He]]; [lia|].
    eexists. apply wave_at_ok; eassumption.
  - exists ws. split; [exact Hws|].
    apply mapM_length in Hws. rewrite Hws. apply length_seq.
Qed.

Lemma build_In (X : Externals) (exs : list Extremum) (ws : list Wave) (w : Wave) :
  build X exs = Ok ws -> In w ws ->
  exists j s e, nth_error exs j = Some s /\ nth_error exs (S j) = Some e /\
                w = wave_of X j s e.
Proof.
  intros Hb Hin. unfold build in Hb.
  destruct (mapM_In _ _ _ Hb w Hin) as [j [_ Hj]].
  apply wave_at_inv in Hj. destruct Hj as [s [e H]]. exists j, s, e. exact H.
Qed.

(** Between two extrema in index order that carry their index as time,
    the duration is the index difference. *)
Lemma wave_duration (X : Externals) (j : nat) (s e : Extremum) :
  time_is_index s -> time_is_index e -> (index s < index e)%Z ->
  duration (wave_of X j s e) == inject_Z (index e - index s).
Proof.
  unfold time_is_index. intros Hs He Hlt. simpl. rewrite Hs, He.
  assert (Hd : inject_Z (index e) - inject_Z (index s)
               == inject_Z (index e - index s)).
  { unfold Z.sub. rewrite inject_Z_plus, inject_Z_opp. reflexivity. }
  assert (Hpos : 0 < inject_Z (index e - index s)).
  { change 0 with (inject_Z 0). rewrite <- Zlt_Qlt. lia. }
  assert (Habs : Qabs (inject_Z (index e) - inject_Z (index s))
                 == inject_Z (index e - index s)).
  { rewrite Hd. apply Qabs_pos. apply Qlt_le_weak. exact Hpos. }
  unfold py_or. rewrite Qeq_bool_false; [exact Habs|].
  rewrite Habs. intros H0. rewrite H0 in Hpos. apply (Qlt_irrefl 0 Hpos).
Qed.

End Waves.

(** ** Claims about extrema and waves *)

(** C2.  On every non-empty series [detect] returns a list of extrema in
    which no two consecutive entries have the same kind. *)
Theorem detect_alternating (md : Z) (df : DataProcessor.DataFrame) :
  ExtremaDetector.column df <> [] ->
  exists exs, ExtremaDetector.detect md df = Ok exs /\ alternating exs.
Proof.
  intros Hp. eexists. split.
  - apply detect_ok. exact Hp.
  - apply filter_alternating_ok.
Qed.

Lemma detect_alternating_witness :
  ExtremaDetector.column zigzag_frame <> [] /\
  exists exs,
    ExtremaDetector.detect 3 zigzag_frame = Ok exs /\ alternating exs.
Proof.
  split.
  - discriminate.
  - apply (detect_alternating 3 zigzag_frame). discriminate.
Defined.

(** On the sample series: a maximum at bar 3, a minimum at bar 6, a
    maximum at bar 9 and a minimum at bar 12. *)
Example detect_zigzag :
  ExtremaDetector.detect 3 zigzag_frame
  = Ok [ mkExtremum 3 3 5 Kmax; mkExtremum 6 6 1 Kmin;
         mkExtremum 9 9 6 Kmax; mkExtremum 12 12 2 Kmin ].
Proof. reflexivity. Qed.

(** C4.  [build] never raises and returns exactly
    [max(len(extrema) - 1, 0)] waves, none when fewer than two extrema
    are given. *)
Theorem build_wave_count (X : Externals) (exs : list Extremum) :
  exists ws, WaveBuilder.build X exs = Ok ws /\
             Z.of_nat (length ws) = Z.max (Z.of_nat (length exs) - 1) 0 /\
             ((length exs < 2)%nat -> ws = []).
Proof.
  destruct (build_total X exs) as [ws [Hb Hlen]].
  exists ws. split; [exact Hb|]. split; [lia|].
  intros Hshort. destruct ws; [reflexivity | simpl in Hlen; lia].
Qed.

(** C10.  Whatever the [time] column of the frame holds, every extremum
    returned by [detect] has its positional index as [time], and every
    wave built from them has the index difference of its two extrema as
    [duration]. *)
Theorem detect_time_is_index (X : Externals) (md : Z)
        (df : DataProcessor.DataFrame) (exs : list Extremum) :
  ExtremaDetector.detect md df = Ok exs ->
  Forall (fun e => time e = inject_Z (index e)) exs /\
  exists ws, WaveBuilder.build X exs = Ok ws /\
    Forall (fun w => duration w
                     == inject_Z (index (end_ w) - index (start w))) ws.
Proof.
  intros Hd.
  pose proof (detect_time _ _ _ Hd) as Ht.
  pose proof (detect_increasing _ _ _ Hd) as Hinc.
  split; [exact Ht|].
  destruct (build_total X exs) as [ws [Hb _]].
  exists ws. split; [exact Hb|].
  apply Forall_forall. intros w Hw.
  destruct (build_In _ _ _ _ Hb Hw) as [j [s [e [Hs [He ->]]]]].
  rewrite Forall_forall in Ht.
  apply wave_duration.
  - apply Ht. eapply nth_error_In; eauto.
  - apply Ht. eapply nth_error_In; eauto.
  - eapply increasing_nth; eauto.
Qed.

Lemma detect_time_is_index_witness :
  DataProcessor.load_series zigzag (Some stamps) = Ok zigzag_frame /\
  exists exs,
    ExtremaDetector.detect 3 zigzag_frame = Ok exs /\
    Forall (fun e => time e = inject_Z (index e)) exs /\
    exists ws, WaveBuilder.build X_id exs = Ok ws /\
      Forall (fun w => duration w
                       == inject_Z (index (end_ w) - index (start w))) ws.
Proof.
  split; [reflexivity|].
  eexists. split; [reflexivity|].
  apply (detect_time_is_index X_id 3 zigzag_frame). reflexivity.
Defined.

(** C9, as stated, fails: on a series with a single turning point
    [detect] returns a list of length one. *)
Lemma detect_returns_singleton :
  DataProcessor.load_series one_peak None = Ok one_peak_frame /\
  ExtremaDetector.detect 3 one_peak_frame = Ok [mkExtremum 1 1 1 Kmax].
Proof. split; reflexivity. Qed.

(** C9, amended.  On a non-empty series [detect] returns the empty list
    exactly when the scan finds no extremum; a single extremum found is
    returned as a list of length one; and a result with fewer than two
    extrema gives no wave. *)
Theorem detect_few_extrema (X : Externals) (md : Z)
        (df : DataProcessor.DataFrame) :
  ExtremaDetector.column df <> [] ->
  (ExtremaDetector.detect md df = Ok []
   <-> ExtremaDetector.scan md (ExtremaDetector.column df) = []) /\
  (forall e, ExtremaDetector.scan md (ExtremaDetector.column df) = [e] ->
             ExtremaDetector.detect md df = Ok [e]) /\
  (forall exs, ExtremaDetector.detect md df = Ok exs ->
               (length exs < 2)%nat -> WaveBuilder.build X exs = Ok []).
Proof.
  intros Hp. rewrite (detect_ok md df Hp). repeat split.
  - intros H. inversion H as [H0]. rewrite H0.
    apply filter_alternating_nil in H0. exact H0.
  - intros H. rewrite H. reflexivity.
  - intros e H. rewrite H. reflexivity.
  - intros exs H Hlen. inversion H as [H0]. rewrite H0.
    destruct (build_total X exs) as [ws [Hb Hl]].
    rewrite Hb. f_equal. destruct ws; [reflexivity | simpl in Hl; lia].
Qed.

Lemma detect_few_extrema_witness :
  ExtremaDetector.column one_peak_frame <> [] /\
  (ExtremaDetector.detect 3 one_peak_frame = Ok []
   <-> ExtremaDetector.scan 3 (ExtremaDetector.column one_peak_frame) = []) /\
  (forall e,
      ExtremaDetector.scan 3 (ExtremaDetector.column one_peak_frame) = [e] ->
      ExtremaDetector.detect 3 one_peak_frame = Ok [e]) /\
  (forall exs, ExtremaDetector.detect 3 one_peak_frame = Ok exs ->
               (length exs < 2)%nat -> WaveBuilder.build X_id exs = Ok []).
Proof.
  split.
  - discriminate.
  - apply (detect_few_extrema X_id 3 one_peak_frame). discriminate.
Defined.

(** ** Structural triples and their quality *)

Section Triples.
Import StructuralTripleDetector QualityMetric.

Lemma triple_at_inv (self : StructuralTripleDetector.conf)
      (waves : list Wave) (i : nat) (t : StructuralTriple) :
  triple_at self waves i = Ok t ->
  nth_error waves i = Some (w1 t) /\
  nth_error waves (i + 1) = Some (w2 t) /\
  nth_error waves (i + 2) = Some (w3 t) /\
  (is_valid t = true ->
   wave_type (w1 t) = Impulse /\ wave_type (w2 t) = Correction /\
   wave_type (w3 t) = Impulse /\
   alpha self * amplitude (w1 t) <= amplitude (w3 t) /\
   r_min self <= correction_ratio t /\ correction_ratio t <= r_max self /\
   direction (w1 t) <> direction (w2 t)).
Proof.
  intros H. unfold triple_at in H.
  apply bind_ok in H. destruct H as [a [Ha H]].
  apply bind_ok in H. destruct H as [b [Hb H]].
  apply bind_ok in H. destruct H as [c [Hc H]].
  apply bind_ok in H. destruct H as [R [HR H]].
  apply get_inv in Ha, Hb, Hc.
  inversion H; subst t; clear H. simpl.
  repeat split; try assumption;
    destruct (dir_eqb (direction a) (direction b)) eqn:Hd;
    try discriminate;
    repeat (match goal with
            | H : _ && _ = true |- _ => apply andb_true_iff in H; destruct H
            end).
  - destruct (wave_type a); simpl in *; congruence.
  - destruct (wave_type b); simpl in *; congruence.
  - destruct (wave_type c); simpl in *; congruence.
  - apply Qgeb_ge. assumption.
  - apply Qle_bool_iff. assumption.
  - apply Qle_bool_iff. assumption.
  - apply dir_eqb_neq. assumption.
Qed.

Lemma score_one_inv (self : QualityMetric.conf) (t t' : StructuralTriple) :
  score_one self t = Ok t' ->
  w1 t' = w1 t /\ w2 t' = w2 t /\ w3 t' = w3 t /\
  correction_ratio t' = correction_ratio t /\
  (is_valid t' = true ->
   is_valid t = true /\ threshold self <= quality_score t').
Proof.
  intros H. unfold score_one in H.
  apply bind_ok in H. destruct H as [fs [_ H]].
  inversion H; subst t'; clear H. simpl.
  repeat split; destruct (Qltb _ (threshold self)) eqn:E;
    try discriminate; try assumption.
  apply Qltb_ge. exact E.
Qed.

Lemma assign_In (ts : list StructuralTriple) (c : Z) (t : StructuralTriple) :
  In t (snd (PhaseModel.assign ts c)) ->
  exists t0, In t0 ts /\ w1 t = w1 t0 /\ w2 t = w2 t0 /\ w3 t = w3 t0 /\
             correction_ratio t = correction_ratio t0 /\
             quality_score t = quality_score t0 /\
             is_valid t = is_valid t0.
Proof.
  unfold PhaseModel.assign.
  destruct (filter is_valid ts) as [|t0 v].
  - simpl. intros H. exists t. repeat split; auto.
  - cbv zeta.
    destruct (PhaseModel.phase_of (last (t0 :: v) t0) c) as [ph d]. simpl.
    intros H. apply in_map_iff in H. destruct H as [x [Hx Hin]].
    exists x. split; [assumption|].
    destruct (is_valid x) eqn:E; subst t; simpl; repeat split; auto.
Qed.

End Triples.

(** C1, as stated, fails: a triple that is valid after scoring can have
    [w1] going up and [w3] going down. *)
Lemma valid_triple_directions_differ :
  exists exs ws ts ts' t,
    ExtremaDetector.detect 3 skewed_frame = Ok exs /\
    WaveBuilder.build X_id exs = Ok ws /\
    StructuralTripleDetector.find_triples StructuralTripleDetector.default
      (WaveClassifier.classify WaveClassifier.default ws) = Ok ts /\
    QualityMetric.score QualityMetric.default ts = Ok ts' /\
    In t ts' /\ is_valid t = true /\
    direction (w1 t) = Up /\ direction (w3 t) = Down.
Proof.
  do 5 eexists.
  split; [vm_compute; reflexivity|].
  split; [vm_compute; reflexivity|].
  split; [vm_compute; reflexivity|].
  split; [vm_compute; reflexivity|].
  split; [left; reflexivity|].
  repeat split.
Qed.

(** What [find_triples] checked on a triple it marked valid. *)
Lemma find_triples_valid
      (tc : StructuralTripleDetector.conf) (waves : list Wave)
      (ts : list StructuralTriple) (t : StructuralTriple) :
  StructuralTripleDetector.find_triples tc waves = Ok ts ->
  In t ts -> is_valid t = true ->
  StructuralTripleDetector.r_min tc <= correction_ratio t /\
  correction_ratio t <= StructuralTripleDetector.r_max tc /\
  StructuralTripleDetector.alpha tc * amplitude (w1 t) <= amplitude (w3 t) /\
  direction (w1 t) <> direction (w2 t).
Proof.
  intros Hf Hin Hv.
  destruct (mapM_In _ _ _ Hf t Hin) as [i [_ Hti]].
  apply triple_at_inv in Hti. destruct Hti as [_ [_ [_ Hval]]].
  destruct (Hval Hv) as [_ [_ [_ [Ha [Hlo [Hhi Hd]]]]]].
  repeat split; assumption.
Qed.

(** A triple that [score] leaves valid was valid before, keeps its waves
    and ratio, and scored at or above the threshold. *)
Lemma score_valid (qc : QualityMetric.conf)
      (ts ts' : list StructuralTriple) (t : StructuralTriple) :
  QualityMetric.score qc ts = Ok ts' ->
  In t ts' -> is_valid t = true ->
  QualityMetric.threshold qc <= quality_score t /\
  exists t0, In t0 ts /\ is_valid t0 = true /\
             w1 t = w1 t0 /\ w2 t = w2 t0 /\ w3 t = w3 t0 /\
             correction_ratio t = correction_ratio t0.
Proof.
  intros Hs Hin Hv.
  destruct (mapM_In _ _ _ Hs t Hin) as [t0 [Hin0 Hsc]].
  apply score_one_inv in Hsc. destruct Hsc as [F1 [F2 [F3 [FR Hq]]]].
  destruct (Hq Hv) as [Hv0 Hthr].
  split; [exact Hthr|]. exists t0. repeat split; assumption.
Qed.

(** C1, amended.  Every triple that is valid after scoring, also after
    the phase has been written, has its correction ratio within
    [[r_min, r_max]], [w3] at least [alpha] times as large as [w1],
    [w1] and [w2] in different directions, and a quality score of at
    least the threshold. *)
Theorem valid_triple_sound
        (tc : StructuralTripleDetector.conf) (qc : QualityMetric.conf)
        (waves : list Wave) (ts ts' : list StructuralTriple) (c : Z)
        (t : StructuralTriple) :
  StructuralTripleDetector.find_triples tc waves = Ok ts ->
  QualityMetric.score qc ts = Ok ts' ->
  In t ts' \/ In t (snd (PhaseModel.assign ts' c)) ->
  is_valid t = true ->
  StructuralTripleDetector.r_min tc <= correction_ratio t /\
  correction_ratio t <= StructuralTripleDetector.r_max tc /\
  StructuralTripleDetector.alpha tc * amplitude (w1 t) <= amplitude (w3 t) /\
  direction (w1 t) <> direction (w2 t) /\
  QualityMetric.threshold qc <= quality_score t.
Proof.
  intros Hf Hs Hin Hv.
  assert (Hscored : exists t1, In t1 ts' /\ w1 t = w1 t1 /\ w2 t = w2 t1 /\
            w3 t = w3 t1 /\ correction_ratio t = correction_ratio t1 /\
            quality_score t = quality_score t1 /\ is_valid t = is_valid t1).
  { destruct Hin as [Hin | Hin].
    - exists t. repeat split; auto.
    - apply assign_In in Hin. exact Hin. }
  destruct Hscored as [t1 [Hin1 [E1 [E2 [E3 [ER [EQ EV]]]]]]].
  rewrite EV in Hv.
  destruct (score_valid qc ts ts' t1 Hs Hin1 Hv)
    as [Hthr [t0 [Hin0 [Hv0 [F1 [F2 [F3 FR]]]]]]].
  destruct (find_triples_valid tc waves ts t0 Hf Hin0 Hv0)
    as [Hlo [Hhi [Ha Hd]]].
  rewrite E1, E2, E3, ER, EQ, F1, F2, F3, FR.
  repeat split; assumption.
Qed.

Lemma valid_triple_sound_witness :
  exists ts ts' t,
    StructuralTripleDetector.find_triples StructuralTripleDetector.default
      golden_waves = Ok ts /\
    QualityMetric.score QualityMetric.default ts = Ok ts' /\
    (In t ts' \/ In t (snd (PhaseModel.assign ts' 5))) /\
    is_valid t = true /\
    StructuralTripleDetector.r_min StructuralTripleDetector.default
      <= correction_ratio t /\
    correction_ratio t
      <= StructuralTripleDetector.r_max StructuralTripleDetector.default /\
    StructuralTripleDetector.alpha StructuralTripleDetector.default
      * amplitude (w1 t) <= amplitude (w3 t) /\
    direction (w1 t) <> direction (w2 t) /\
    QualityMetric.threshold QualityMetric.default <= quality_score t.
Proof.
  do 3 eexists.
  assert (Hf : StructuralTripleDetector.find_triples
                 StructuralTripleDetector.default golden_waves
               = Ok [golden_triple]) by reflexivity.
  split; [exact Hf|].
  split; [reflexivity|].
  split; [left; left; reflexivity|].
  split; [reflexivity|].
  eapply (valid_triple_sound _ _ _ _ _ 5 _ Hf).
  - reflexivity.
  - left; left; reflexivity.
  - reflexivity.
Defined.

(** C7, as stated, fails: for the window of the scenario the ratio-fit
    sub-score is below 1. *)
Lemma golden_ratio_fit_below_one :
  exists t,
    StructuralTripleDetector.find_triples StructuralTripleDetector.default
      golden_waves = Ok [t] /\
    is_valid t = true /\
    QualityMetric._f_ratio t < 1.
Proof.
  exists golden_triple. repeat split.
Qed.

(** C7, amended.  For three waves of amplitudes 100, 61.8 and 100, going
    up, down and up, classified impulse, correction and impulse, the
    detector with default parameters returns one triple, made of these
    three waves and marked valid.  Its stored ratio is below 0.618,
    because the divisor is [A1 + 1e-9], and the ratio-fit sub-score of
    the triple is below 1.0 and within 1e-10 of it.  The bounds hold in
    exact arithmetic and, for the same two expressions, in binary64,
    where the ratio rounds to 0.61799999999381994 and the ratio-fit to
    0.99999999998056588. *)
Theorem golden_triple_fit (a b c : Wave) :
  amplitude a = 100 -> amplitude b = 618 # 10 -> amplitude c = 100 ->
  direction a = Up -> direction b = Down -> direction c = Up ->
  wave_type a = Impulse -> wave_type b = Correction ->
  wave_type c = Impulse ->
  (exists t,
     StructuralTripleDetector.find_triples StructuralTripleDetector.default
       [a; b; c] = Ok [t] /\
     w1 t = a /\ w2 t = b /\ w3 t = c /\
     is_valid t = true /\
     (618 # 1000) - (1 # 10000000000) < correction_ratio t /\
     correction_ratio t < 618 # 1000 /\
     1 - (1 # 10000000000) < QualityMetric._f_ratio t /\
     QualityMetric._f_ratio t < 1) /\
  PrimFloat.ltb Binary64.below_golden_point Binary64.golden_ratio = true /\
  PrimFloat.ltb Binary64.golden_ratio Binary64.golden_point = true /\
  PrimFloat.ltb Binary64.below_one (Binary64.f_ratio Binary64.golden_ratio)
  = true /\
  PrimFloat.ltb (Binary64.f_ratio Binary64.golden_ratio) Binary64.one = true.
Proof.
  intros Ha Hb Hc Da Db Dc Ta Tb Tc. split.
  - exists (mkTriple a b c golden_ratio 0 0 true). split.
    + unfold StructuralTripleDetector.find_triples,
        StructuralTripleDetector.triple_at. simpl.
      rewrite Ha, Hb, Hc, Da, Db, Ta, Tb, Tc. reflexivity.
    + repeat split.
  - repeat split.
Qed.

Lemma golden_triple_fit_witness :
  (exists t,
     StructuralTripleDetector.find_triples StructuralTripleDetector.default
       [gw1; gw2; gw3] = Ok [t] /\
     w1 t = gw1 /\ w2 t = gw2 /\ w3 t = gw3 /\
     is_valid t = true /\
     (618 # 1000) - (1 # 10000000000) < correction_ratio t /\
     correction_ratio t < 618 # 1000 /\
     1 - (1 # 10000000000) < QualityMetric._f_ratio t /\
     QualityMetric._f_ratio t < 1) /\
  PrimFloat.ltb Binary64.below_golden_point Binary64.golden_ratio = true /\
  PrimFloat.ltb Binary64.golden_ratio Binary64.golden_point = true /\
  PrimFloat.ltb Binary64.below_one (Binary64.f_ratio Binary64.golden_ratio)
  = true /\
  PrimFloat.ltb (Binary64.f_ratio Binary64.golden_ratio) Binary64.one = true.
Proof.
  apply (golden_triple_fit gw1 gw2 gw3); reflexivity.
Defined.

(** A ratio of exactly 0.618 would give the ratio-fit 1.0, also in
    binary64; the ratio the detector stores does not. *)
Example golden_fit_binary64 :
  PrimFloat.eqb (Binary64.f_ratio Binary64.golden_point) Binary64.one = true /\
  PrimFloat.eqb (Binary64.f_ratio Binary64.golden_ratio) Binary64.one = false.
Proof. split; reflexivity. Qed.

(** ** Fractality *)

(** C6.  [self_similarity] reports [stable] exactly when it computed a
    coefficient of variation and that value is below 0.30; when either
    list is empty, or no ratio is collected, it returns no coefficient
    and [stable = false]; otherwise the coefficient is the median of the
    ratios. *)
Theorem self_similarity_stable (X : Externals) (wa wb : list Wave) :
  let r := FractalityAnalyzer.self_similarity X wa wb in
  (FractalityAnalyzer.stable r = true <->
   exists c, FractalityAnalyzer.cv r = Some c /\ c < 3 # 10) /\
  (wa = [] \/ wb = [] \/ FractalityAnalyzer.ratios wa wb = [] ->
   FractalityAnalyzer.coefficient r = None /\
   FractalityAnalyzer.stable r = false) /\
  (FractalityAnalyzer.ratios wa wb <> [] ->
   FractalityAnalyzer.coefficient r
   = Some (FractalityAnalyzer.np_median (FractalityAnalyzer.ratios wa wb)) /\
   FractalityAnalyzer.cv r
   = Some (FractalityAnalyzer.np_std X (FractalityAnalyzer.ratios wa wb)
           / (np_mean (FractalityAnalyzer.ratios wa wb) + eps))).
Proof.
  cbv zeta. unfold FractalityAnalyzer.self_similarity.
  destruct wa as [|a wa'].
  { simpl. repeat split; try discriminate; try tauto.
    intros [c [Hc _]]. discriminate. }
  destruct wb as [|b wb'].
  { assert (Hr : FractalityAnalyzer.ratios (a :: wa') [] = []).
    { unfold FractalityAnalyzer.ratios. induction (a :: wa'); simpl; auto. }
    rewrite Hr. simpl. repeat split; try discriminate; try tauto.
    intros [c [Hc _]]. discriminate. }
  destruct (FractalityAnalyzer.ratios (a :: wa') (b :: wb')) as [|q rs] eqn:Hr.
  { simpl. repeat split; try discriminate; try tauto.
    intros [c [Hc _]]. discriminate. }
  simpl FractalityAnalyzer.stable. simpl FractalityAnalyzer.cv.
  simpl FractalityAnalyzer.coefficient.
  split; [|split].
  - split.
    + intros H. eexists. split; [reflexivity|]. apply Qltb_lt. exact H.
    + intros [c [Hc Hlt]]. inversion Hc; subst c. apply Qltb_lt. exact Hlt.
  - intros [H | [H | H]]; discriminate.
  - intros _. split; reflexivity.
Qed.

(** Scenario 3 of the specification: amplitudes 10, 10, 10 against
    5, 5, 5 give nine ratios, all equal to 2; the coefficient is 2, the
    coefficient of variation 0, and the result is stable. *)
Example self_similarity_scenario :
  Forall (fun r => r == 2) (FractalityAnalyzer.ratios tens fives) /\
  exists c v,
    FractalityAnalyzer.self_similarity X_id tens fives
    = FractalityAnalyzer.mkFractal (Some c) (Some v) true (Some 9%nat) /\
    c == 2 /\ v == 0.
Proof.
  split.
  - repeat constructor.
  - do 2 eexists. split; [reflexivity|]. split; reflexivity.
Qed.

(** ** Phase model *)

Lemma phase_of_number (lst : StructuralTriple) (c : Z) :
  fst (PhaseModel.phase_of lst c) = phase_number lst c.
Proof.
  unfold PhaseModel.phase_of, phase_number.
  destruct (c <=? index (end_ (w1 lst)))%Z; [reflexivity|].
  destruct (c <=? index (end_ (w2 lst)))%Z; [reflexivity|].
  destruct (c <=? index (end_ (w3 lst)))%Z; reflexivity.
Qed.

Lemma recent_last_last (l : list StructuralTriple) (d x : StructuralTriple) :
  recent_last l -> In x l ->
  x = last l d \/ (w3_end x < w3_end (last l d))%Z.
Proof.
  induction l as [|a l IH]; intros Hs Hin.
  - destruct Hin.
  - destruct Hs as [Ha Hs]. destruct l as [|b l'].
    + destruct Hin as [-> | []]. left; reflexivity.
    + change (last (a :: b :: l') d) with (last (b :: l') d).
      destruct Hin as [-> | Hin].
      * right. rewrite Forall_forall in Ha. apply Ha.
        destruct (exists_last (l := b :: l')) as [l0 [y Hy]]; [discriminate|].
        rewrite Hy, last_last. apply in_or_app. right. left. reflexivity.
      * apply IH; assumption.
Qed.

Lemma last_In {A : Type} (l : list A) (d : A) : l <> [] -> In (last l d) l.
Proof.
  intros Hne. destruct (exists_last Hne) as [l0 [y ->]].
  rewrite last_last. apply in_or_app. right. left. reflexivity.
Qed.

(** ** The order of the triples the pipeline builds *)

Section Order.

Lemma increasing_nth_lt (l : list Extremum) :
  increasing l -> forall (i j : nat) (a b : Extremum),
  (i < j)%nat -> nth_error l i = Some a -> nth_error l j = Some b ->
  (index a < index b)%Z.
Proof.
  induction l as [|x l IH]; intros Hinc i j a b Hij Ha Hb.
  - destruct i; discriminate.
  - destruct Hinc as [Hx Hinc]. destruct j as [|j]; [lia|].
    destruct i as [|i]; simpl in *.
    + inversion Ha; subst. rewrite Forall_forall in Hx.
      apply Hx. eapply nth_error_In; eauto.
    + apply (IH Hinc i j); auto. lia.
Qed.

Lemma mapM_nth {A B : Type} (f : A -> result B) (l : list A) (bs : list B) :
  mapM f l = Ok bs -> forall (k : nat) (b : B),
  nth_error bs k = Some b -> exists a, nth_error l k = Some a /\ f a = Ok b.
Proof.
  intros H. apply mapM_Forall2 in H.
  induction H as [|a b l bs Hab _ IH]; intros k b0 Hk.
  - destruct k; discriminate.
  - destruct k as [|k]; simpl in *.
    + inversion Hk; subst. eauto.
    + apply IH. exact Hk.
Qed.

Lemma nth_error_seq0 (n k a : nat) :
  nth_error (seq 0 n) k = Some a -> a = k.
Proof.
  intros H.
  assert (Hk : (k < length (seq 0 n))%nat)
    by (apply nth_error_Some; congruence).
  rewrite length_seq in Hk.
  apply (nth_error_nth _ _ 0%nat) in H. rewrite seq_nth in H by exact Hk.
  lia.
Qed.

(** The wave at position [k] ends at the extremum at position [k + 1]. *)
Lemma build_nth_end (X : Externals) (exs : list Extremum) (ws : list Wave)
      (k : nat) (w : Wave) :
  WaveBuilder.build X exs = Ok ws -> nth_error ws k = Some w ->
  nth_error exs (S k) = Some (end_ w).
Proof.
  intros Hb Hk. destruct (mapM_nth _ _ _ Hb k w Hk) as [j [Hj Hw]].
  apply nth_error_seq0 in Hj. subst j.
  apply wave_at_inv in Hw. destruct Hw as [s [e [_ [He ->]]]]. exact He.
Qed.

Lemma classify_nth_end (self : WaveClassifier.conf) (ws : list Wave)
      (k : nat) (w : Wave) :
  nth_error (WaveClassifier.classify self ws) k = Some w ->
  exists w0, nth_error ws k = Some w0 /\ end_ w = end_ w0.
Proof.
  unfold WaveClassifier.classify. destruct ws as [|a ws'].
  - destruct k; discriminate.
  - rewrite nth_error_map.
    destruct (nth_error (a :: ws') k) as [w0|]; simpl; [|discriminate].
    intros H. inversion H. exists w0. split; [reflexivity|].
    unfold WaveClassifier.classify_one. destruct (_ && _); reflexivity.
Qed.

Lemma recent_last_of_nth (ts : list StructuralTriple) :
  (forall i j t t', (i < j)%nat -> nth_error ts i = Some t ->
                    nth_error ts j = Some t' -> (w3_end t < w3_end t')%Z) ->
  recent_last ts.
Proof.
  induction ts as [|a ts IH]; intros H; [exact I|]. split.
  - apply Forall_forall. intros b Hb.
    destruct (In_nth_error _ _ Hb) as [j Hj].
    apply (H 0%nat (S j)); [lia | reflexivity | exact Hj].
  - apply IH. intros i j t t' Hij Hi Hj.
    apply (H (S i) (S j)); [lia | exact Hi | exact Hj].
Qed.

Lemma recent_last_filter (f : StructuralTriple -> bool)
      (ts : list StructuralTriple) :
  recent_last ts -> recent_last (filter f ts).
Proof.
  induction ts as [|a ts IH]; simpl; intros H; [exact I|].
  destruct H as [Ha Hts]. destruct (f a); simpl; [split|]; auto.
  apply Forall_forall. intros b Hb. apply filter_In in Hb.
  rewrite Forall_forall in Ha. apply Ha. tauto.
Qed.

(** The valid triples of a pipeline run are listed in increasing order
    of the bar at which their third wave ends. *)
Lemma find_triples_recent_last
      (X : Externals) (md : Z) (df : DataProcessor.DataFrame)
      (cc : WaveClassifier.conf) (tc : StructuralTripleDetector.conf)
      (qc : QualityMetric.conf)
      (exs : list Extremum) (ws : list Wave) (ts ts' : list StructuralTriple) :
  ExtremaDetector.detect md df = Ok exs ->
  WaveBuilder.build X exs = Ok ws ->
  StructuralTripleDetector.find_triples tc (WaveClassifier.classify cc ws)
    = Ok ts ->
  QualityMetric.score qc ts = Ok ts' ->
  recent_last (filter is_valid ts').
Proof.
  intros Hd Hb Hf Hs. apply recent_last_filter. apply recent_last_of_nth.
  assert (Hend : forall i t, nth_error ts' i = Some t ->
            exists e, nth_error exs (i + 3) = Some e /\ w3_end t = index e).
  { intros i t Hi.
    destruct (mapM_nth _ _ _ Hs i t Hi) as [t0 [Hi0 Hsc]].
    apply score_one_inv in Hsc. destruct Hsc as [_ [_ [E3 _]]].
    destruct (mapM_nth _ _ _ Hf i t0 Hi0) as [k [Hk Hti]].
    apply nth_error_seq0 in Hk. subst k.
    apply triple_at_inv in Hti. destruct Hti as [_ [_ [H3 _]]].
    apply classify_nth_end in H3. destruct H3 as [w0 [Hw0 Ew]].
    apply (build_nth_end _ _ _ _ _ Hb) in Hw0.
    exists (end_ w0). split.
    - replace (i + 3)%nat with (S (i + 2)) by lia. exact Hw0.
    - unfold w3_end. rewrite E3, Ew. reflexivity. }
  intros i j t t' Hij Hi Hj.
  destruct (Hend i t Hi) as [e [He ->]].
  destruct (Hend j t' Hj) as [e' [He' ->]].
  apply (increasing_nth_lt exs (detect_increasing _ _ _ Hd)
                           (i + 3) (j + 3)); [lia | exact He | exact He'].
Qed.

End Order.

(** C5, as stated, fails: with two valid triples listed out of order the
    one with the highest [w3.end.index] ends its first wave at bar 14,
    so bar 12 is in phase 1 by the claim; [assign] returns phase 3. *)
Lemma assign_takes_list_order :
  exists lst,
    In lst out_of_order /\ is_valid lst = true /\
    (forall t, In t out_of_order -> is_valid t = true ->
               (w3_end t <= w3_end lst)%Z) /\
    (12 <= index (end_ (w1 lst)))%Z /\
    fst (fst (PhaseModel.assign out_of_order 12)) = 3%Z.
Proof.
  exists (triple_to 14 17 20). split; [left; reflexivity|].
  split; [reflexivity|]. split.
  - intros t [<- | [<- | []]] _; unfold w3_end; simpl; lia.
  - split; [simpl; lia | reflexivity].
Qed.

(** C5, amended.  With no valid triple [assign] returns phase 0 with the
    description "No valid structure found".  When the valid triples are
    listed in increasing order of [w3.end.index], as [find_triples] emits
    them, and [lst] is the valid triple with the highest [w3.end.index],
    [assign] returns phase 1 if [c <= lst.w1.end.index], phase 2 if
    [lst.w1.end.index < c <= lst.w2.end.index] and phase 3 otherwise,
    and writes that phase on every valid triple. *)
Theorem assign_phase (ts : list StructuralTriple) (c : Z) :
  ((forall t, In t ts -> is_valid t = false) ->
   PhaseModel.assign ts c = ((0%Z, "No valid structure found"%string), ts)) /\
  (recent_last (filter is_valid ts) ->
   forall lst, In lst ts -> is_valid lst = true ->
   (forall t, In t ts -> is_valid t = true -> (w3_end t <= w3_end lst)%Z) ->
   fst (fst (PhaseModel.assign ts c)) = phase_number lst c /\
   snd (PhaseModel.assign ts c)
   = map (fun t => if is_valid t then set_phase t (phase_number lst c) else t)
         ts).
Proof.
  split.
  - intros Hnone. unfold PhaseModel.assign.
    replace (filter is_valid ts) with (@nil StructuralTriple); [reflexivity|].
    symmetry. induction ts as [|a ts IH]; simpl; [reflexivity|].
    rewrite (Hnone a) by (left; reflexivity).
    apply IH. intros t Ht. apply Hnone. right. exact Ht.
  - intros Hord lst Hin Hv Hmax.
    assert (Hlv : In lst (filter is_valid ts)).
    { apply filter_In. split; assumption. }
    unfold PhaseModel.assign.
    destruct (filter is_valid ts) as [|t0 v] eqn:Hf; [destruct Hlv|].
    assert (Hlast : last (t0 :: v) t0 = lst).
    { destruct (recent_last_last _ t0 lst Hord Hlv) as [-> | Hlt];
        [reflexivity|].
      assert (Hl : In (last (t0 :: v) t0) (filter is_valid ts)).
      { rewrite Hf. apply last_In. discriminate. }
      apply filter_In in Hl. destruct Hl as [Hl1 Hl2].
      specialize (Hmax _ Hl1 Hl2). lia. }
    rewrite Hlast. rewrite <- phase_of_number.
    destruct (PhaseModel.phase_of lst c) as [ph d]. simpl. split; reflexivity.
Qed.

(** Scenario 4 of the specification: the current bar is the bar at which
    the second wave of the only valid triple ends. *)
Example assign_scenario :
  PhaseModel.assign [triple_to 4 7 10] 7
  = ((2%Z, PhaseModel.desc2), [set_phase (triple_to 4 7 10) 2]).
Proof. reflexivity. Qed.

(** ** The pipeline *)

Section Pipeline.
Import DataProcessor PatternSystem.

Lemma arange_length (n : nat) : length (arange n) = n.
Proof. unfold arange. rewrite length_map. apply length_seq. Qed.

Lemma load_series_ok (prices : list Q) (times : option (list Q)) :
  times_fit prices times ->
  exists ts, load_series prices times = Ok (mkDF ts prices None).
Proof.
  intros Hfit. unfold load_series. destruct times as [ts|]; simpl in Hfit.
  - rewrite Hfit, Nat.eqb_refl. eauto.
  - rewrite arange_length, Nat.eqb_refl. eauto.
Qed.

Lemma load_series_inv (prices : list Q) (times : option (list Q))
      (df : DataFrame) :
  load_series prices times = Ok df ->
  df_close df = prices /\ df_smooth df = None.
Proof.
  unfold load_series.
  destruct (Nat.eqb _ _); intros H; inversion H. split; reflexivity.
Qed.

(** After smoothing, [detect] reads a column as long as the series. *)
Lemma smooth_inv (X : Externals) (self : DataProcessor.conf)
      (df df' : DataFrame) :
  smooth X self df = Ok df' ->
  length (ExtremaDetector.column df') = length (df_close df) /\
  df_close df' = df_close df /\ df_time df' = df_time df.
Proof.
  unfold smooth. intros H.
  apply bind_ok in H. destruct H as [s [_ H]].
  destruct (Nat.eqb (length s) (length (df_close df))) eqn:E;
    [|discriminate].
  inversion H. unfold ExtremaDetector.column. simpl.
  apply Nat.eqb_eq in E. repeat split. exact E.
Qed.

Lemma savgol_window_bounds (self : DataProcessor.conf) :
  (poly self < savgol_window self)%Z /\ (5 <= savgol_window self)%Z.
Proof. unfold savgol_window. destruct (_ =? 1)%Z; lia. Qed.

Lemma smooth_ok (X : Externals) (self : DataProcessor.conf) (df : DataFrame) :
  length_preserving X ->
  (uses_savgol self = true ->
   (savgol_window self <= Z.of_nat (length (df_close df)))%Z) ->
  exists s, smooth X self df = Ok (mkDF (df_time df) (df_close df) (Some s)).
Proof.
  intros [Hema [Hgau Hsav]] Hwin. unfold smooth, uses_savgol in *.
  destruct (String.eqb (method self) "ema").
  - simpl. rewrite Hema, Nat.eqb_refl. eauto.
  - destruct (String.eqb (method self) "gaussian").
    + simpl. rewrite Hgau, Nat.eqb_refl. eauto.
    + specialize (Hwin eq_refl).
      pose proof (savgol_window_bounds self) as [Hpoly _].
      unfold savgol_window in Hwin, Hpoly. cbv zeta in Hwin, Hpoly.
      unfold savgol_filter. cbv zeta.
      destruct (_ <=? poly self)%Z eqn:E1; [apply Z.leb_le in E1; lia|].
      destruct (_ <? _)%Z eqn:E2; [apply Z.ltb_lt in E2; lia|].
      simpl. rewrite Hsav, Nat.eqb_refl. eauto.
Qed.

(** Under the Savitzky-Golay method a series shorter than the window
    makes [smooth] raise. *)
Lemma smooth_short_raises (X : Externals) (self : DataProcessor.conf)
      (df : DataFrame) :
  uses_savgol self = true ->
  (Z.of_nat (length (df_close df)) < savgol_window self)%Z ->
  smooth X self df = Raise ValueError.
Proof.
  intros Hm Hshort. unfold smooth, uses_savgol in *.
  apply andb_true_iff in Hm. destruct Hm as [H1 H2].
  apply negb_true_iff in H1, H2. rewrite H1, H2.
  unfold savgol_window in Hshort. cbv zeta in Hshort.
  unfold savgol_filter. cbv zeta.
  destruct (_ <=? poly self)%Z; [reflexivity|].
  destruct (_ <? _)%Z eqn:E2; [reflexivity|].
  apply Z.ltb_ge in E2. lia.
Qed.

Lemma run_short_raises (X : Externals) (self : PatternSystem.conf)
      (prices : list Q) (times : option (list Q)) :
  times_fit prices times ->
  uses_savgol (processor self) = true ->
  (Z.of_nat (length prices) < savgol_window (processor self))%Z ->
  run X self prices times = Raise ValueError.
Proof.
  intros Hfit Hm Hshort. unfold run.
  destruct (load_series_ok prices times Hfit) as [ts ->]. simpl.
  rewrite smooth_short_raises; [reflexivity | exact Hm | exact Hshort].
Qed.

Lemma eps_pos : 0 < eps.
Proof. reflexivity. Qed.

Lemma py_or_abs_pos (x : Q) : 0 < py_or (Qabs x) eps.
Proof.
  unfold py_or. destruct (Qeq_bool (Qabs x) 0) eqn:E.
  - apply eps_pos.
  - pose proof (Qabs_nonneg x) as Hn.
    destruct (Qle_lt_or_eq _ _ Hn) as [Hlt | Heq]; [exact Hlt|].
    symmetry in Heq. apply Qeq_bool_iff in Heq. congruence.
Qed.

Lemma wave_of_guarded (X : Externals) (j : nat) (s e : Extremum) :
  wave_guarded (wave_of X j s e).
Proof.
  unfold wave_guarded, wave_of. cbn [amplitude duration].
  split; [apply Qabs_nonneg | apply py_or_abs_pos].
Qed.

Lemma build_guarded (X : Externals) (exs : list Extremum) (ws : list Wave) :
  WaveBuilder.build X exs = Ok ws -> Forall wave_guarded ws.
Proof.
  intros Hb. apply Forall_forall. intros w Hw.
  destruct (build_In _ _ _ _ Hb Hw) as [j [s [e [_ [_ ->]]]]].
  apply wave_of_guarded.
Qed.

Lemma classify_guarded (self : WaveClassifier.conf) (ws : list Wave) :
  Forall wave_guarded ws ->
  Forall wave_guarded (WaveClassifier.classify self ws).
Proof.
  intros H. unfold WaveClassifier.classify.
  destruct ws as [|w ws']; [constructor|].
  apply Forall_forall. intros x Hx. apply in_map_iff in Hx.
  destruct Hx as [y [<- Hy]]. rewrite Forall_forall in H.
  specialize (H y Hy). unfold WaveClassifier.classify_one.
  destruct (_ && _); exact H.
Qed.

Lemma pos_nonzero (x : Q) : 0 < x -> Qeq_bool x 0 = false.
Proof.
  intros H. apply Qeq_bool_false. intros E. rewrite E in H.
  apply (Qlt_irrefl 0 H).
Qed.

Lemma find_triples_total (self : StructuralTripleDetector.conf)
      (ws : list Wave) :
  Forall wave_guarded ws ->
  exists ts, StructuralTripleDetector.find_triples self ws = Ok ts /\
             Forall (fun t => wave_guarded (w1 t) /\ wave_guarded (w3 t)) ts.
Proof.
  intros Hg. rewrite Forall_forall in Hg.
  destruct (mapM_total (StructuralTripleDetector.triple_at self ws)
                       (seq 0 (length ws - 2))) as [ts Hts].
  - apply Forall_forall. intros i Hi. apply in_seq in Hi.
    destruct (get_ok ws i) as [a [Ha Ha']]; [lia|].
    destruct (get_ok ws (i + 1)) as [b [Hb _]]; [lia|].
    destruct (get_ok ws (i + 2)) as [c [Hc _]]; [lia|].
    unfold StructuralTripleDetector.triple_at.
    rewrite Ha, Hb, Hc. simpl.
    rewrite pydiv_ok; [simpl; eauto|].
    apply pos_nonzero.
    destruct (Hg a (nth_error_In _ _ Ha')) as [Hamp _].
    pose proof eps_pos. lra.
  - exists ts. split; [exact Hts|].
    apply Forall_forall. intros t Ht.
    destruct (mapM_In _ _ _ Hts t Ht) as [i [_ Hti]].
    apply triple_at_inv in Hti. destruct Hti as [H1 [_ [H3 _]]].
    split; apply Hg; eapply nth_error_In; eauto.
Qed.

Lemma pymax_pos (a b : Q) : 0 < a -> 0 < pymax a b.
Proof.
  intros Ha. unfold pymax. destruct (Qgtb b a) eqn:E; [|exact Ha].
  apply Qltb_lt in E. lra.
Qed.

Lemma score_total (self : QualityMetric.conf) (ts : list StructuralTriple) :
  Forall (fun t => wave_guarded (w1 t) /\ wave_guarded (w3 t)) ts ->
  exists ts', QualityMetric.score self ts = Ok ts'.
Proof.
  intros Hg. apply mapM_total.
  eapply Forall_impl; [|exact Hg]. simpl.
  intros t [[_ H1] _].
  unfold QualityMetric.score_one, QualityMetric._f_symmetry.
  rewrite pydiv_ok; [simpl; eauto|].
  apply pos_nonzero.
  pose proof (pymax_pos (duration (w1 t)) (duration (w3 t)) H1).
  pose proof eps_pos. lra.
Qed.

(** From [detect] onwards nothing raises on a non-empty column. *)
Lemma stages_total (X : Externals) (self : conf) (df : DataFrame) :
  ExtremaDetector.column df <> [] ->
  exists out,
    (extrema <- ExtremaDetector.detect (min_ext_dist self) df ;;
     waves <- WaveBuilder.build X extrema ;;
     let waves := WaveClassifier.classify (classifier self) waves in
     triples <- StructuralTripleDetector.find_triples (tripler self) waves ;;
     triples <- QualityMetric.score (metric self) triples ;;
     let '((current_phase, phase_desc), triples) :=
       PhaseModel.assign triples (Z.of_nat (length (df_close df)) - 1)%Z in
     let valid_triples := filter is_valid triples in
     Ok (mkOutput df extrema waves triples valid_triples
                  current_phase phase_desc)) = Ok out.
Proof.
  intros Hcol. rewrite (detect_ok _ _ Hcol). simpl.
  destruct (build_total X (ExtremaDetector._filter_alternating
             (ExtremaDetector.scan (min_ext_dist self)
                                   (ExtremaDetector.column df))
             (ExtremaDetector.column df)))
    as [ws [Hb _]].
  rewrite Hb. simpl.
  pose proof (classify_guarded (classifier self) ws (build_guarded _ _ _ Hb))
    as Hg.
  destruct (find_triples_total (tripler self) _ Hg) as [ts [Hts Hgt]].
  rewrite Hts. simpl.
  destruct (score_total (metric self) ts Hgt) as [ts' Hts'].
  rewrite Hts'. simpl.
  destruct (PhaseModel.assign ts' _) as [[ph d] ts'']. eauto.
Qed.

Lemma X_id_length_preserving : length_preserving X_id.
Proof. repeat split. Qed.

End Pipeline.

(** ** Claims about the pipeline *)

(** C3, as stated, fails: under the default configuration a five-point
    series makes [run] raise [ValueError], from the smoothing call. *)
Lemma run_five_points_raises :
  (5 <= length five)%nat /\
  PatternSystem.run X_id PatternSystem.default five None = Raise ValueError.
Proof. split; [simpl; lia | reflexivity]. Qed.

(** C3, amended.  [run] raises no exception on a non-empty series that,
    when the Savitzky-Golay method is used, is at least as long as the
    window length handed to the filter (11 under the default
    configuration), provided the timestamps, if given, are as many as
    the prices and the smoothing kernel returns one value per input
    value.  Building the configuration performs no check and cannot
    fail. *)
Theorem run_total (X : Externals) (self : PatternSystem.conf)
        (prices : list Q) (times : option (list Q)) :
  length_preserving X ->
  times_fit prices times ->
  prices <> [] ->
  (uses_savgol (PatternSystem.processor self) = true ->
   (DataProcessor.savgol_window (PatternSystem.processor self)
    <= Z.of_nat (length prices))%Z) ->
  exists out, PatternSystem.run X self prices times = Ok out.
Proof.
  intros HX Hfit Hne Hwin. unfold PatternSystem.run.
  destruct (load_series_ok prices times Hfit) as [ts Hload].
  rewrite Hload. simpl.
  destruct (smooth_ok X (PatternSystem.processor self)
                      (DataProcessor.mkDF ts prices None) HX Hwin) as [s Hs].
  rewrite Hs. simpl bind at 1.
  apply stages_total.
  apply smooth_inv in Hs. destruct Hs as [Hlen _]. simpl in Hlen.
  intros E. rewrite E in Hlen. simpl in Hlen.
  destruct prices; [congruence | discriminate].
Qed.

Lemma run_total_witness :
  length_preserving X_id /\
  (DataProcessor.savgol_window
     (PatternSystem.processor PatternSystem.default)
   <= Z.of_nat (length eleven))%Z /\
  exists out,
    PatternSystem.run X_id PatternSystem.default eleven None = Ok out.
Proof.
  split; [exact X_id_length_preserving|].
  split; [vm_compute; discriminate|].
  apply (run_total X_id PatternSystem.default eleven None).
  - exact X_id_length_preserving.
  - exact I.
  - discriminate.
  - intros _. vm_compute. discriminate.
Defined.



(** ** The result of a run *)

Section Output.
Import DataProcessor PatternSystem.

(** The stages behind a result of [run]. *)
Lemma run_inv (X : Externals) (self : conf) (prices : list Q)
      (times : option (list Q)) (out : Output) :
  run X self prices times = Ok out ->
  exists df0 df exs ws ts ts',
    load_series prices times = Ok df0 /\
    smooth X (processor self) df0 = Ok df /\
    ExtremaDetector.detect (min_ext_dist self) df = Ok exs /\
    WaveBuilder.build X exs = Ok ws /\
    StructuralTripleDetector.find_triples (tripler self)
      (WaveClassifier.classify (classifier self) ws) = Ok ts /\
    QualityMetric.score (metric self) ts = Ok ts' /\
    dataframe out = df /\ extrema out = exs /\
    waves out = WaveClassifier.classify (classifier self) ws /\
    PhaseModel.assign ts' (Z.of_nat (length (df_close df)) - 1)%Z
    = ((current_phase out, phase_desc out), triples out) /\
    valid_triples out = filter is_valid (triples out).
Proof.
  unfold run. intros H.
  apply bind_ok in H. destruct H as [df0 [H0 H]].
  apply bind_ok in H. destruct H as [df [H1 H]].
  apply bind_ok in H. destruct H as [exs [H2 H]].
  apply bind_ok in H. destruct H as [ws [H3 H]].
  cbv zeta in H.
  apply bind_ok in H. destruct H as [ts [H4 H]].
  apply bind_ok in H. destruct H as [ts' [H5 H]].
  destruct (PhaseModel.assign ts' _) as [[ph d] ts''] eqn:Ha.
  inversion H; subst out; clear H. simpl.
  exists df0, df, exs, ws, ts, ts'. repeat split; assumption.
Qed.

Lemma filter_valid_map (g : StructuralTriple -> StructuralTriple)
      (l : list StructuralTriple) :
  (forall t, is_valid (g t) = is_valid t) ->
  filter is_valid (map g l) = map g (filter is_valid l).
Proof.
  intros Hg. induction l as [|a l IH]; simpl; [reflexivity|].
  rewrite Hg. destruct (is_valid a); simpl; rewrite IH; reflexivity.
Qed.

Lemma recent_last_map (g : StructuralTriple -> StructuralTriple)
      (l : list StructuralTriple) :
  (forall t, w3_end (g t) = w3_end t) ->
  recent_last l -> recent_last (map g l).
Proof.
  intros Hg. induction l as [|a l IH]; simpl; [tauto|].
  intros [Ha Hl]. split; [|apply IH; exact Hl].
  apply Forall_forall. intros b Hb. apply in_map_iff in Hb.
  destruct Hb as [b0 [<- Hb0]]. rewrite !Hg.
  rewrite Forall_forall in Ha. apply Ha. exact Hb0.
Qed.

Lemma assign_valid_order (ts : list StructuralTriple) (c : Z) :
  recent_last (filter is_valid ts) ->
  recent_last (filter is_valid (snd (PhaseModel.assign ts c))).
Proof.
  intros H. unfold PhaseModel.assign.
  destruct (filter is_valid ts) as [|t0 v] eqn:Hf.
  - simpl. rewrite Hf. exact I.
  - cbv zeta.
    destruct (PhaseModel.phase_of (last (t0 :: v) t0) c) as [ph d]. simpl.
    rewrite filter_valid_map.
    + apply recent_last_map; [|rewrite Hf; exact H].
      intros t. destruct (is_valid t); reflexivity.
    + intros t. destruct (is_valid t) eqn:E; simpl; auto.
Qed.

(** What every result of [run] satisfies: the extrema alternate and carry
    their index as time, there is one wave per pair of neighbouring
    extrema, the valid triples are listed in the order of their last
    bar, and each of them meets the ratio, continuation, direction and
    quality conditions. *)
Lemma run_output_sound (X : Externals) (self : conf) (prices : list Q)
      (times : option (list Q)) (out : Output) :
  run X self prices times = Ok out ->
  alternating (extrema out) /\
  Forall time_is_index (extrema out) /\
  length (waves out) = (length (extrema out) - 1)%nat /\
  recent_last (valid_triples out) /\
  forall t, In t (valid_triples out) ->
    StructuralTripleDetector.r_min (tripler self) <= correction_ratio t /\
    correction_ratio t <= StructuralTripleDetector.r_max (tripler self) /\
    StructuralTripleDetector.alpha (tripler self) * amplitude (w1 t)
      <= amplitude (w3 t) /\
    direction (w1 t) <> direction (w2 t) /\
    QualityMetric.threshold (metric self) <= quality_score t /\
    phase t = current_phase out.
Proof.
  intros H. apply run_inv in H.
  destruct H as [df0 [df [exs [ws [ts [ts' H]]]]]].
  destruct H as [_ [_ [Hd [Hb [Hf [Hs [_ [He [Hw [Ha Hv]]]]]]]]]].
  rewrite He, Hw, Hv. clear He Hw Hv.
  split.
  { apply detect_inv in Hd. destruct Hd as [_ ->].
    apply filter_alternating_ok. }
  split; [exact (detect_time _ _ _ Hd)|].
  split.
  { destruct (build_total X exs) as [ws0 [Hb0 Hl]].
    rewrite Hb in Hb0. inversion Hb0; subst ws0.
    unfold WaveClassifier.classify.
    destruct ws; [exact Hl | rewrite length_map; exact Hl]. }
  assert (Htr : triples out
                = snd (PhaseModel.assign ts'
                         (Z.of_nat (length (df_close df)) - 1)%Z))
    by (rewrite Ha; reflexivity).
  split.
  { rewrite Htr. apply assign_valid_order.
    eapply find_triples_recent_last; eauto. }
  intros t Ht. apply filter_In in Ht. destruct Ht as [Hin Hval].
  rewrite Htr in Hin.
  destruct (assign_In _ _ _ Hin)
    as [t1 [Hin1 [E1 [E2 [E3 [ER [EQ EV]]]]]]].
  rewrite EV in Hval.
  destruct (score_valid _ _ _ t1 Hs Hin1 Hval)
    as [Hthr [t0 [Hin0 [Hv0 [F1 [F2 [F3 FR]]]]]]].
  destruct (find_triples_valid _ _ _ t0 Hf Hin0 Hv0) as [Hlo [Hhi [Hamp Hdir]]].
  rewrite E1, E2, E3, ER, EQ, F1, F2, F3, FR.
  repeat split; try assumption.
  rewrite <- EV in Hval.
  (* the phase written on the valid triples *)
  revert Hin. unfold PhaseModel.assign in *.
  destruct (filter is_valid ts') as [|v0 v] eqn:Hfl.
  - simpl. intros Hin.
    assert (Hin' : In t (filter is_valid ts'))
      by (apply filter_In; split; assumption).
    rewrite Hfl in Hin'. destruct Hin'.
  - cbv zeta in *.
    destruct (PhaseModel.phase_of (last (v0 :: v) v0) _) as [ph d].
    inversion Ha. simpl. intros Hin. apply in_map_iff in Hin.
    destruct Hin as [x [Hx _]].
    destruct (is_valid x) eqn:E; subst t; [reflexivity|].
    rewrite E in Hval. discriminate.
Qed.

End Output.

(** * Further properties *)

(** ** Extrema: where they lie *)

Section TurningPoints.
Import ExtremaDetector.

Lemma fold_left_inv {A S : Type} (f : S -> A -> S) (I : S -> Prop)
      (l : list A) :
  (forall s a, In a l -> I s -> I (f s a)) ->
  forall s, I s -> I (fold_left f l s).
Proof.
  induction l as [|a l IH]; simpl; intros Hstep s Hs; [exact Hs|].
  apply IH.
  - intros s' a' Ha'. apply Hstep. right. exact Ha'.
  - apply Hstep; [left; reflexivity | exact Hs].
Qed.

Lemma Qgtb_sub (a b : Q) : Qgtb (a - b) 0 = true <-> b < a.
Proof.
  unfold Qgtb. rewrite Qltb_lt. split; intros H; lra.
Qed.

Lemma Qltb_sub (a b : Q) : Qltb (a - b) 0 = true <-> a < b.
Proof.
  rewrite Qltb_lt. split; intros H; lra.
Qed.

Lemma scan_step_turning (md : Z) (p : list Q) (st : list Extremum * Z)
      (i : nat) :
  (1 <= i)%nat -> (S i < length p)%nat ->
  Forall (turning_point p) (fst st) ->
  Forall (turning_point p) (fst (scan_step md p st i)).
Proof.
  intros H1 H2 Hall. destruct st as [l z]. unfold scan_step.
  destruct (Z.of_nat i - z <? md)%Z; [exact Hall|].
  destruct i as [|j]; [lia|].
  destruct (Qgtb (delta p (S j)) 0 && Qltb (delta p (S (S j))) 0) eqn:Emax.
  - simpl. apply Forall_app. split; [exact Hall|].
    constructor; [|constructor].
    apply andb_true_iff in Emax. destruct Emax as [Ea Eb].
    apply Qgtb_sub in Ea. apply Qltb_sub in Eb.
    exists (S j). simpl. rewrite Nat.sub_0_r.
    repeat split; try lia; assumption.
  - destruct (Qltb (delta p (S j)) 0 && Qgtb (delta p (S (S j))) 0) eqn:Emin;
      [|exact Hall].
    simpl. apply Forall_app. split; [exact Hall|].
    constructor; [|constructor].
    apply andb_true_iff in Emin. destruct Emin as [Ea Eb].
    apply Qltb_sub in Ea. apply Qgtb_sub in Eb.
    exists (S j). simpl. rewrite Nat.sub_0_r.
    repeat split; try lia; assumption.
Qed.

Lemma scan_turning (md : Z) (p : list Q) :
  Forall (turning_point p) (scan md p).
Proof.
  unfold scan.
  apply (fold_left_inv (scan_step md p)
           (fun st => Forall (turning_point p) (fst st))).
  - intros st i Hi Hall. apply in_seq in Hi.
    apply scan_step_turning; [lia | lia | exact Hall].
  - constructor.
Qed.

End TurningPoints.

(** X1.  The extrema returned by [detect] come in strictly increasing
    bar order and never lie on the first or the last bar of the
    series. *)
Theorem detect_inner_bars (md : Z) (df : DataProcessor.DataFrame)
        (exs : list Extremum) :
  ExtremaDetector.detect md df = Ok exs ->
  increasing exs /\
  Forall (fun e => (1 <= index e
                    <= Z.of_nat (length (ExtremaDetector.column df)) - 2)%Z)
         exs.
Proof.
  intros H. split; [exact (detect_increasing _ _ _ H)|].
  apply detect_inv in H. destruct H as [_ ->].
  apply Forall_forall. intros e He.
  apply filter_alternating_incl in He.
  pose proof (scan_turning md (ExtremaDetector.column df)) as Ht.
  rewrite Forall_forall in Ht.
  destruct (Ht e He) as [i [Hi [H1 [H2 _]]]]. lia.
Qed.

Lemma detect_inner_bars_witness :
  exists exs,
    ExtremaDetector.detect 3 zigzag_frame = Ok exs /\
    increasing exs /\
    Forall (fun e =>
              (1 <= index e
               <= Z.of_nat (length (ExtremaDetector.column zigzag_frame)) - 2)%Z)
           exs.
Proof.
  eexists. split; [reflexivity|].
  apply (detect_inner_bars 3 zigzag_frame). reflexivity.
Defined.

(** X2.  Every extremum returned by [detect] carries the price of its
    bar, and that price is strictly above both neighbouring bars for a
    maximum and strictly below both for a minimum. *)
Theorem detect_strict_turning_points (md : Z) (df : DataProcessor.DataFrame)
        (exs : list Extremum) :
  ExtremaDetector.detect md df = Ok exs ->
  Forall (turning_point (ExtremaDetector.column df)) exs.
Proof.
  intros H. apply detect_inv in H. destruct H as [_ ->].
  apply Forall_forall. intros e He.
  apply filter_alternating_incl in He.
  pose proof (scan_turning md (ExtremaDetector.column df)) as Ht.
  rewrite Forall_forall in Ht. auto.
Qed.

Lemma detect_strict_turning_points_witness :
  exists exs,
    ExtremaDetector.detect 3 zigzag_frame = Ok exs /\
    Forall (turning_point (ExtremaDetector.column zigzag_frame)) exs.
Proof.
  eexists. split; [reflexivity|].
  apply (detect_strict_turning_points 3 zigzag_frame). reflexivity.
Defined.

(** ** Extrema: spacing, and a second pass *)

Section Spacing.
Import ExtremaDetector.

Lemma spaced_app (md : Z) (l : list Extremum) (x e : Extremum) :
  spaced md (l ++ [x]) -> (md <= index e - index x)%Z ->
  spaced md ((l ++ [x]) ++ [e]).
Proof.
  induction l as [|a l IH]; simpl; intros Hs Hd.
  - split; [exact Hd | exact I].
  - destruct l as [|b l']; simpl in *.
    + destruct Hs as [Hax _]. repeat split; assumption.
    + destruct Hs as [Hab Hs]. split; [assumption|]. apply IH; assumption.
Qed.

(** Dropping an entry from a list in index order keeps the spacing. *)
Lemma spaced_drop (md : Z) (l1 l2 : list Extremum) (x : Extremum) :
  increasing (l1 ++ x :: l2) -> spaced md (l1 ++ x :: l2) ->
  spaced md (l1 ++ l2).
Proof.
  induction l1 as [|a l1 IH]; simpl; intros Hinc Hs.
  - destruct l2 as [|b l2]; [exact I | destruct Hs as [_ Hs]; exact Hs].
  - destruct Hinc as [Ha Hinc].
    destruct l1 as [|b l1]; simpl in *.
    + destruct l2 as [|c l2]; [exact I|].
      destruct Hs as [Hax [Hxc Hs]]. split; [|exact Hs].
      inversion Ha as [|? ? Hlt _]; subst. lia.
    + destruct Hs as [Hab Hs]. split; [exact Hab|].
      apply IH; assumption.
Qed.

Lemma scan_step_spaced (md : Z) (p : list Q) (st : list Extremum * Z)
      (i : nat) :
  scan_spaced md st -> scan_spaced md (scan_step md p st i).
Proof.
  intros [Hs Hlast]. destruct st as [l z]. simpl in *.
  assert (Hsnoc : forall q k, (Z.of_nat i - z <? md)%Z = false ->
            scan_spaced md
              (l ++ [mkExtremum (Z.of_nat i) (inject_Z (Z.of_nat i)) q k],
               Z.of_nat i)).
  { intros q k Hd. apply Z.ltb_ge in Hd. split; simpl.
    - destruct l as [|a l0 _] using rev_ind; [exact I|].
      apply spaced_app; [exact Hs|]. simpl.
      rewrite <- (Hlast l0 a eq_refl). exact Hd.
    - intros l' x Hx. apply app_inj_tail in Hx. destruct Hx as [_ <-].
      reflexivity. }
  unfold scan_step.
  destruct (Z.of_nat i - z <? md)%Z eqn:Hd; [split; assumption|].
  repeat match goal with
         | |- context [if ?c then _ else _] =>
             destruct c; [apply Hsnoc; reflexivity|]
         end.
  split; assumption.
Qed.

Lemma scan_is_spaced (md : Z) (p : list Q) : spaced md (scan md p).
Proof.
  unfold scan.
  apply (fold_left_inv (scan_step md p) (scan_spaced md)).
  - intros st i _. apply scan_step_spaced.
  - split; simpl; [exact I|]. intros l x H. destruct l; discriminate.
Qed.

Lemma increasing_drop (l1 l2 : list Extremum) (x : Extremum) :
  increasing (l1 ++ x :: l2) -> increasing (l1 ++ l2).
Proof.
  intros Hinc.
  apply increasing_app in Hinc. destruct Hinc as [Hl [Hxr Hlr]].
  apply increasing_app. split; [assumption|]. split.
  - destruct Hxr as [_ Hxr]. exact Hxr.
  - eapply Forall_impl; [|exact Hlr]. simpl. intros a Ha.
    inversion Ha; assumption.
Qed.

Lemma filter_fold_spaced (md : Z) (rest filtered : list Extremum) :
  filtered <> [] ->
  increasing (filtered ++ rest) -> spaced md (filtered ++ rest) ->
  spaced md (fold_left filter_step rest filtered).
Proof.
  revert filtered.
  induction rest as [|e rest IH]; simpl; intros filtered Hne Hinc Hs.
  - rewrite app_nil_r in Hs. exact Hs.
  - destruct (exists_last Hne) as [l [x ->]].
    destruct (filter_step_cases l x e) as [[_ [-> | ->]] | [_ ->]].
    + rewrite <- app_assoc in Hinc, Hs. simpl in Hinc, Hs.
      apply IH; [intros H; destruct l; discriminate | |];
        rewrite <- app_assoc; simpl.
      * apply (increasing_drop l (e :: rest) x). exact Hinc.
      * apply (spaced_drop md l (e :: rest) x); assumption.
    + apply IH; [assumption | |].
      * apply (increasing_drop (l ++ [x]) rest e). exact Hinc.
      * apply (spaced_drop md (l ++ [x]) rest e); assumption.
    + apply IH; [intros H; destruct l; discriminate | |];
        rewrite <- (app_assoc (l ++ [x]) [e] rest); assumption.
Qed.

(** On a list that alternates already, every iteration appends. *)
Lemma filter_fold_alternating_id (rest filtered : list Extremum) :
  filtered <> [] -> alternating (filtered ++ rest) ->
  fold_left filter_step rest filtered = filtered ++ rest.
Proof.
  revert filtered.
  induction rest as [|e rest IH]; simpl; intros filtered Hne Halt.
  - rewrite app_nil_r. reflexivity.
  - destruct (exists_last Hne) as [l [x ->]].
    assert (Hk : kind x <> kind e).
    { clear IH Hne. rewrite <- app_assoc in Halt. simpl in Halt.
      induction l as [|a l IHl]; simpl in Halt.
      - destruct Halt as [H _]. exact H.
      - destruct l as [|b l']; simpl in *.
        + destruct Halt as [_ [H _]]. exact H.
        + destruct Halt as [_ Halt]. apply IHl. exact Halt. }
    destruct (filter_step_cases l x e) as [[Hk' _] | [_ ->]];
      [symmetry in Hk'; contradiction|].
    rewrite IH.
    + rewrite <- !app_assoc. reflexivity.
    + intros H. destruct l; discriminate.
    + rewrite <- !app_assoc. simpl. rewrite <- app_assoc in Halt. exact Halt.
Qed.

End Spacing.

(** X3.  Neighbouring extrema returned by [detect] are at least
    [min_distance] bars apart. *)
Theorem detect_min_distance (md : Z) (df : DataProcessor.DataFrame)
        (exs : list Extremum) :
  ExtremaDetector.detect md df = Ok exs -> spaced md exs.
Proof.
  intros H. apply detect_inv in H. destruct H as [_ ->].
  pose proof (scan_is_spaced md (ExtremaDetector.column df)) as Hs.
  pose proof (scan_increasing md (ExtremaDetector.column df)) as Hi.
  unfold ExtremaDetector._filter_alternating.
  destruct (ExtremaDetector.scan md (ExtremaDetector.column df))
    as [|e0 rest]; [exact I|].
  apply filter_fold_spaced; [discriminate | exact Hi | exact Hs].
Qed.

Lemma detect_min_distance_witness :
  exists exs,
    ExtremaDetector.detect 3 zigzag_frame = Ok exs /\ spaced 3 exs.
Proof.
  eexists. split; [reflexivity|].
  apply (detect_min_distance 3 zigzag_frame). reflexivity.
Defined.

(** X4.  The alternation pass leaves an alternating list unchanged, so a
    second pass over its own result changes nothing. *)
Theorem filter_alternating_idempotent (l : list Extremum) (p : list Q) :
  (alternating l -> ExtremaDetector._filter_alternating l p = l) /\
  ExtremaDetector._filter_alternating
    (ExtremaDetector._filter_alternating l p) p
  = ExtremaDetector._filter_alternating l p.
Proof.
  assert (Hid : forall l0, alternating l0 ->
                  ExtremaDetector._filter_alternating l0 p = l0).
  { intros l0 H0. destruct l0 as [|e0 rest]; [reflexivity|].
    unfold ExtremaDetector._filter_alternating.
    apply (filter_fold_alternating_id rest [e0]); [discriminate | exact H0]. }
  split; [apply Hid|].
  apply Hid. apply filter_alternating_ok.
Qed.

(** ** Waves: position, contiguity and guards *)

(** X5.  The wave at position [j] of the list returned by [build] has
    [idx = j], starts at extremum [j] and ends at extremum [j + 1]; so
    each wave starts at the extremum at which the wave before it
    ends. *)
Theorem build_contiguous (X : Externals) (exs : list Extremum)
        (ws : list Wave) :
  WaveBuilder.build X exs = Ok ws ->
  (forall j w, nth_error ws j = Some w ->
     idx w = Z.of_nat j /\
     nth_error exs j = Some (start w) /\
     nth_error exs (S j) = Some (end_ w)) /\
  (forall j w w', nth_error ws j = Some w -> nth_error ws (S j) = Some w' ->
     start w' = end_ w).
Proof.
  intros Hb.
  assert (Hpos : forall j w, nth_error ws j = Some w ->
            idx w = Z.of_nat j /\ nth_error exs j = Some (start w) /\
            nth_error exs (S j) = Some (end_ w)).
  { intros j w Hj. destruct (mapM_nth _ _ _ Hb j w Hj) as [k [Hk Hw]].
    apply nth_error_seq0 in Hk. subst k.
    apply wave_at_inv in Hw.
    destruct Hw as [s [e [Hs [He ->]]]]. simpl. auto. }
  split; [exact Hpos|].
  intros j w w' Hj Hj'.
  destruct (Hpos j w Hj) as [_ [_ He]].
  destruct (Hpos (S j) w' Hj') as [_ [Hs _]].
  congruence.
Qed.

Lemma build_contiguous_witness :
  exists exs ws,
    ExtremaDetector.detect 3 zigzag_frame = Ok exs /\
    WaveBuilder.build X_id exs = Ok ws /\
    (forall j w, nth_error ws j = Some w ->
       idx w = Z.of_nat j /\
       nth_error exs j = Some (start w) /\
       nth_error exs (S j) = Some (end_ w)) /\
    (forall j w w', nth_error ws j = Some w -> nth_error ws (S j) = Some w' ->
       start w' = end_ w).
Proof.
  do 2 eexists. split; [reflexivity|]. split; [reflexivity|].
  apply (build_contiguous X_id). reflexivity.
Defined.

(** X6.  Every wave returned by [build] has a non-negative amplitude and
    velocity and a strictly positive duration (a zero time difference is
    replaced by 1e-9), goes up exactly when its end price is strictly
    above its start price, so that a flat wave counts as down, and is
    not yet classified. *)
Theorem build_wave_fields (X : Externals) (exs : list Extremum)
        (ws : list Wave) :
  WaveBuilder.build X exs = Ok ws ->
  Forall (fun w =>
            amplitude w = Qabs (price (end_ w) - price (start w)) /\
            0 <= amplitude w /\ 0 < duration w /\
            velocity w = amplitude w / duration w /\ 0 <= velocity w /\
            (direction w = Up <-> price (start w) < price (end_ w)) /\
            wave_type w = Unknown) ws.
Proof.
  intros Hb. apply Forall_forall. intros w Hw.
  destruct (build_In _ _ _ _ Hb Hw) as [j [s [e [_ [_ ->]]]]].
  pose proof (wave_of_guarded X j s e) as [Hamp Hdur].
  unfold wave_of in *. cbn [amplitude duration velocity direction wave_type
                            start end_] in *.
  repeat split; try assumption.
  - apply Qle_shift_div_l; [exact Hdur | lra].
  - destruct (Qgtb (price e) (price s)) eqn:E; [|discriminate].
    intros _. apply Qltb_lt. exact E.
  - intros Hlt. apply Qltb_lt in Hlt. unfold Qgtb. rewrite Hlt. reflexivity.
Qed.

Lemma build_wave_fields_witness :
  WaveBuilder.build X_id flat_pair
  = Ok [mkWave 0 (mkExtremum 2 5 7 Kmax) (mkExtremum 4 5 7 Kmin)
               (Qabs (7 - 7)) eps (Qabs (7 - 7) / eps) (Qabs (7 - 7) / eps)
               Down Unknown] /\
  Forall (fun w =>
            amplitude w = Qabs (price (end_ w) - price (start w)) /\
            0 <= amplitude w /\ 0 < duration w /\
            velocity w = amplitude w / duration w /\ 0 <= velocity w /\
            (direction w = Up <-> price (start w) < price (end_ w)) /\
            wave_type w = Unknown)
         [mkWave 0 (mkExtremum 2 5 7 Kmax) (mkExtremum 4 5 7 Kmin)
                 (Qabs (7 - 7)) eps (Qabs (7 - 7) / eps) (Qabs (7 - 7) / eps)
                 Down Unknown].
Proof.
  split; [reflexivity|].
  apply (build_wave_fields X_id flat_pair). reflexivity.
Defined.

(** ** Classification *)

Section Classification.
Import WaveClassifier.

Lemma classify_one_fields (self : conf) (a v : Q) (w : Wave) :
  classify_one self a v w = set_wave_type w Impulse \/
  classify_one self a v w = set_wave_type w Correction.
Proof.
  unfold classify_one. destruct (_ && _); [left | right]; reflexivity.
Qed.

Lemma classify_one_again (self : conf) (a v : Q) (w : Wave) (t : wtype) :
  classify_one self a v (set_wave_type w t) = classify_one self a v w.
Proof.
  unfold classify_one. simpl. destruct (_ && _); reflexivity.
Qed.

Lemma classify_map_amplitude (self : conf) (ws : list Wave) :
  map amplitude (classify self ws) = map amplitude ws.
Proof.
  unfold classify. destruct ws as [|w ws']; [reflexivity|].
  rewrite map_map. apply map_ext. intros x.
  destruct (classify_one_fields self
              (np_mean (map amplitude (w :: ws')))
              (np_mean (map velocity (w :: ws'))) x) as [-> | ->];
    reflexivity.
Qed.

Lemma classify_map_velocity (self : conf) (ws : list Wave) :
  map velocity (classify self ws) = map velocity ws.
Proof.
  unfold classify. destruct ws as [|w ws']; [reflexivity|].
  rewrite map_map. apply map_ext. intros x.
  destruct (classify_one_fields self
              (np_mean (map amplitude (w :: ws')))
              (np_mean (map velocity (w :: ws'))) x) as [-> | ->];
    reflexivity.
Qed.

End Classification.

(** X7.  [classify] returns as many waves as it is given, changes
    nothing but their [wave_type], and leaves none unclassified: each
    wave becomes an impulse or a correction. *)
Theorem classify_only_types (self : WaveClassifier.conf) (ws : list Wave) :
  Forall2 (fun w w' => w' = set_wave_type w Impulse \/
                       w' = set_wave_type w Correction)
          ws (WaveClassifier.classify self ws) /\
  length (WaveClassifier.classify self ws) = length ws /\
  Forall (fun w' => wave_type w' <> Unknown)
         (WaveClassifier.classify self ws).
Proof.
  assert (H2 : Forall2 (fun w w' => w' = set_wave_type w Impulse \/
                                    w' = set_wave_type w Correction)
                       ws (WaveClassifier.classify self ws)).
  { unfold WaveClassifier.classify. destruct ws as [|w0 ws0]; [constructor|].
    generalize (np_mean (map amplitude (w0 :: ws0))) as a.
    generalize (np_mean (map velocity (w0 :: ws0))) as v.
    intros v a. induction (w0 :: ws0) as [|x l IH]; simpl; constructor.
    - apply classify_one_fields.
    - exact IH. }
  split; [exact H2|]. split.
  - symmetry. eapply Forall2_length. exact H2.
  - induction H2 as [|w w' l l' Hw _ IH]; constructor; [|exact IH].
    destruct Hw as [-> | ->]; simpl; discriminate.
Qed.

(** X8.  [classify] is idempotent: the means are taken over amplitudes
    and velocities, which it does not change, so classifying a
    classified list again gives the same list. *)
Theorem classify_idempotent (self : WaveClassifier.conf) (ws : list Wave) :
  WaveClassifier.classify self (WaveClassifier.classify self ws)
  = WaveClassifier.classify self ws.
Proof.
  destruct ws as [|w ws']; [reflexivity|].
  pose proof (classify_map_amplitude self (w :: ws')) as Ha.
  pose proof (classify_map_velocity self (w :: ws')) as Hv.
  remember (WaveClassifier.classify self (w :: ws')) as cs eqn:Hcs.
  destruct cs as [|c cs'].
  { unfold WaveClassifier.classify in Hcs. discriminate. }
  unfold WaveClassifier.classify at 1. rewrite Ha, Hv.
  rewrite Hcs. unfold WaveClassifier.classify.
  rewrite map_map. apply map_ext. intros x.
  destruct (classify_one_fields self
              (np_mean (map amplitude (w :: ws')))
              (np_mean (map velocity (w :: ws'))) x) as [E | E];
    rewrite E at 1; rewrite classify_one_again; reflexivity.
Qed.

(** ** Structural triples: windows and validity *)

Section Windows.
Import StructuralTripleDetector.

Lemma wtype_eqb_eq (a b : wtype) : wtype_eqb a b = true <-> a = b.
Proof. destruct a, b; simpl; split; congruence. Qed.

(** What [triple_at] builds when it returns. *)
Lemma triple_at_fields (self : conf) (waves : list Wave) (i : nat)
      (t : StructuralTriple) :
  triple_at self waves i = Ok t ->
  correction_ratio t = amplitude (w2 t) / (amplitude (w1 t) + eps) /\
  quality_score t = 0 /\ phase t = 0%Z /\
  is_valid t =
    (if dir_eqb (direction (w1 t)) (direction (w2 t)) then false
     else wtype_eqb (wave_type (w1 t)) Impulse &&
          wtype_eqb (wave_type (w2 t)) Correction &&
          wtype_eqb (wave_type (w3 t)) Impulse &&
          Qgeb (amplitude (w3 t)) (alpha self * amplitude (w1 t)) &&
          (Qle_bool (r_min self) (correction_ratio t) &&
           Qle_bool (correction_ratio t) (r_max self))).
Proof.
  intros H. unfold triple_at in H.
  apply bind_ok in H. destruct H as [a [_ H]].
  apply bind_ok in H. destruct H as [b [_ H]].
  apply bind_ok in H. destruct H as [c [_ H]].
  apply bind_ok in H. destruct H as [R [HR H]].
  unfold pydiv in HR. destruct (Qeq_bool (amplitude a + eps) 0); [discriminate|].
  inversion HR; subst R. inversion H; subst t; clear H. simpl.
  repeat split.
Qed.

End Windows.

(** X9.  On waves of non-negative amplitude [find_triples] does not
    raise and returns one triple per window of three neighbouring waves,
    [max(len(waves) - 2, 0)] in all; the triple at position [i] holds
    waves [i], [i + 1] and [i + 2], the ratio
    [w2.amplitude / (w1.amplitude + 1e-9)], score 0 and phase 0. *)
Theorem find_triples_windows (self : StructuralTripleDetector.conf)
        (waves : list Wave) :
  Forall (fun w => 0 <= amplitude w) waves ->
  exists ts,
    StructuralTripleDetector.find_triples self waves = Ok ts /\
    Z.of_nat (length ts) = Z.max (Z.of_nat (length waves) - 2) 0 /\
    forall i t, nth_error ts i = Some t ->
      nth_error waves i = Some (w1 t) /\
      nth_error waves (i + 1) = Some (w2 t) /\
      nth_error waves (i + 2) = Some (w3 t) /\
      correction_ratio t = amplitude (w2 t) / (amplitude (w1 t) + eps) /\
      quality_score t = 0 /\ phase t = 0%Z.
Proof.
  intros Hamp. rewrite Forall_forall in Hamp.
  destruct (mapM_total (StructuralTripleDetector.triple_at self waves)
                       (seq 0 (length waves - 2))) as [ts Hts].
  { apply Forall_forall. intros i Hi. apply in_seq in Hi.
    destruct (get_ok waves i) as [a [Ha Ha']]; [lia|].
    destruct (get_ok waves (i + 1)) as [b [Hb _]]; [lia|].
    destruct (get_ok waves (i + 2)) as [c [Hc _]]; [lia|].
    unfold StructuralTripleDetector.triple_at.
    rewrite Ha, Hb, Hc. simpl.
    rewrite pydiv_ok; [simpl; eauto|].
    apply pos_nonzero.
    pose proof (Hamp a (nth_error_In _ _ Ha')). pose proof eps_pos. lra. }
  exists ts. split; [exact Hts|]. split.
  { apply mapM_length in Hts. rewrite Hts, length_seq. lia. }
  intros i t Hi.
  destruct (mapM_nth _ _ _ Hts i t Hi) as [k [Hk Ht]].
  apply nth_error_seq0 in Hk. subst k.
  destruct (triple_at_inv _ _ _ _ Ht) as [H1 [H2 [H3 _]]].
  destruct (triple_at_fields _ _ _ _ Ht) as [HR [Hq [Hp _]]].
  repeat split; assumption.
Qed.

Lemma find_triples_windows_witness :
  exists ts,
    StructuralTripleDetector.find_triples StructuralTripleDetector.default
      golden_waves = Ok ts /\
    Z.of_nat (length ts) = Z.max (Z.of_nat (length golden_waves) - 2) 0 /\
    forall i t, nth_error ts i = Some t ->
      nth_error golden_waves i = Some (w1 t) /\
      nth_error golden_waves (i + 1) = Some (w2 t) /\
      nth_error golden_waves (i + 2) = Some (w3 t) /\
      correction_ratio t = amplitude (w2 t) / (amplitude (w1 t) + eps) /\
      quality_score t = 0 /\ phase t = 0%Z.
Proof.
  apply (find_triples_windows StructuralTripleDetector.default golden_waves).
  repeat constructor; discriminate.
Defined.

(** X10.  A triple returned by [find_triples] is marked valid exactly
    when its waves are impulse, correction, impulse, the third is at
    least [alpha] times as large as the first, the ratio lies in
    [[r_min, r_max]], and the first two waves go in different
    directions. *)
Theorem find_triples_valid_iff (self : StructuralTripleDetector.conf)
        (waves : list Wave) (ts : list StructuralTriple)
        (t : StructuralTriple) :
  StructuralTripleDetector.find_triples self waves = Ok ts -> In t ts ->
  (is_valid t = true <->
   wave_type (w1 t) = Impulse /\ wave_type (w2 t) = Correction /\
   wave_type (w3 t) = Impulse /\
   StructuralTripleDetector.alpha self * amplitude (w1 t)
     <= amplitude (w3 t) /\
   StructuralTripleDetector.r_min self <= correction_ratio t /\
   correction_ratio t <= StructuralTripleDetector.r_max self /\
   direction (w1 t) <> direction (w2 t)).
Proof.
  intros Hf Hin.
  destruct (mapM_In _ _ _ Hf t Hin) as [i [_ Hti]].
  split.
  - apply triple_at_inv in Hti. destruct Hti as [_ [_ [_ H]]]. exact H.
  - intros [T1 [T2 [T3 [Ha [Hlo [Hhi Hd]]]]]].
    destruct (triple_at_fields _ _ _ _ Hti) as [_ [_ [_ ->]]].
    apply dir_eqb_neq in Hd. rewrite Hd, T1, T2, T3. simpl.
    apply Qgeb_ge in Ha. rewrite Ha.
    apply Qle_bool_iff in Hlo, Hhi. rewrite Hlo, Hhi. reflexivity.
Qed.

Lemma find_triples_valid_iff_witness :
  is_valid golden_triple = true <->
  wave_type (w1 golden_triple) = Impulse /\
  wave_type (w2 golden_triple) = Correction /\
  wave_type (w3 golden_triple) = Impulse /\
  StructuralTripleDetector.alpha StructuralTripleDetector.default
    * amplitude (w1 golden_triple) <= amplitude (w3 golden_triple) /\
  StructuralTripleDetector.r_min StructuralTripleDetector.default
    <= correction_ratio golden_triple /\
  correction_ratio golden_triple
    <= StructuralTripleDetector.r_max StructuralTripleDetector.default /\
  direction (w1 golden_triple) <> direction (w2 golden_triple).
Proof.
  apply (find_triples_valid_iff StructuralTripleDetector.default
           golden_waves [golden_triple] golden_triple).
  - reflexivity.
  - left. reflexivity.
Defined.

(** X11.  Two neighbouring windows are never both valid: the middle wave
    of the first is the first wave of the second, and it cannot be a
    correction and an impulse at once. *)
Theorem find_triples_no_neighbours (self : StructuralTripleDetector.conf)
        (waves : list Wave) (ts : list StructuralTriple) (i : nat)
        (t t' : StructuralTriple) :
  StructuralTripleDetector.find_triples self waves = Ok ts ->
  nth_error ts i = Some t -> nth_error ts (S i) = Some t' ->
  is_valid t = true -> is_valid t' = false.
Proof.
  intros Hf Hi Hi' Hv.
  destruct (mapM_nth _ _ _ Hf i t Hi) as [k [Hk Ht]].
  apply nth_error_seq0 in Hk. subst k.
  destruct (mapM_nth _ _ _ Hf (S i) t' Hi') as [k [Hk Ht']].
  apply nth_error_seq0 in Hk. subst k.
  apply triple_at_inv in Ht, Ht'.
  destruct Ht as [_ [H2 [_ Hval]]]. destruct Ht' as [H1' [_ [_ Hval']]].
  replace (i + 1)%nat with (S i) in H2 by lia.
  assert (E : w2 t = w1 t') by congruence.
  destruct (Hval Hv) as [_ [Hc _]].
  destruct (is_valid t') eqn:Hv'; [|reflexivity].
  destruct (Hval' eq_refl) as [Himp _]. congruence.
Qed.

Lemma find_triples_no_neighbours_witness :
  exists ts t t',
    StructuralTripleDetector.find_triples StructuralTripleDetector.default
      four_waves = Ok ts /\
    nth_error ts 0 = Some t /\ nth_error ts 1 = Some t' /\
    is_valid t = true /\ is_valid t' = false.
Proof.
  do 3 eexists.
  assert (Hf : StructuralTripleDetector.find_triples
                 StructuralTripleDetector.default four_waves
               = Ok [golden_triple;
                     mkTriple gw2 gw3 gw4 (100 / ((618 # 10) + eps)) 0 0 false])
    by reflexivity.
  split; [exact Hf|]. split; [reflexivity|]. split; [reflexivity|].
  split; [reflexivity|].
  apply (find_triples_no_neighbours _ _ _ 0 golden_triple _ Hf);
    reflexivity.
Defined.

(** ** Quality: the three sub-scores and the composite *)

Section SubScores.
Import QualityMetric.

Lemma Qabs_zero (x : Q) : Qabs x == 0 <-> x == 0.
Proof.
  split.
  - apply Qabs_case; intros; lra.
  - intros ->. reflexivity.
Qed.

Lemma pymax_ge (a b : Q) : a <= pymax a b /\ b <= pymax a b.
Proof.
  unfold pymax. destruct (Qgtb b a) eqn:E.
  - apply Qltb_lt in E. lra.
  - unfold Qgtb in E. apply Qltb_ge in E. lra.
Qed.

Lemma f_ratio_range (t : StructuralTriple) :
  0 <= _f_ratio t /\ _f_ratio t <= 1 /\
  (_f_ratio t == 1 <-> correction_ratio t == 618 # 1000).
Proof.
  unfold _f_ratio. cbv zeta.
  destruct (Qle_bool (3 # 10) (correction_ratio t)
            && Qle_bool (correction_ratio t) (8 # 10)) eqn:Eband.
  - apply andb_true_iff in Eband. destruct Eband as [Hlo Hhi].
    apply Qle_bool_iff in Hlo, Hhi.
    assert (Ha : Qabs (correction_ratio t - (618 # 1000)) <= 318 # 1000)
      by (apply Qabs_case; intros; lra).
    pose proof (Qabs_nonneg (correction_ratio t - (618 # 1000))) as Hn.
    unfold Qdiv. change (/ (318 # 1000)) with (1000 # 318).
    split; [lra|]. split; [lra|]. split.
    + intros H1.
      assert (H0 : Qabs (correction_ratio t - (618 # 1000)) == 0) by lra.
      apply (proj1 (Qabs_zero _)) in H0. lra.
    + intros HR.
      assert (H0 : Qabs (correction_ratio t - (618 # 1000)) == 0)
        by (apply Qabs_zero; lra).
      lra.
  - assert (Hout : ~ (3 # 10 <= correction_ratio t
                      /\ correction_ratio t <= 8 # 10)).
    { intros [Hlo Hhi]. apply Qle_bool_iff in Hlo, Hhi.
      rewrite Hlo, Hhi in Eband. discriminate. }
    pose proof (Qabs_nonneg (correction_ratio t - (55 # 100))) as Hn.
    unfold Qdiv. change (/ (55 # 100)) with (100 # 55).
    unfold pymax.
    destruct (Qgtb (1 - Qabs (correction_ratio t - (55 # 100)) * (100 # 55)) 0)
      eqn:E.
    + unfold Qgtb in E. apply Qltb_lt in E.
      split; [lra|]. split; [lra|]. split.
      * intros H1.
        assert (H0 : Qabs (correction_ratio t - (55 # 100)) == 0) by lra.
        apply (proj1 (Qabs_zero _)) in H0. exfalso. apply Hout. lra.
      * intros HR. exfalso. apply Hout. lra.
    + split; [lra|]. split; [lra|]. split.
      * intros H1. lra.
      * intros HR. exfalso. apply Hout. lra.
Qed.

Lemma f_symmetry_range (t : StructuralTriple) :
  0 < duration (w1 t) -> 0 < duration (w3 t) ->
  exists v, _f_symmetry t = Ok v /\ 0 < v /\ v <= 1 /\
            (v == 1 <-> duration (w1 t) == duration (w3 t)).
Proof.
  intros H1 H3. unfold _f_symmetry. cbv zeta.
  set (t1 := duration (w1 t)) in *. set (t3 := duration (w3 t)) in *.
  pose proof (pymax_ge t1 t3) as [Hm1 Hm3].
  pose proof eps_pos as He.
  set (d := pymax t1 t3 + eps) in *.
  assert (Hd : 0 < d) by (unfold d; lra).
  rewrite pydiv_ok by (apply pos_nonzero; exact Hd). cbn [bind].
  eexists. split; [reflexivity|].
  set (a := Qabs (t1 - t3)).
  assert (Ha0 : 0 <= a) by apply Qabs_nonneg.
  assert (Ha1 : a < d).
  { unfold a, d. apply Qabs_case; intros; lra. }
  assert (Hq0 : 0 <= a / d).
  { apply Qle_shift_div_l; [exact Hd | lra]. }
  assert (Hq1 : a / d < 1).
  { apply Qlt_shift_div_r; [exact Hd | lra]. }
  split; [lra|]. split; [lra|]. split.
  - intros Hv. assert (Hz : a / d == 0) by lra.
    assert (Ha : a == 0).
    { rewrite <- (Qmult_div_r a d) by lra. rewrite Hz. ring. }
    unfold a in Ha. apply (proj1 (Qabs_zero _)) in Ha. lra.
  - intros Heq. assert (Ha : a == 0) by (unfold a; apply Qabs_zero; lra).
    rewrite Ha. unfold Qdiv. lra.
Qed.

Lemma f_slope_values (t : StructuralTriple) :
  0 <= _f_slope t /\ _f_slope t <= 1 /\
  (direction (w1 t) <> direction (w2 t) -> 1 # 2 <= _f_slope t) /\
  (_f_slope t == 1 <->
   direction (w1 t) = direction (w3 t) /\
   direction (w2 t) <> direction (w1 t)).
Proof.
  unfold _f_slope. cbv zeta.
  destruct (direction (w1 t)), (direction (w2 t)), (direction (w3 t));
    simpl; repeat split; try discriminate; try congruence;
    try (intros [? ?]; congruence);
    try (intros H; exfalso; revert H; compute; congruence);
    try (intros; compute; congruence).
Qed.

End SubScores.

(** X12.  For a triple whose first and third wave have a positive
    duration, the three sub-scores lie between 0 and 1.  The ratio-fit is
    1 exactly when the correction ratio is 0.618, the symmetry-fit is 1
    exactly when the two durations are equal and is never 0, and the
    slope-fit is 1 exactly when [w1] and [w3] go the same way and [w2]
    the other way. *)
Theorem sub_scores_range (t : StructuralTriple) :
  0 < duration (w1 t) -> 0 < duration (w3 t) ->
  (0 <= QualityMetric._f_ratio t /\ QualityMetric._f_ratio t <= 1 /\
   (QualityMetric._f_ratio t == 1 <-> correction_ratio t == 618 # 1000)) /\
  (exists v, QualityMetric._f_symmetry t = Ok v /\ 0 < v /\ v <= 1 /\
             (v == 1 <-> duration (w1 t) == duration (w3 t))) /\
  (0 <= QualityMetric._f_slope t /\ QualityMetric._f_slope t <= 1 /\
   (QualityMetric._f_slope t == 1 <->
    direction (w1 t) = direction (w3 t) /\
    direction (w2 t) <> direction (w1 t))).
Proof.
  intros H1 H3. split; [apply f_ratio_range|]. split.
  - apply f_symmetry_range; assumption.
  - destruct (f_slope_values t) as [S0 [S1 [_ S2]]]. auto.
Qed.

Lemma sub_scores_range_witness :
  (0 <= QualityMetric._f_ratio golden_triple /\
   QualityMetric._f_ratio golden_triple <= 1 /\
   (QualityMetric._f_ratio golden_triple == 1
    <-> correction_ratio golden_triple == 618 # 1000)) /\
  (exists v, QualityMetric._f_symmetry golden_triple = Ok v /\
             0 < v /\ v <= 1 /\
             (v == 1 <-> duration (w1 golden_triple)
                         == duration (w3 golden_triple))) /\
  (0 <= QualityMetric._f_slope golden_triple /\
   QualityMetric._f_slope golden_triple <= 1 /\
   (QualityMetric._f_slope golden_triple == 1 <->
    direction (w1 golden_triple) = direction (w3 golden_triple) /\
    direction (w2 golden_triple) <> direction (w1 golden_triple))).
Proof.
  apply (sub_scores_range golden_triple); reflexivity.
Defined.

(** X13.  With non-negative weights, [score] does not raise on triples
    whose first and third wave have a positive duration, and gives every
    triple a quality score between 0 and the sum of the weights: between
    0 and 1 with weights summing to 1. *)
Theorem score_bounds (self : QualityMetric.conf)
        (ts : list StructuralTriple) :
  0 <= QualityMetric.qw1 self -> 0 <= QualityMetric.qw2 self ->
  0 <= QualityMetric.qw3 self ->
  Forall (fun t => 0 < duration (w1 t) /\ 0 < duration (w3 t)) ts ->
  exists ts',
    QualityMetric.score self ts = Ok ts' /\
    Forall (fun t' => 0 <= quality_score t' /\
                      quality_score t'
                      <= QualityMetric.qw1 self + QualityMetric.qw2 self
                         + QualityMetric.qw3 self) ts'.
Proof.
  intros W1 W2 W3 Hd.
  destruct (mapM_total (QualityMetric.score_one self) ts) as [ts' Hts'].
  { eapply Forall_impl; [|exact Hd]. simpl. intros t [D1 D3].
    destruct (f_symmetry_range t D1 D3) as [v [Hv _]].
    unfold QualityMetric.score_one. rewrite Hv. simpl. eauto. }
  exists ts'. split; [exact Hts'|].
  apply Forall_forall. intros t' Hin.
  destruct (mapM_In _ _ _ Hts' t' Hin) as [t [Ht Hsc]].
  rewrite Forall_forall in Hd. destruct (Hd t Ht) as [D1 D3].
  destruct (f_symmetry_range t D1 D3) as [v [Hv [V0 [V1 _]]]].
  destruct (f_ratio_range t) as [R0 [R1 _]].
  destruct (f_slope_values t) as [S0 [S1 _]].
  unfold QualityMetric.score_one in Hsc. rewrite Hv in Hsc. simpl in Hsc.
  inversion Hsc; subst t'; clear Hsc. cbn [quality_score set_quality].
  split; nra.
Qed.

Lemma score_bounds_witness :
  exists ts',
    QualityMetric.score QualityMetric.default [golden_triple] = Ok ts' /\
    Forall (fun t' => 0 <= quality_score t' /\
                      quality_score t'
                      <= QualityMetric.qw1 QualityMetric.default
                         + QualityMetric.qw2 QualityMetric.default
                         + QualityMetric.qw3 QualityMetric.default) ts'.
Proof.
  apply (score_bounds QualityMetric.default [golden_triple]);
    try discriminate.
  repeat constructor.
Defined.

Lemma score_one_again (self : QualityMetric.conf) (t t' : StructuralTriple) :
  QualityMetric.score_one self t = Ok t' ->
  QualityMetric.score_one self t' = Ok t'.
Proof.
  unfold QualityMetric.score_one. intros H.
  apply bind_ok in H. destruct H as [fs [Hfs H]].
  inversion H; subst t'; clear H.
  change (QualityMetric._f_symmetry (set_quality t ?[s] ?[v]))
    with (QualityMetric._f_symmetry t).
  rewrite Hfs. cbn [bind].
  change (QualityMetric._f_ratio (set_quality t ?[s1] ?[v1]))
    with (QualityMetric._f_ratio t).
  change (QualityMetric._f_slope (set_quality t ?[s2] ?[v2]))
    with (QualityMetric._f_slope t).
  unfold set_quality. cbn [w1 w2 w3 correction_ratio phase is_valid].
  destruct (Qltb _ (QualityMetric.threshold self)); reflexivity.
Qed.

(** X14.  [score] touches only [quality_score] and [is_valid]: waves,
    ratio and phase stay, a triple is valid afterwards exactly when it
    was valid before and its score is not below the threshold, so an
    invalid triple never becomes valid; and scoring the result again
    changes nothing. *)
Theorem score_only_clears (self : QualityMetric.conf)
        (ts ts' : list StructuralTriple) :
  QualityMetric.score self ts = Ok ts' ->
  Forall2 (fun t t' =>
             w1 t' = w1 t /\ w2 t' = w2 t /\ w3 t' = w3 t /\
             correction_ratio t' = correction_ratio t /\
             phase t' = phase t /\
             is_valid t'
             = is_valid t
               && negb (Qltb (quality_score t') (QualityMetric.threshold self)))
          ts ts' /\
  QualityMetric.score self ts' = Ok ts'.
Proof.
  intros Hs. apply mapM_Forall2 in Hs.
  induction Hs as [|t t' l l' Ht _ [IH1 IH2]].
  - split; [constructor | reflexivity].
  - split.
    + constructor; [|exact IH1].
      unfold QualityMetric.score_one in Ht.
      apply bind_ok in Ht. destruct Ht as [fs [_ Ht]].
      inversion Ht; subst t'; clear Ht.
      cbn [w1 w2 w3 correction_ratio phase is_valid quality_score set_quality].
      repeat split.
      destruct (Qltb _ (QualityMetric.threshold self)), (is_valid t);
        reflexivity.
    + unfold QualityMetric.score in *. cbn [mapM].
      rewrite (score_one_again self t t' Ht). cbn [bind].
      rewrite IH2. reflexivity.
Qed.

Lemma score_only_clears_witness :
  exists ts',
    QualityMetric.score QualityMetric.default [golden_triple] = Ok ts' /\
    Forall2 (fun t t' =>
               w1 t' = w1 t /\ w2 t' = w2 t /\ w3 t' = w3 t /\
               correction_ratio t' = correction_ratio t /\
               phase t' = phase t /\
               is_valid t'
               = is_valid t
                 && negb (Qltb (quality_score t')
                               (QualityMetric.threshold QualityMetric.default)))
            [golden_triple] ts' /\
    QualityMetric.score QualityMetric.default ts' = Ok ts'.
Proof.
  eexists. split; [reflexivity|].
  apply (score_only_clears QualityMetric.default [golden_triple]).
  reflexivity.
Defined.

(** ** Phase model: what [assign] writes *)

Section PhaseStore.
Import PhaseModel.

Lemma filter_nil_iff (ts : list StructuralTriple) :
  filter is_valid ts = [] <-> (forall t, In t ts -> is_valid t = false).
Proof.
  split.
  - intros Hf t Hin. destruct (is_valid t) eqn:E; [|reflexivity].
    assert (Hin' : In t (filter is_valid ts))
      by (apply filter_In; split; assumption).
    rewrite Hf in Hin'. destruct Hin'.
  - intros Hall. induction ts as [|a ts IH]; simpl; [reflexivity|].
    rewrite (Hall a) by (left; reflexivity).
    apply IH. intros t Ht. apply Hall. right. exact Ht.
Qed.

Lemma phase_of_range (lst : StructuralTriple) (c : Z) :
  (1 <= fst (phase_of lst c) <= 3)%Z.
Proof.
  unfold phase_of. cbv zeta.
  repeat match goal with
         | |- context [if ?b then _ else _] => destruct b
         end; simpl; lia.
Qed.

Lemma phase_of_set_phase (t : StructuralTriple) (ph c : Z) :
  phase_of (if is_valid t then set_phase t ph else t) c = phase_of t c.
Proof. destruct (is_valid t); reflexivity. Qed.

Lemma last_map_default {A B : Type} (g : A -> B) (l : list A) (d : A) :
  last (map g l) (g d) = g (last l d).
Proof.
  induction l as [|a l IH]; simpl; [reflexivity|].
  destruct l as [|b l']; [reflexivity|]. exact IH.
Qed.

(** The two cases of [assign]. *)
Lemma assign_cases (ts : list StructuralTriple) (c : Z) :
  (filter is_valid ts = [] /\ assign ts c = ((0%Z, desc0), ts)) \/
  (exists t0 v, filter is_valid ts = t0 :: v /\
     assign ts c
     = (phase_of (last (t0 :: v) t0) c,
        map (fun t => if is_valid t
                      then set_phase t (fst (phase_of (last (t0 :: v) t0) c))
                      else t) ts)).
Proof.
  unfold assign. destruct (filter is_valid ts) as [|t0 v].
  - left. split; reflexivity.
  - right. exists t0, v. split; [reflexivity|]. cbv zeta.
    destruct (phase_of (last (t0 :: v) t0) c) as [ph d]. reflexivity.
Qed.

End PhaseStore.

(** X15.  Whatever the order of the list, [assign] returns phase 0
    exactly when no triple is valid and otherwise a phase from 1 to 3,
    and the list after the call is the list before it with the returned
    phase written on every valid triple; invalid triples, and every
    other field, are untouched. *)
Theorem assign_store (ts : list StructuralTriple) (c : Z) :
  (fst (fst (PhaseModel.assign ts c)) = 0%Z
   <-> forall t, In t ts -> is_valid t = false) /\
  (0 <= fst (fst (PhaseModel.assign ts c)) <= 3)%Z /\
  snd (PhaseModel.assign ts c)
  = map (fun t => if is_valid t
                  then set_phase t (fst (fst (PhaseModel.assign ts c)))
                  else t) ts.
Proof.
  destruct (assign_cases ts c) as [[Hf ->] | [t0 [v [Hf ->]]]]; cbn [fst snd].
  - pose proof (proj1 (filter_nil_iff ts) Hf) as Hnone.
    split; [tauto|]. split; [lia|].
    symmetry. rewrite <- (map_id ts) at 2. apply map_ext_in.
    intros t Ht. rewrite (Hnone t Ht). reflexivity.
  - pose proof (phase_of_range (last (t0 :: v) t0) c) as Hr.
    split; [|split; [lia | reflexivity]].
    split; [lia|]. intros Hnone.
    apply filter_nil_iff in Hnone. rewrite Hnone in Hf. discriminate.
Qed.

(** X16.  [assign] is idempotent: a second call with the same bar index
    returns the same phase and description and leaves the list as the
    first call left it. *)
Theorem assign_idempotent (ts : list StructuralTriple) (c : Z) :
  PhaseModel.assign (snd (PhaseModel.assign ts c)) c
  = PhaseModel.assign ts c.
Proof.
  destruct (assign_cases ts c) as [[Hf E] | [t0 [v [Hf E]]]].
  - rewrite E. simpl. exact E.
  - rewrite E. cbn [snd].
    set (ph := fst (PhaseModel.phase_of (last (t0 :: v) t0) c)) in *.
    set (g := fun t => if is_valid t then set_phase t ph else t) in *.
    assert (Hg : forall t, is_valid (g t) = is_valid t).
    { intros t. unfold g. destruct (is_valid t) eqn:Et; simpl; auto. }
    assert (Hgg : forall t, g (g t) = g t).
    { intros t. unfold g. destruct (is_valid t) eqn:Et; simpl;
        rewrite ?Et; reflexivity. }
    destruct (assign_cases (map g ts) c) as [[Hf' _] | [u0 [u [Hf' E']]]].
    + rewrite (filter_valid_map g ts Hg), Hf in Hf'. discriminate.
    + rewrite E'. rewrite (filter_valid_map g ts Hg), Hf in Hf'.
      cbn [map] in Hf'. inversion Hf'; subst u0 u.
      change (g t0 :: map g v) with (map g (t0 :: v)).
      assert (Hph : forall x, PhaseModel.phase_of (g x) c
                              = PhaseModel.phase_of x c)
        by (intros x; apply phase_of_set_phase).
      rewrite (last_map_default g (t0 :: v) t0), Hph.
      fold ph. f_equal. rewrite map_map. apply map_ext. intros t.
      change (g (g t) = g t). apply Hgg.
Qed.

(** ** Fractality: the ratios and their median *)

Section Ratios.
Import FractalityAnalyzer.

Lemma insert_sorted_Forall (P : Q -> Prop) (x : Q) (l : list Q) :
  P x -> Forall P l -> Forall P (insert_sorted x l).
Proof.
  intros Hx Hl. induction Hl as [|y l Hy Hl IH]; simpl.
  - constructor; [exact Hx | constructor].
  - destruct (Qle_bool x y).
    + constructor; [exact Hx|]. constructor; assumption.
    + constructor; assumption.
Qed.

Lemma insert_sorted_length (x : Q) (l : list Q) :
  length (insert_sorted x l) = S (length l).
Proof.
  induction l as [|y l IH]; simpl; [reflexivity|].
  destruct (Qle_bool x y); simpl; [reflexivity | rewrite IH; reflexivity].
Qed.

Lemma sort_Forall (P : Q -> Prop) (l : list Q) :
  Forall P l -> Forall P (sort l).
Proof.
  unfold sort. induction 1 as [|x l Hx _ IH]; simpl; [constructor|].
  apply insert_sorted_Forall; assumption.
Qed.

Lemma sort_length (l : list Q) : length (sort l) = length l.
Proof.
  unfold sort. induction l as [|x l IH]; simpl; [reflexivity|].
  rewrite insert_sorted_length, IH. reflexivity.
Qed.

(** The median of a non-empty list is one of its values or the mean of
    two of them. *)
Lemma np_median_cases (l : list Q) :
  l <> [] ->
  (exists a, In a l /\ np_median l = a) \/
  (exists a b, In a l /\ In b l /\ np_median l = (a + b) / 2).
Proof.
  intros Hne. unfold np_median. cbv zeta.
  assert (Hlen : (0 < length (sort l))%nat).
  { rewrite sort_length. destruct l; [congruence | simpl; lia]. }
  assert (Hin : forall k, (k < length (sort l))%nat -> In (nth k (sort l) 0) l).
  { intros k Hk. pose proof (nth_In (sort l) 0 Hk) as H.
    assert (Hs : Forall (fun x => In x l) (sort l))
      by (apply sort_Forall; apply Forall_forall; auto).
    rewrite Forall_forall in Hs. exact (Hs _ H). }
  assert (Hhalf : (length (sort l) / 2 < length (sort l))%nat)
    by (apply Nat.div_lt; lia).
  destruct (Nat.even (length (sort l))).
  - right. eexists. eexists. split; [|split; [|reflexivity]];
      apply Hin; lia.
  - left. eexists. split; [|reflexivity]. apply Hin. exact Hhalf.
Qed.

Lemma ratios_length (wa wb : list Wave) :
  length (ratios wa wb)
  = (length wa
     * length (filter (fun b => Qgtb (amplitude b) eps) wb))%nat.
Proof.
  unfold ratios. induction wa as [|a wa IH]; simpl; [reflexivity|].
  rewrite length_app, IH. f_equal.
  clear IH. induction wb as [|b wb IHb]; simpl; [reflexivity|].
  destruct (Qgtb (amplitude b) eps); simpl; rewrite IHb; reflexivity.
Qed.

Lemma ratios_nonneg (wa wb : list Wave) :
  Forall (fun a => 0 <= amplitude a) wa ->
  Forall (fun r => 0 <= r) (ratios wa wb).
Proof.
  intros Ha. unfold ratios. apply Forall_forall. intros r Hr.
  apply in_flat_map in Hr. destruct Hr as [a [Hain Hr]].
  apply in_flat_map in Hr. destruct Hr as [b [_ Hr]].
  destruct (Qgtb (amplitude b) eps) eqn:E; [|destruct Hr].
  destruct Hr as [<- | []].
  unfold Qgtb in E. apply Qltb_lt in E. pose proof eps_pos.
  rewrite Forall_forall in Ha. pose proof (Ha a Hain).
  apply Qle_shift_div_l; lra.
Qed.

(** The result of [self_similarity] when ratios were collected. *)
Lemma self_similarity_some (X : Externals) (wa wb : list Wave) :
  ratios wa wb <> [] ->
  self_similarity X wa wb
  = mkFractal (Some (np_median (ratios wa wb)))
              (Some (np_std X (ratios wa wb) / (np_mean (ratios wa wb) + eps)))
              (Qltb (np_std X (ratios wa wb) / (np_mean (ratios wa wb) + eps))
                    (3 # 10))
              (Some (length (ratios wa wb))).
Proof.
  intros Hne. unfold self_similarity.
  destruct wa as [|a wa']; [exfalso; apply Hne; reflexivity|].
  destruct wb as [|b wb'].
  { exfalso. apply Hne. unfold ratios.
    induction (a :: wa'); simpl; auto. }
  destruct (ratios (a :: wa') (b :: wb')) eqn:E; [congruence|].
  reflexivity.
Qed.

Lemma self_similarity_none (X : Externals) (wa wb : list Wave) :
  ratios wa wb = [] -> self_similarity X wa wb = none_result.
Proof.
  intros Hnil. unfold self_similarity.
  destruct wa as [|a wa']; [reflexivity|].
  destruct wb as [|b wb']; [reflexivity|].
  rewrite Hnil. reflexivity.
Qed.

End Ratios.

(** X17.  [self_similarity] collects one ratio for every pair of a wave
    of the first list and a wave of the second list whose amplitude
    exceeds 1e-9; [n_pairs], when present, is that count and is not 0;
    and with non-negative amplitudes in the first list the coefficient
    is not negative. *)
Theorem self_similarity_pairs (X : Externals) (wa wb : list Wave) :
  length (FractalityAnalyzer.ratios wa wb)
  = (length wa * length (filter (fun b => Qgtb (amplitude b) eps) wb))%nat /\
  (forall n, FractalityAnalyzer.n_pairs
               (FractalityAnalyzer.self_similarity X wa wb) = Some n ->
             n = length (FractalityAnalyzer.ratios wa wb) /\ n <> 0%nat) /\
  (Forall (fun a => 0 <= amplitude a) wa ->
   forall c, FractalityAnalyzer.coefficient
               (FractalityAnalyzer.self_similarity X wa wb) = Some c ->
             0 <= c).
Proof.
  split; [apply ratios_length|].
  destruct (FractalityAnalyzer.ratios wa wb) as [|r rs] eqn:E.
  - rewrite (self_similarity_none X wa wb E). simpl.
    split; intros; discriminate.
  - assert (Hne : FractalityAnalyzer.ratios wa wb <> []) by congruence.
    rewrite (self_similarity_some X wa wb Hne). simpl. split.
    + intros n Hn. inversion Hn. rewrite E. simpl. split; [reflexivity | lia].
    + intros Ha c Hc. inversion Hc; subst c.
      pose proof (ratios_nonneg wa wb Ha) as Hpos.
      rewrite Forall_forall in Hpos.
      destruct (np_median_cases _ Hne) as [[a [Hin ->]] | [a [b [Ha' [Hb' ->]]]]].
      * apply Hpos. exact Hin.
      * pose proof (Hpos a Ha'). pose proof (Hpos b Hb').
        unfold Qdiv. change (/ 2) with (1 # 2). lra.
Qed.

(** X18.  When all collected ratios are equal, the coefficient returned
    by [self_similarity] is that common ratio. *)
Theorem self_similarity_equal_ratios (X : Externals) (wa wb : list Wave)
        (r : Q) :
  FractalityAnalyzer.ratios wa wb <> [] ->
  Forall (fun x => x == r) (FractalityAnalyzer.ratios wa wb) ->
  exists c, FractalityAnalyzer.coefficient
              (FractalityAnalyzer.self_similarity X wa wb) = Some c /\
            c == r.
Proof.
  intros Hne Hall. rewrite (self_similarity_some X wa wb Hne). simpl.
  eexists. split; [reflexivity|].
  rewrite Forall_forall in Hall.
  destruct (np_median_cases _ Hne) as [[a [Hin ->]] | [a [b [Ha' [Hb' ->]]]]].
  - apply Hall. exact Hin.
  - rewrite (Hall a Ha'), (Hall b Hb'). field.
Qed.

Lemma self_similarity_equal_ratios_witness :
  exists c, FractalityAnalyzer.coefficient
              (FractalityAnalyzer.self_similarity X_id tens fives) = Some c /\
            c == 2.
Proof.
  apply (self_similarity_equal_ratios X_id tens fives 2).
  - discriminate.
  - repeat constructor.
Defined.

(** ** Smoothing *)

(** X20.  The window length [smooth] hands to the Savitzky-Golay filter
    is at least 5, at least the configured window, above the polynomial
    order, and odd unless it is [poly + 2].  With smoothing kernels that
    return one value per input value, [smooth] raises exactly when the
    Savitzky-Golay branch is taken on a series shorter than that window,
    and the exception is [ValueError]; otherwise it returns the frame
    with its [time] and [close] columns unchanged and a [smooth] column
    of the same length. *)
Theorem smooth_frame (X : Externals) (self : DataProcessor.conf)
        (df : DataProcessor.DataFrame) :
  length_preserving X ->
  ((5 <= DataProcessor.savgol_window self)%Z /\
   (DataProcessor.window self <= DataProcessor.savgol_window self)%Z /\
   (DataProcessor.poly self < DataProcessor.savgol_window self)%Z /\
   (DataProcessor.savgol_window self = DataProcessor.poly self + 2
    \/ DataProcessor.savgol_window self mod 2 = 1)%Z) /\
  ((exists e, DataProcessor.smooth X self df = Raise e)
   <-> uses_savgol self = true /\
       (Z.of_nat (length (DataProcessor.df_close df))
        < DataProcessor.savgol_window self)%Z) /\
  (forall e, DataProcessor.smooth X self df = Raise e -> e = ValueError) /\
  (forall df', DataProcessor.smooth X self df = Ok df' ->
     DataProcessor.df_time df' = DataProcessor.df_time df /\
     DataProcessor.df_close df' = DataProcessor.df_close df /\
     exists s, DataProcessor.df_smooth df' = Some s /\
               length s = length (DataProcessor.df_close df)).
Proof.
  intros HX.
  assert (Hwin : (5 <= DataProcessor.savgol_window self)%Z /\
     (DataProcessor.window self <= DataProcessor.savgol_window self)%Z /\
     (DataProcessor.poly self < DataProcessor.savgol_window self)%Z /\
     (DataProcessor.savgol_window self = DataProcessor.poly self + 2
      \/ DataProcessor.savgol_window self mod 2 = 1)%Z).
  { unfold DataProcessor.savgol_window. cbv zeta.
    destruct (Z.max (DataProcessor.window self) 5 mod 2 =? 1)%Z eqn:E.
    - apply Z.eqb_eq in E. repeat split; try lia.
      destruct (Z.max_spec (Z.max (DataProcessor.window self) 5)
                           (DataProcessor.poly self + 2)) as [[_ ->] | [_ ->]];
        [left; reflexivity | right; exact E].
    - apply Z.eqb_neq in E. repeat split; try lia.
      destruct (Z.max_spec (Z.max (DataProcessor.window self) 5 + 1)
                           (DataProcessor.poly self + 2)) as [[_ ->] | [_ ->]];
        [left; reflexivity | right].
      pose proof (Z.mod_pos_bound (Z.max (DataProcessor.window self) 5) 2).
      rewrite Z.add_mod by lia.
      assert (Z.max (DataProcessor.window self) 5 mod 2 = 0)%Z as -> by lia.
      reflexivity. }
  split; [exact Hwin|].
  assert (Hcase :
    (uses_savgol self = true /\
     (Z.of_nat (length (DataProcessor.df_close df))
      < DataProcessor.savgol_window self)%Z /\
     DataProcessor.smooth X self df = Raise ValueError) \/
    (~ (uses_savgol self = true /\
        (Z.of_nat (length (DataProcessor.df_close df))
         < DataProcessor.savgol_window self)%Z) /\
     exists s, DataProcessor.smooth X self df
               = Ok (DataProcessor.mkDF (DataProcessor.df_time df)
                       (DataProcessor.df_close df) (Some s)))).
  { destruct (uses_savgol self) eqn:Em.
    - destruct (Z_lt_ge_dec (Z.of_nat (length (DataProcessor.df_close df)))
                            (DataProcessor.savgol_window self)) as [Hlt | Hge].
      + left. split; [reflexivity|]. split; [exact Hlt|].
        apply smooth_short_raises; assumption.
      + right. split; [intros [_ H]; lia|].
        apply smooth_ok; [exact HX|]. rewrite Em. intros _. lia.
    - right. split; [intros [H _]; discriminate|].
      apply smooth_ok; [exact HX|]. rewrite Em. discriminate. }
  destruct Hcase as [[Hm [Hlt Hr]] | [Hno [s Hs]]].
  - rewrite Hr. split; [|split].
    + split; [intros _; split; assumption | intros _; eauto].
    + intros e He. inversion He. reflexivity.
    + intros df' H. discriminate.
  - split; [|split].
    + split; [intros [e He]; rewrite Hs in He; discriminate|].
      intros H. contradiction.
    + intros e He. rewrite Hs in He. discriminate.
    + intros df' H. pose proof (smooth_inv _ _ _ _ H) as [Hlen [Hc Ht]].
      rewrite Hs in H. inversion H; subst df'. simpl.
      repeat split. exists s. split; [reflexivity|].
      unfold ExtremaDetector.column in Hlen. simpl in Hlen. exact Hlen.
Qed.

Lemma smooth_frame_witness :
  (exists e, DataProcessor.smooth X_id DataProcessor.default
               (DataProcessor.mkDF (DataProcessor.arange 5) five None)
             = Raise e)
  <-> uses_savgol DataProcessor.default = true /\
      (Z.of_nat (length five)
       < DataProcessor.savgol_window DataProcessor.default)%Z.
Proof.
  apply (smooth_frame X_id DataProcessor.default
           (DataProcessor.mkDF (DataProcessor.arange 5) five None)).
  exact X_id_length_preserving.
Defined.

(** ** The result of a run: shape and phase *)

Section RunShape.
Import DataProcessor PatternSystem.

Lemma scan_index_bounds (md : Z) (p : list Q) :
  Forall (fun e => (1 <= index e <= Z.of_nat (length p) - 2)%Z)
         (ExtremaDetector.scan md p).
Proof.
  eapply Forall_impl; [|apply scan_turning].
  intros e [i [Hi [H1 [H2 _]]]]. lia.
Qed.

Lemma detect_index_bounds (md : Z) (df : DataFrame) (exs : list Extremum) :
  ExtremaDetector.detect md df = Ok exs ->
  Forall (fun e => (1 <= index e
                    <= Z.of_nat (length (ExtremaDetector.column df)) - 2)%Z)
         exs.
Proof.
  intros H. apply detect_inv in H. destruct H as [_ ->].
  apply Forall_forall. intros e He.
  apply filter_alternating_incl in He.
  pose proof (scan_index_bounds md (ExtremaDetector.column df)) as Hb.
  rewrite Forall_forall in Hb. auto.
Qed.

Lemma classify_nth (self : WaveClassifier.conf) (ws : list Wave)
      (k : nat) (w : Wave) :
  nth_error (WaveClassifier.classify self ws) k = Some w ->
  exists w0, nth_error ws k = Some w0 /\
             start w = start w0 /\ end_ w = end_ w0.
Proof.
  unfold WaveClassifier.classify. destruct ws as [|a ws'].
  - destruct k; discriminate.
  - rewrite nth_error_map.
    destruct (nth_error (a :: ws') k) as [w0|]; simpl; [|discriminate].
    intros H. inversion H. exists w0. split; [reflexivity|].
    unfold WaveClassifier.classify_one. destruct (_ && _); split; reflexivity.
Qed.

(** A classified wave of the pipeline lies between neighbouring
    extrema. *)
Lemma pipeline_wave_nth (X : Externals) (cc : WaveClassifier.conf)
      (exs : list Extremum) (ws : list Wave) (j : nat) (w : Wave) :
  WaveBuilder.build X exs = Ok ws ->
  nth_error (WaveClassifier.classify cc ws) j = Some w ->
  nth_error exs j = Some (start w) /\ nth_error exs (S j) = Some (end_ w).
Proof.
  intros Hb Hj. apply classify_nth in Hj.
  destruct Hj as [w0 [Hw0 [Es Ee]]]. rewrite Es, Ee.
  destruct (mapM_nth _ _ _ Hb j w0 Hw0) as [k [Hk Hw]].
  apply nth_error_seq0 in Hk. subst k.
  apply wave_at_inv in Hw. destruct Hw as [s [e [Hs [He ->]]]].
  simpl. split; assumption.
Qed.

(** The waves of a scored triple of the pipeline. *)
Lemma pipeline_triple_nth (tc : StructuralTripleDetector.conf)
      (qc : QualityMetric.conf) (waves : list Wave)
      (ts ts' : list StructuralTriple) (i : nat) (t : StructuralTriple) :
  StructuralTripleDetector.find_triples tc waves = Ok ts ->
  QualityMetric.score qc ts = Ok ts' ->
  nth_error ts' i = Some t ->
  nth_error waves i = Some (w1 t) /\
  nth_error waves (i + 1) = Some (w2 t) /\
  nth_error waves (i + 2) = Some (w3 t).
Proof.
  intros Hf Hs Hi.
  destruct (mapM_nth _ _ _ Hs i t Hi) as [t0 [Hi0 Hsc]].
  apply score_one_inv in Hsc. destruct Hsc as [E1 [E2 [E3 _]]].
  destruct (mapM_nth _ _ _ Hf i t0 Hi0) as [k [Hk Ht]].
  apply nth_error_seq0 in Hk. subst k.
  apply triple_at_inv in Ht. destruct Ht as [H1 [H2 [H3 _]]].
  rewrite E1, E2, E3. repeat split; assumption.
Qed.

Lemma assign_nth (ts : list StructuralTriple) (c : Z) (i : nat)
      (t : StructuralTriple) :
  nth_error (snd (PhaseModel.assign ts c)) i = Some t ->
  exists t1, nth_error ts i = Some t1 /\
             w1 t = w1 t1 /\ w2 t = w2 t1 /\ w3 t = w3 t1.
Proof.
  destruct (assign_cases ts c) as [[_ ->] | [t0 [v [_ ->]]]]; cbn [snd].
  - intros H. exists t. repeat split. exact H.
  - rewrite nth_error_map.
    destruct (nth_error ts i) as [t1|]; simpl; [|discriminate].
    intros H. inversion H. exists t1. split; [reflexivity|].
    destruct (is_valid t1); repeat split.
Qed.

Lemma assign_length (ts : list StructuralTriple) (c : Z) :
  length (snd (PhaseModel.assign ts c)) = length ts.
Proof.
  destruct (assign_cases ts c) as [[_ ->] | [t0 [v [_ ->]]]]; cbn [snd].
  - reflexivity.
  - apply length_map.
Qed.

Lemma classify_length (self : WaveClassifier.conf) (ws : list Wave) :
  length (WaveClassifier.classify self ws) = length ws.
Proof.
  unfold WaveClassifier.classify. destruct ws; [reflexivity|].
  apply length_map.
Qed.

End RunShape.

(** X21.  In every result of [run] the frame holds the given prices,
    there is one wave per pair of neighbouring extrema and one triple
    per window of three neighbouring waves, wave [j] runs from extremum
    [j] to extremum [j + 1], triple [i] holds waves [i], [i + 1] and
    [i + 2], and [valid_triples] lists the valid triples of [triples]
    in the same order. *)
Theorem run_shape (X : Externals) (self : PatternSystem.conf)
        (prices : list Q) (times : option (list Q))
        (out : PatternSystem.Output) :
  PatternSystem.run X self prices times = Ok out ->
  DataProcessor.df_close (PatternSystem.dataframe out) = prices /\
  length (PatternSystem.waves out)
  = (length (PatternSystem.extrema out) - 1)%nat /\
  length (PatternSystem.triples out)
  = (length (PatternSystem.waves out) - 2)%nat /\
  PatternSystem.valid_triples out
  = filter is_valid (PatternSystem.triples out) /\
  (forall j w, nth_error (PatternSystem.waves out) j = Some w ->
     nth_error (PatternSystem.extrema out) j = Some (start w) /\
     nth_error (PatternSystem.extrema out) (S j) = Some (end_ w)) /\
  (forall i t, nth_error (PatternSystem.triples out) i = Some t ->
     nth_error (PatternSystem.waves out) i = Some (w1 t) /\
     nth_error (PatternSystem.waves out) (i + 1) = Some (w2 t) /\
     nth_error (PatternSystem.waves out) (i + 2) = Some (w3 t)).
Proof.
  intros H. apply run_inv in H.
  destruct H as [df0 [df [exs [ws [ts [ts' H]]]]]].
  destruct H as [Hl [Hsm [Hd [Hb [Hf [Hs [Hdf [He [Hw [Ha Hv]]]]]]]]]].
  assert (Htr : PatternSystem.triples out
                = snd (PhaseModel.assign ts'
                   (Z.of_nat (length (DataProcessor.df_close df)) - 1)%Z))
    by (rewrite Ha; reflexivity).
  rewrite Hdf, He, Hw, Hv, Htr. clear Hdf He Hw Hv Htr Ha.
  split.
  { apply smooth_inv in Hsm. destruct Hsm as [_ [-> _]].
    apply load_series_inv in Hl. destruct Hl as [-> _]. reflexivity. }
  split.
  { rewrite classify_length.
    destruct (build_total X exs) as [ws0 [Hb0 Hlen]].
    rewrite Hb in Hb0. inversion Hb0; subst ws0. exact Hlen. }
  split.
  { rewrite assign_length.
    apply mapM_length in Hs. rewrite Hs.
    apply mapM_length in Hf. rewrite Hf. apply length_seq. }
  split; [reflexivity|]. split.
  - intros j w Hj. exact (pipeline_wave_nth X _ exs ws j w Hb Hj).
  - intros i t Hi. apply assign_nth in Hi.
    destruct Hi as [t1 [Hi1 [E1 [E2 E3]]]]. rewrite E1, E2, E3.
    exact (pipeline_triple_nth _ _ _ ts ts' i t1 Hf Hs Hi1).
Qed.

Lemma run_shape_witness :
  exists out,
    PatternSystem.run X_id ema_conf skewed None = Ok out /\
    DataProcessor.df_close (PatternSystem.dataframe out) = skewed /\
    length (PatternSystem.waves out)
    = (length (PatternSystem.extrema out) - 1)%nat /\
    length (PatternSystem.triples out)
    = (length (PatternSystem.waves out) - 2)%nat /\
    PatternSystem.valid_triples out
    = filter is_valid (PatternSystem.triples out) /\
    (forall j w, nth_error (PatternSystem.waves out) j = Some w ->
       nth_error (PatternSystem.extrema out) j = Some (start w) /\
       nth_error (PatternSystem.extrema out) (S j) = Some (end_ w)) /\
    (forall i t, nth_error (PatternSystem.triples out) i = Some t ->
       nth_error (PatternSystem.waves out) i = Some (w1 t) /\
       nth_error (PatternSystem.waves out) (i + 1) = Some (w2 t) /\
       nth_error (PatternSystem.waves out) (i + 2) = Some (w3 t)).
Proof.
  eexists. split; [vm_compute; reflexivity|].
  apply (run_shape X_id ema_conf skewed None). vm_compute. reflexivity.
Defined.

(** X22.  [run] never reports phase 1 or 2.  The current bar is the last
    bar of the series, and [detect] places no extremum there, so the
    current bar lies after the end of every wave: a result of [run] has
    either no valid triple, phase 0 and "No valid structure found", or at
    least one valid triple, phase 3 with the post-structure description,
    and phase 3 written on every valid triple. *)
Theorem run_phase_zero_or_three (X : Externals) (self : PatternSystem.conf)
        (prices : list Q) (times : option (list Q))
        (out : PatternSystem.Output) :
  PatternSystem.run X self prices times = Ok out ->
  (PatternSystem.valid_triples out = [] /\
   PatternSystem.current_phase out = 0%Z /\
   PatternSystem.phase_desc out = PhaseModel.desc0) \/
  (PatternSystem.valid_triples out <> [] /\
   PatternSystem.current_phase out = 3%Z /\
   PatternSystem.phase_desc out = PhaseModel.desc3plus /\
   Forall (fun t => phase t = 3%Z) (PatternSystem.valid_triples out)).
Proof.
  intros H. apply run_inv in H.
  destruct H as [df0 [df [exs [ws [ts [ts' H]]]]]].
  destruct H as [_ [Hsm [Hd [Hb [Hf [Hs [_ [_ [_ [Ha Hv]]]]]]]]]].
  rewrite Hv. clear Hv.
  set (c := (Z.of_nat (length (DataProcessor.df_close df)) - 1)%Z) in *.
  assert (Hp : PatternSystem.current_phase out
               = fst (fst (PhaseModel.assign ts' c)))
    by (rewrite Ha; reflexivity).
  assert (Hdesc : PatternSystem.phase_desc out
                  = snd (fst (PhaseModel.assign ts' c)))
    by (rewrite Ha; reflexivity).
  assert (Htr : PatternSystem.triples out = snd (PhaseModel.assign ts' c))
    by (rewrite Ha; reflexivity).
  rewrite Hp, Hdesc, Htr. clear Hp Hdesc Htr Ha.
  destruct (assign_cases ts' c) as [[Hnil E] | [t0 [v [Hfl E]]]];
    rewrite E; cbn [fst snd].
  - left. rewrite Hnil. repeat split.
  - right.
    (* every wave of the last valid triple ends before the current bar *)
    assert (Hends : forall w,
              In w (WaveClassifier.classify (PatternSystem.classifier self) ws)
              -> (index (end_ w) < c)%Z).
    { intros w Hw. destruct (In_nth_error _ _ Hw) as [j Hj].
      destruct (pipeline_wave_nth X _ exs ws j w Hb Hj) as [_ He].
      pose proof (detect_index_bounds _ _ _ Hd) as Hbd.
      rewrite Forall_forall in Hbd.
      pose proof (Hbd _ (nth_error_In _ _ He)) as Hi.
      apply smooth_inv in Hsm. destruct Hsm as [Hlen [Hc _]].
      unfold c. rewrite Hc, <- Hlen. lia. }
    assert (Hlast : In (last (t0 :: v) t0) ts').
    { assert (Hl : In (last (t0 :: v) t0) (filter is_valid ts'))
        by (rewrite Hfl; apply last_In; discriminate).
      apply filter_In in Hl. tauto. }
    destruct (In_nth_error _ _ Hlast) as [i Hi].
    destruct (pipeline_triple_nth _ _ _ ts ts' i _ Hf Hs Hi)
      as [H1 [H2 H3]].
    pose proof (Hends _ (nth_error_In _ _ H1)) as L1.
    pose proof (Hends _ (nth_error_In _ _ H2)) as L2.
    pose proof (Hends _ (nth_error_In _ _ H3)) as L3.
    assert (Hph : PhaseModel.phase_of (last (t0 :: v) t0) c
                  = (3%Z, PhaseModel.desc3plus)).
    { unfold PhaseModel.phase_of. cbv zeta.
      destruct (Z.leb_spec c (index (end_ (w1 (last (t0 :: v) t0)))));
        [lia|].
      destruct (Z.leb_spec c (index (end_ (w2 (last (t0 :: v) t0)))));
        [lia|].
      destruct (Z.leb_spec c (index (end_ (w3 (last (t0 :: v) t0)))));
        [lia|].
      reflexivity. }
    rewrite Hph. cbn [fst snd].
    rewrite filter_valid_map
      by (intros t; destruct (is_valid t) eqn:Et; simpl; auto).
    rewrite Hfl. split; [discriminate|]. repeat split.
    apply Forall_forall. intros t Ht. apply in_map_iff in Ht.
    destruct Ht as [t1 [<- Hin1]].
    assert (Hv1 : is_valid t1 = true).
    { assert (Hin' : In t1 (filter is_valid ts'))
        by (rewrite Hfl; exact Hin1).
      apply filter_In in Hin'. tauto. }
    rewrite Hv1. reflexivity.
Qed.

Lemma run_phase_zero_or_three_witness :
  exists out,
    PatternSystem.run X_id ema_conf skewed None = Ok out /\
    ((PatternSystem.valid_triples out = [] /\
      PatternSystem.current_phase out = 0%Z /\
      PatternSystem.phase_desc out = PhaseModel.desc0) \/
     (PatternSystem.valid_triples out <> [] /\
      PatternSystem.current_phase out = 3%Z /\
      PatternSystem.phase_desc out = PhaseModel.desc3plus /\
      Forall (fun t => phase t = 3%Z) (PatternSystem.valid_triples out))).
Proof.
  eexists. split; [vm_compute; reflexivity|].
  apply (run_phase_zero_or_three X_id ema_conf skewed None).
  vm_compute. reflexivity.
Defined.

(** X23.  A run that finds fewer than four extrema has no triple at all
    and reports phase 0 with "No valid structure found". *)
Theorem run_few_extrema (X : Externals) (self : PatternSystem.conf)
        (prices : list Q) (times : option (list Q))
        (out : PatternSystem.Output) :
  PatternSystem.run X self prices times = Ok out ->
  (length (PatternSystem.extrema out) < 4)%nat ->
  PatternSystem.triples out = [] /\
  PatternSystem.valid_triples out = [] /\
  PatternSystem.current_phase out = 0%Z /\
  PatternSystem.phase_desc out = PhaseModel.desc0.
Proof.
  intros H Hfew. apply run_inv in H.
  destruct H as [df0 [df [exs [ws [ts [ts' H]]]]]].
  destruct H as [_ [_ [_ [Hb [Hf [Hs [_ [He [_ [Ha Hv]]]]]]]]]].
  rewrite He in Hfew. rewrite Hv. clear Hv He.
  assert (Hts' : ts' = []).
  { destruct (build_total X exs) as [ws0 [Hb0 Hlen]].
    rewrite Hb in Hb0. inversion Hb0; subst ws0.
    apply mapM_length in Hs. apply mapM_length in Hf.
    rewrite length_seq, classify_length in Hf.
    destruct ts' as [|t ts'']; [reflexivity|]. simpl in Hs. lia. }
  subst ts'. simpl in Ha. inversion Ha. repeat split.
Qed.

Lemma run_few_extrema_witness :
  exists out,
    PatternSystem.run X_id ema_conf one_peak None = Ok out /\
    (length (PatternSystem.extrema out) < 4)%nat /\
    PatternSystem.triples out = [] /\
    PatternSystem.valid_triples out = [] /\
    PatternSystem.current_phase out = 0%Z /\
    PatternSystem.phase_desc out = PhaseModel.desc0.
Proof.
  eexists. split; [vm_compute; reflexivity|].
  split; [simpl; lia|].
  apply (run_few_extrema X_id ema_conf one_peak None).
  - vm_compute. reflexivity.
  - simpl. lia.
Defined.

(** ** Several timeframes *)

Section MultiFrame.
Import Dict PatternSystem.

Lemma keys_app {V : Type} (d1 d2 : dict V) :
  keys (d1 ++ d2) = keys d1 ++ keys d2.
Proof. apply map_app. Qed.

Lemma setitem_fresh {V : Type} (d : dict V) (k : string) (v : V) :
  ~ In k (keys d) -> setitem d k v = d ++ [(k, v)].
Proof.
  induction d as [|[k' v'] d IH]; simpl; intros Hn; [reflexivity|].
  destruct (String.eqb_spec k' k) as [E | E].
  - exfalso. apply Hn. left. exact E.
  - rewrite IH; [reflexivity|]. intros Hin. apply Hn. right. exact Hin.
Qed.

Lemma getitem_In {V : Type} (d : dict V) (k : string) :
  In k (keys d) -> exists v, getitem d k = Some v.
Proof.
  induction d as [|[k' v'] d IH]; simpl; intros Hin; [contradiction|].
  destruct (String.eqb_spec k' k) as [E | E]; [eauto|].
  destruct Hin as [Hk | Hin]; [contradiction|]. auto.
Qed.

Lemma getitem_nth {V : Type} (d : dict V) (i : nat) (k : string) (v : V) :
  NoDup (keys d) -> nth_error d i = Some (k, v) -> getitem d k = Some v.
Proof.
  revert i. induction d as [|[k' v'] d IH]; intros i Hnd Hi.
  - destruct i; discriminate.
  - simpl in Hnd. inversion Hnd as [|? ? Hnot Hnd']; subst.
    destruct i as [|i]; simpl in Hi.
    + inversion Hi; subst. simpl. rewrite String.eqb_refl. reflexivity.
    + simpl. destruct (String.eqb_spec k' k) as [E | E].
      * exfalso. apply Hnot. subst k'.
        apply nth_error_In in Hi.
        change k with (fst (k, v)). apply in_map. exact Hi.
      * eapply IH; eauto.
Qed.

Lemma fold_setitem_fresh {V : Type} (l acc : dict V) :
  NoDup (keys acc ++ keys l) ->
  fold_left (fun d p => setitem d (fst p) (snd p)) l acc = acc ++ l.
Proof.
  revert acc. induction l as [|[k v] l IH]; intros acc Hnd; simpl.
  - rewrite app_nil_r. reflexivity.
  - simpl in Hnd. rewrite setitem_fresh.
    + rewrite IH.
      * rewrite <- app_assoc. reflexivity.
      * rewrite keys_app. simpl. rewrite <- app_assoc. exact Hnd.
    + apply NoDup_remove_2 in Hnd. intros Hin. apply Hnd.
      apply in_or_app. left. exact Hin.
Qed.

Lemma run_each_mapM (X : Externals) (self : conf)
      (items : list (string * list Q)) (acc : dict Output) :
  match mapM (fun item => run X self (snd item) None) items with
  | Raise e => run_each X self items acc = Raise e
  | Ok _ => exists res, run_each X self items acc = Ok res
  end.
Proof.
  revert acc. induction items as [|[tf prices] items IH]; intros acc; simpl.
  - eauto.
  - destruct (run X self prices None) as [out | e]; simpl; [|reflexivity].
    specialize (IH (setitem acc tf out)).
    destruct (mapM _ items); simpl; exact IH.
Qed.

Lemma run_each_fresh (X : Externals) (self : conf)
      (items : list (string * list Q)) (acc res : dict Output) :
  NoDup (keys acc ++ keys items) ->
  run_each X self items acc = Ok res ->
  exists outs, res = acc ++ outs /\ runs_of X self items outs.
Proof.
  revert acc. induction items as [|[tf prices] items IH]; intros acc Hnd H.
  - simpl in H. inversion H. exists []. rewrite app_nil_r.
    split; [reflexivity | constructor].
  - simpl in H. destruct (run X self prices None) as [out | e] eqn:Er;
      simpl in H; [|discriminate].
    rewrite setitem_fresh in H.
    + apply IH in H.
      * destruct H as [outs [-> Hf]]. exists ((tf, out) :: outs).
        rewrite <- app_assoc. split; [reflexivity|].
        constructor; [|exact Hf]. simpl. split; [reflexivity | exact Er].
      * rewrite keys_app. simpl. rewrite <- app_assoc. exact Hnd.
    + simpl in Hnd. apply NoDup_remove_2 in Hnd. intros Hin. apply Hnd.
      apply in_or_app. left. exact Hin.
Qed.

Lemma runs_of_keys (X : Externals) (self : conf)
      (data : dict (list Q)) (results : dict Output) :
  runs_of X self data results -> keys results = keys data.
Proof.
  induction 1 as [|[k p] [k' o] l l' [Hk _] _ IH]; simpl; [reflexivity|].
  simpl in Hk. rewrite Hk, IH. reflexivity.
Qed.

Lemma frac_loop_ok (X : Externals) (results : dict Output)
      (range : list nat) (acc : dict FractalityAnalyzer.FractalResult) :
  Forall (fun i => (i + 1 < length results)%nat) range ->
  exists fr, frac_loop X results (keys results) range acc = inr fr.
Proof.
  revert acc. induction range as [|i range IH]; intros acc Hr; simpl.
  - eauto.
  - inversion Hr as [|? ? Hi Hr']; subst.
    unfold get.
    destruct (nth_error (keys results) i) as [tf1|] eqn:E1.
    2:{ apply nth_error_None in E1. unfold keys in E1.
        rewrite length_map in E1. lia. }
    destruct (nth_error (keys results) (i + 1)) as [tf2|] eqn:E2.
    2:{ apply nth_error_None in E2. unfold keys in E2.
        rewrite length_map in E2. lia. }
    destruct (getitem_In results tf1 (nth_error_In _ _ E1)) as [r1 ->].
    destruct (getitem_In results tf2 (nth_error_In _ _ E2)) as [r2 ->].
    apply IH. exact Hr'.
Qed.

Lemma skipn_cons_nth {A : Type} (l : list A) (a : nat) (x : A) (t : list A) :
  skipn a l = x :: t -> nth_error l a = Some x /\ skipn (S a) l = t.
Proof.
  revert a. induction l as [|y l IH]; intros a H.
  - destruct a; discriminate.
  - destruct a as [|a]; simpl in H.
    + inversion H. split; reflexivity.
    + apply IH in H. exact H.
Qed.

Lemma frac_loop_suffix (X : Externals) (results : dict Output) :
  NoDup (keys results) ->
  forall (n a : nat) (acc : dict FractalityAnalyzer.FractalResult),
    (a + n + 1 = length results)%nat ->
    frac_loop X results (keys results) (seq a n) acc
    = inr (fold_left (fun d p => setitem d (fst p) (snd p))
                     (consecutive X (skipn a results)) acc).
Proof.
  intros Hnd. induction n as [|n IH]; intros a acc Hlen.
  - simpl. assert (Hl : length (skipn a results) = 1%nat)
      by (rewrite length_skipn; lia).
    destruct (skipn a results) as [|[k r] [|y t]]; try discriminate.
    reflexivity.
  - assert (Hl : length (skipn a results) = S (S n))
      by (rewrite length_skipn; lia).
    destruct (skipn a results) as [|[k1 r1] [|[k2 r2] t]] eqn:Es;
      try discriminate.
    destruct (skipn_cons_nth _ _ _ _ Es) as [H1 Es'].
    destruct (skipn_cons_nth _ _ _ _ Es') as [H2 _].
    cbn [seq frac_loop]. unfold get.
    replace (a + 1)%nat with (S a) by lia.
    unfold keys at 1 2. rewrite !nth_error_map, H1, H2. simpl option_map.
    cbn [fst].
    rewrite (getitem_nth _ _ _ _ Hnd H1), (getitem_nth _ _ _ _ Hnd H2).
    rewrite IH by lia. rewrite Es'. reflexivity.
Qed.

Lemma consecutive_keys (X : Externals) (results : dict Output) :
  keys (consecutive X results) = labels (keys results).
Proof.
  induction results as [|[k1 r1] [|[k2 r2] t] IH]; try reflexivity.
  change (keys (consecutive X ((k1, r1) :: (k2, r2) :: t)))
    with ((k1 ++ arrow ++ k2)%string
          :: keys (consecutive X ((k2, r2) :: t))).
  rewrite IH. reflexivity.
Qed.

Lemma consecutive_length (X : Externals) (results : dict Output) :
  length (consecutive X results) = (length results - 1)%nat.
Proof.
  induction results as [|[k1 r1] [|[k2 r2] t] IH]; try reflexivity.
  change (length (consecutive X ((k1, r1) :: (k2, r2) :: t)))
    with (S (length (consecutive X ((k2, r2) :: t)))).
  rewrite IH. simpl. lia.
Qed.

Lemma consecutive_nth (X : Externals) (results : dict Output) (i : nat)
      (tf1 tf2 : string) (r1 r2 : Output) :
  nth_error results i = Some (tf1, r1) ->
  nth_error results (S i) = Some (tf2, r2) ->
  nth_error (consecutive X results) i
  = Some ((tf1 ++ arrow ++ tf2)%string,
          FractalityAnalyzer.self_similarity X (waves r1) (waves r2)).
Proof.
  revert i. induction results as [|[k1 o1] [|[k2 o2] t] IH]; intros i H1 H2.
  - destruct i; discriminate.
  - destruct i as [|[|i]]; discriminate.
  - destruct i as [|i].
    + simpl in H1, H2. inversion H1; inversion H2; subst. reflexivity.
    + change (nth_error (consecutive X ((k2, o2) :: t)) i
              = Some ((tf1 ++ arrow ++ tf2)%string,
                      FractalityAnalyzer.self_similarity X
                        (waves r1) (waves r2))).
      apply IH; assumption.
Qed.

(** What a successful call returns when the keys of [data] differ. *)
Lemma run_multiframe_inv (X : Externals) (self : conf)
      (data : dict (list Q)) (r : MultiOutput) :
  NoDup (keys data) ->
  run_multiframe X self data = inr r ->
  runs_of X self data (timeframes r) /\
  fractality r
  = fold_left (fun d p => setitem d (fst p) (snd p))
              (consecutive X (timeframes r)) [].
Proof.
  intros Hnd H. unfold run_multiframe in H.
  destruct (run_each X self data []) as [results | e] eqn:Er;
    [|discriminate].
  apply run_each_fresh in Er; [|exact Hnd].
  destruct Er as [outs [-> Hruns]]. simpl app in *. cbv zeta in H.
  assert (Hk : NoDup (keys outs))
    by (rewrite (runs_of_keys _ _ _ _ Hruns); exact Hnd).
  destruct outs as [|o outs'].
  - simpl in H. inversion H. split; [exact Hruns | reflexivity].
  - rewrite (frac_loop_suffix X _ Hk (length (keys (o :: outs')) - 1) 0)
      in H.
    + inversion H. split; [exact Hruns | reflexivity].
    + unfold keys. rewrite length_map. simpl. lia.
Qed.

End MultiFrame.

(** X24.  [run_multiframe] raises exactly when one of the runs raises,
    and then the exception of the first such run in the order of the
    dict; the lookups of its second loop never raise KeyError or
    IndexError. *)
Theorem run_multiframe_outcome (X : Externals) (self : PatternSystem.conf)
        (data : Dict.dict (list Q)) :
  match mapM (fun item => PatternSystem.run X self (snd item) None) data with
  | Raise e => PatternSystem.run_multiframe X self data = inl (Exn e)
  | Ok _ => exists r, PatternSystem.run_multiframe X self data = inr r
  end.
Proof.
  unfold PatternSystem.run_multiframe.
  pose proof (run_each_mapM X self data []) as H.
  destruct (mapM _ data) as [outs | e].
  - destruct H as [res ->]. cbv zeta.
    destruct (frac_loop_ok X res
                (seq 0 (length (Dict.keys res) - 1)) []) as [fr ->].
    + apply Forall_forall. intros i Hi. apply in_seq in Hi.
      unfold Dict.keys in Hi. rewrite length_map in Hi. lia.
    + eauto.
  - rewrite H. reflexivity.
Qed.

(** X25.  With pairwise different keys in [data], the [timeframes] entry
    of the result has one entry per item of [data], in the same order and
    under the same key, holding the result of [run] on that item's
    series. *)
Theorem run_multiframe_timeframes (X : Externals)
        (self : PatternSystem.conf) (data : Dict.dict (list Q))
        (r : PatternSystem.MultiOutput) :
  NoDup (Dict.keys data) ->
  PatternSystem.run_multiframe X self data = inr r ->
  Dict.keys (PatternSystem.timeframes r) = Dict.keys data /\
  Forall2 (fun item entry =>
             fst entry = fst item /\
             PatternSystem.run X self (snd item) None = Ok (snd entry))
          data (PatternSystem.timeframes r).
Proof.
  intros Hnd H. apply run_multiframe_inv in H; [|exact Hnd].
  destruct H as [Hruns _]. split.
  - exact (runs_of_keys _ _ _ _ Hruns).
  - exact Hruns.
Qed.

(** X26.  With pairwise different keys whose pair labels
    ["tf1→tf2"] are pairwise different too, the [fractality] entry has
    one entry less than there are timeframes (none for a single
    timeframe or none at all), and entry [i] holds, under the label of
    timeframes [i] and [i + 1], the similarity of the waves of their two
    results, the earlier timeframe first. *)
Theorem run_multiframe_fractality (X : Externals)
        (self : PatternSystem.conf) (data : Dict.dict (list Q))
        (r : PatternSystem.MultiOutput) :
  NoDup (Dict.keys data) ->
  NoDup (labels (Dict.keys data)) ->
  PatternSystem.run_multiframe X self data = inr r ->
  length (PatternSystem.fractality r) = (length data - 1)%nat /\
  Dict.keys (PatternSystem.fractality r) = labels (Dict.keys data) /\
  forall i tf1 r1 tf2 r2,
    nth_error (PatternSystem.timeframes r) i = Some (tf1, r1) ->
    nth_error (PatternSystem.timeframes r) (S i) = Some (tf2, r2) ->
    nth_error (PatternSystem.fractality r) i
    = Some ((tf1 ++ PatternSystem.arrow ++ tf2)%string,
            FractalityAnalyzer.self_similarity X
              (PatternSystem.waves r1) (PatternSystem.waves r2)).
Proof.
  intros Hnd Hlab H. apply run_multiframe_inv in H; [|exact Hnd].
  destruct H as [Hruns Hfr].
  pose proof (runs_of_keys _ _ _ _ Hruns) as Hk.
  rewrite fold_setitem_fresh in Hfr
    by (simpl; rewrite consecutive_keys, Hk; exact Hlab).
  simpl in Hfr. rewrite Hfr. split; [|split].
  - rewrite consecutive_length.
    rewrite <- (length_map fst (PatternSystem.timeframes r)).
    change (map fst (PatternSystem.timeframes r))
      with (Dict.keys (PatternSystem.timeframes r)).
    rewrite Hk. unfold Dict.keys. rewrite length_map. reflexivity.
  - rewrite consecutive_keys, Hk. reflexivity.
  - intros i tf1 r1 tf2 r2 H1 H2. apply consecutive_nth; assumption.
Qed.

Lemma two_frames_keys : NoDup (Dict.keys two_frames).
Proof.
  repeat constructor; simpl; intros H;
    repeat (destruct H as [H | H]; [discriminate|]); exact H.
Qed.

Lemma two_frames_labels : NoDup (labels (Dict.keys two_frames)).
Proof. repeat constructor. simpl. intros H. exact H. Qed.

Lemma run_multiframe_timeframes_witness :
  exists r,
    NoDup (Dict.keys two_frames) /\
    PatternSystem.run_multiframe X_id ema_conf two_frames = inr r /\
    Dict.keys (PatternSystem.timeframes r) = Dict.keys two_frames /\
    Forall2 (fun item entry =>
               fst entry = fst item /\
               PatternSystem.run X_id ema_conf (snd item) None
               = Ok (snd entry))
            two_frames (PatternSystem.timeframes r).
Proof.
  eexists. split; [exact two_frames_keys|].
  split; [vm_compute; reflexivity|].
  apply (run_multiframe_timeframes X_id ema_conf two_frames).
  - exact two_frames_keys.
  - vm_compute. reflexivity.
Defined.

Lemma run_multiframe_fractality_witness :
  exists r,
    NoDup (Dict.keys two_frames) /\
    NoDup (labels (Dict.keys two_frames)) /\
    PatternSystem.run_multiframe X_id ema_conf two_frames = inr r /\
    length (PatternSystem.fractality r) = (length two_frames - 1)%nat /\
    Dict.keys (PatternSystem.fractality r) = labels (Dict.keys two_frames) /\
    forall i tf1 r1 tf2 r2,
      nth_error (PatternSystem.timeframes r) i = Some (tf1, r1) ->
      nth_error (PatternSystem.timeframes r) (S i) = Some (tf2, r2) ->
      nth_error (PatternSystem.fractality r) i
      = Some ((tf1 ++ PatternSystem.arrow ++ tf2)%string,
              FractalityAnalyzer.self_similarity X_id
                (PatternSystem.waves r1) (PatternSystem.waves r2)).
Proof.
  eexists. split; [exact two_frames_keys|].
  split; [exact two_frames_labels|].
  split; [vm_compute; reflexivity|].
  apply (run_multiframe_fractality X_id ema_conf two_frames).
  - exact two_frames_keys.
  - exact two_frames_labels.
  - vm_compute. reflexivity.
Defined.

(** ** The dashboard *)

Section Dashboard.
Import DataProcessor PatternSystem App.

Lemma run_returns (X : Externals) (self : PatternSystem.conf)
      (prices : list Q) :
  length_preserving X ->
  prices <> [] ->
  (uses_savgol (processor self) = true ->
   (savgol_window (processor self) <= Z.of_nat (length prices))%Z) ->
  exists out, run X self prices None = Ok out.
Proof.
  intros HX Hne Hwin. unfold run.
  destruct (load_series_ok prices None I) as [ts Hload].
  rewrite Hload. simpl.
  destruct (smooth_ok X (processor self) (mkDF ts prices None) HX Hwin)
    as [s Hs].
  rewrite Hs. simpl bind at 1.
  apply stages_total.
  apply smooth_inv in Hs. destruct Hs as [Hlen _]. simpl in Hlen.
  intros E. rewrite E in Hlen. simpl in Hlen.
  destruct prices; [congruence | discriminate].
Qed.

(** Every wave of a result of [run] ends before the last bar. *)
Lemma run_wave_ends (X : Externals) (self : PatternSystem.conf)
      (prices : list Q) (times : option (list Q)) (out : Output) :
  run X self prices times = Ok out ->
  Forall (fun w => (index (end_ w) < Z.of_nat (length prices) - 1)%Z)
         (waves out).
Proof.
  intros H. apply run_inv in H.
  destruct H as [df0 [df [exs [ws [ts [ts' H]]]]]].
  destruct H as [Hl [Hsm [Hd [Hb [_ [_ [_ [_ [Hw _]]]]]]]]].
  rewrite Hw. apply Forall_forall. intros w Hin.
  destruct (In_nth_error _ _ Hin) as [j Hj].
  destruct (pipeline_wave_nth X _ exs ws j w Hb Hj) as [_ He].
  pose proof (detect_index_bounds _ _ _ Hd) as Hbd.
  rewrite Forall_forall in Hbd.
  pose proof (Hbd _ (nth_error_In _ _ He)) as Hi.
  apply smooth_inv in Hsm. destruct Hsm as [Hlen _].
  apply load_series_inv in Hl. destruct Hl as [Hc _].
  rewrite Hlen, Hc in Hi. lia.
Qed.

Lemma getitem_value {V : Type} (d : Dict.dict V) (k : string) (v : V) :
  Dict.getitem d k = Some v -> In v (map snd d).
Proof.
  induction d as [|[k' v'] d IH]; simpl; [discriminate|].
  destruct (String.eqb k' k).
  - intros H. inversion H. left. reflexivity.
  - intros H. right. auto.
Qed.

Lemma TF_PARAMS_windows :
  Forall (fun p => (5 <= smooth_window p <= 13)%Z) (map snd TF_PARAMS).
Proof. repeat constructor; simpl; lia. Qed.

Lemma params_for_window (tf fallback : string) (p : tf_params) :
  params_for tf fallback = inr p -> (5 <= smooth_window p <= 13)%Z.
Proof.
  unfold params_for. pose proof TF_PARAMS_windows as Hw.
  rewrite Forall_forall in Hw.
  destruct (Dict.getitem TF_PARAMS fallback) as [d|] eqn:Ed; [|discriminate].
  destruct (Dict.getitem TF_PARAMS tf) as [q|] eqn:Eq;
    intros H; inversion H; subst; apply Hw; eapply getitem_value; eauto.
Qed.

Lemma params_for_ok (tf fallback : string) :
  In fallback (Dict.keys TF_PARAMS) -> exists p, params_for tf fallback = inr p.
Proof.
  intros Hin. unfold params_for.
  destruct (getitem_In TF_PARAMS fallback Hin) as [d ->]. eauto.
Qed.

Lemma system_window (p : tf_params) (a rmin rmax : Q) :
  (5 <= smooth_window p <= 13)%Z ->
  uses_savgol (processor (system p a rmin rmax)) = true /\
  (savgol_window (processor (system p a rmin rmax)) <= 13)%Z.
Proof.
  intros Hw. split; [reflexivity|].
  unfold savgol_window. cbn [system processor window poly]. cbv zeta.
  destruct (Z.max (smooth_window p) 5 mod 2 =? 1)%Z eqn:E; [lia|].
  destruct (Z.eq_dec (smooth_window p) 13) as [E13 | N13].
  - rewrite E13 in E. discriminate.
  - lia.
Qed.

Lemma load_inv (close : list (option Q)) (prices : list Q) :
  _load close = Ok prices ->
  prices = dropna close /\ (20 <= length prices)%nat.
Proof.
  unfold _load. destruct close as [|v close]; [discriminate|]. cbv zeta.
  destruct (Nat.ltb_spec (length (dropna (v :: close))) 20) as [Hlt | Hge];
    [discriminate|].
  intros E. inversion E. subst. split; [reflexivity | exact Hge].
Qed.

Lemma load_short (close : list (option Q)) :
  (length (dropna close) < 20)%nat -> _load close = Raise ValueError.
Proof.
  intros Hs. unfold _load. destruct close as [|v close]; [reflexivity|].
  cbv zeta.
  destruct (Nat.ltb_spec (length (dropna (v :: close))) 20);
    [reflexivity | lia].
Qed.

Lemma load_ok (close : list (option Q)) :
  (20 <= length (dropna close))%nat -> _load close = Ok (dropna close).
Proof.
  intros Hs. unfold _load. destruct close as [|v close].
  - simpl in Hs. lia.
  - cbv zeta.
    destruct (Nat.ltb_spec (length (dropna (v :: close))) 20);
      [lia | reflexivity].
Qed.

Lemma wave_loop_miss (c : Z) (l : list Wave) (st : BoxName) :
  Forall (fun w => (index (end_ w) < c)%Z) l -> wave_loop c l st = st.
Proof.
  induction 1 as [|w l Hw _ IH]; simpl; [reflexivity|].
  destruct (Z.leb_spec c (index (end_ w))); [lia|].
  rewrite andb_false_r. exact IH.
Qed.

End Dashboard.

(** X27.  The analytic part of the dashboard's callback never raises
    when the smoothing kernels return one value per input value, whatever
    the two timeframe names: a column with fewer than 20 values is
    refused by the loader and reported, and 20 bars are enough for every
    smoothing window of [TF_PARAMS] (13 at most), so that both runs
    return. *)
Theorem run_analysis_total (X : Externals) (tf_big tf_small : string)
        (close_big close_small : list (option Q)) :
  length_preserving X ->
  exists a,
    App.run_analysis X tf_big tf_small close_big close_small = inr a /\
    (a = App.LoadFailed <->
     (length (App.dropna close_big) < 20)%nat \/
     (length (App.dropna close_small) < 20)%nat).
Proof.
  intros HX. unfold App.run_analysis.
  destruct (Nat.lt_ge_cases (length (App.dropna close_big)) 20) as [Sb | Lb].
  { rewrite (load_short _ Sb). simpl. exists App.LoadFailed.
    split; [reflexivity|]. split; auto. }
  rewrite (load_ok _ Lb). cbn [bind].
  destruct (Nat.lt_ge_cases (length (App.dropna close_small)) 20)
    as [Ss | Ls].
  { rewrite (load_short _ Ss). simpl. exists App.LoadFailed.
    split; [reflexivity|]. split; auto. }
  rewrite (load_ok _ Ls). cbn [bind].
  destruct (params_for_ok tf_big "1d") as [p_big Eb];
    [simpl; auto|].
  destruct (params_for_ok tf_small "1h") as [p_small Es];
    [simpl; auto|].
  rewrite Eb, Es. cbv zeta.
  destruct (system_window p_big (618 # 1000) (25 # 100) (85 # 100)
              (params_for_window _ _ _ Eb)) as [_ Wb].
  destruct (system_window p_small (50 # 100) (20 # 100) (90 # 100)
              (params_for_window _ _ _ Es)) as [_ Ws].
  destruct (run_returns X
              (App.system p_big (618 # 1000) (25 # 100) (85 # 100))
              (App.dropna close_big) HX) as [rb ->].
  { intros E. rewrite E in Lb. simpl in Lb. lia. }
  { intros _. lia. }
  destruct (run_returns X
              (App.system p_small (50 # 100) (20 # 100) (90 # 100))
              (App.dropna close_small) HX) as [rs ->].
  { intros E. rewrite E in Ls. simpl in Ls. lia. }
  { intros _. lia. }
  eexists. split; [reflexivity|]. split; [discriminate|].
  intros [H | H]; lia.
Qed.

Lemma run_analysis_total_witness :
  length_preserving X_id /\
  exists a,
    App.run_analysis X_id "1h" "15m"
      (map Some (zigzag ++ zigzag)) (map Some (skewed ++ skewed)) = inr a /\
    (a = App.LoadFailed <->
     (length (App.dropna (map Some (zigzag ++ zigzag))) < 20)%nat \/
     (length (App.dropna (map Some (skewed ++ skewed))) < 20)%nat).
Proof.
  split; [exact X_id_length_preserving|].
  apply (run_analysis_total X_id "1h" "15m").
  exact X_id_length_preserving.
Defined.

(** X28.  For the result of [run] on the big-timeframe series itself,
    [_box_by_pattern] never names the box after the "current wave": the
    current bar is the last bar, and every wave ends before it.  The box
    is either the plain time zone (no wave at all), or "post-structure"
    with the type of the last wave, or one of W1, W2, W3 of a valid
    structure; the entry signal is set only for W2. *)
Theorem box_name_cases (X : Externals) (self : PatternSystem.conf)
        (trunc35 : Z -> Z) (pb : list Q) (rb : PatternSystem.Output) :
  PatternSystem.run X self pb None = Ok rb ->
  App.method (App.box_name trunc35 (length pb) rb) <> "current wave"%string /\
  ((PatternSystem.waves rb = [] /\
    App.box_name trunc35 (length pb) rb
    = App.mkBoxName "time zone" App.ZOOM_COLOR Unknown "by time" false) \/
   (exists w0 ws,
      PatternSystem.waves rb = w0 :: ws /\
      App.box_name trunc35 (length pb) rb
      = App.mkBoxName "post-structure"
          (if wtype_eqb (wave_type (last (w0 :: ws) w0)) Impulse
           then App.IMP_COLOR else App.CORR_COLOR)
          (wave_type (last (w0 :: ws) w0)) "after structure" false) \/
   (PatternSystem.valid_triples rb <> [] /\
    exists wn,
      In wn ["W1"; "W2"; "W3"]%string /\
      App.wave_name (App.box_name trunc35 (length pb) rb) = wn /\
      App.method (App.box_name trunc35 (length pb) rb)
      = ("in " ++ wn ++ " of last structure")%string /\
      App.entry_signal (App.box_name trunc35 (length pb) rb)
      = String.eqb wn "W2")).
Proof.
  intros Hrun.
  pose proof (run_wave_ends _ _ _ _ _ Hrun) as Hends.
  assert (Hv : PatternSystem.valid_triples rb
               = filter is_valid (PatternSystem.triples rb)).
  { apply run_inv in Hrun.
    destruct Hrun as [df0 [df [exs [ws [ts [ts' Hall]]]]]]. apply Hall. }
  assert (Hmiss : forall st,
            App.wave_loop (Z.of_nat (length pb) - 1)
                          (rev (PatternSystem.waves rb)) st = st).
  { intros st. apply wave_loop_miss. apply Forall_forall.
    intros w Hin. apply in_rev in Hin.
    rewrite Forall_forall in Hends. auto. }
  assert (Hplain :
    (let st := App.mkBoxName "time zone" App.ZOOM_COLOR Unknown
                             "by time" false in
     let st1 := if String.eqb (App.wave_name st) "time zone" then
                  match PatternSystem.waves rb with
                  | [] => st
                  | _ :: _ => App.wave_loop (Z.of_nat (length pb) - 1)
                                (rev (PatternSystem.waves rb)) st
                  end
                else st in
     if String.eqb (App.wave_name st1) "time zone" then
       match PatternSystem.waves rb with
       | [] => st1
       | w0 :: _ =>
           App.mkBoxName "post-structure"
             (if wtype_eqb (wave_type (last (PatternSystem.waves rb) w0))
                           Impulse
              then App.IMP_COLOR else App.CORR_COLOR)
             (wave_type (last (PatternSystem.waves rb) w0))
             "after structure" (App.entry_signal st1)
       end
     else st1)
    = match PatternSystem.waves rb with
      | [] => App.mkBoxName "time zone" App.ZOOM_COLOR Unknown
                            "by time" false
      | w0 :: _ =>
          App.mkBoxName "post-structure"
            (if wtype_eqb (wave_type (last (PatternSystem.waves rb) w0))
                          Impulse
             then App.IMP_COLOR else App.CORR_COLOR)
            (wave_type (last (PatternSystem.waves rb) w0))
            "after structure" false
      end).
  { cbv zeta. cbn [App.wave_name]. rewrite String.eqb_refl.
    rewrite Hmiss. destruct (PatternSystem.waves rb); reflexivity. }
  cbv zeta in Hplain.
  unfold App.box_name. cbv zeta. rewrite <- Hv.
  destruct (PatternSystem.valid_triples rb) as [|t ts] eqn:Evt.
  - rewrite Hplain. destruct (PatternSystem.waves rb) as [|w0 ws].
    + split; [discriminate|]. left. split; reflexivity.
    + split; [discriminate|]. right. left. exists w0, ws.
      split; reflexivity.
  - cbn [App.structure_loop].
    repeat match goal with
    | |- context [if (?a && ?b)%bool then _ else _] =>
        destruct (a && b)%bool;
        [cbn [App.wave_name App.method App.entry_signal];
         split; [discriminate|]; right; right;
         split; [discriminate|];
         eexists; split; [|split; [reflexivity|split; reflexivity]];
         simpl; auto |]
    end.
    rewrite Hplain. destruct (PatternSystem.waves rb) as [|w0 ws].
    + split; [discriminate|]. left. split; reflexivity.
    + split; [discriminate|]. right. left. exists w0, ws.
      split; reflexivity.
Qed.

Lemma box_name_cases_witness :
  exists rb,
    PatternSystem.run X_id ema_conf skewed None = Ok rb /\
    App.method (App.box_name (fun d => (d * 35 / 100)%Z) (length skewed) rb)
    <> "current wave"%string.
Proof.
  eexists. split; [vm_compute; reflexivity|].
  apply (box_name_cases X_id ema_conf (fun d => (d * 35 / 100)%Z) skewed).
  vm_compute. reflexivity.
Defined.
